(** * HoloPy parameter-mapping engine: [holopy/inference/model.py]

    A shallow embedding of [read_map], [edit_map_indices] and of the
    [Model] methods [_convert_to_map], [_iterate_mapping],
    [_map_dictionary], [_map_xarray], [_map_complex], [_check_for_ties]
    and [add_tie], together with the properties of the parameter
    registry and of the maps that the specification states. *)

From Stdlib Require Import ZArith Ascii String DecimalString DecimalZ Decimal.
From stdpp Require Import base tactics option list sorting strings.

Local Open Scope Z_scope.

(** ** Python strings *)

Module PyString.

Definition chars : string -> list ascii := list_ascii_of_string.
Definition of_chars : list ascii -> string := string_of_list_ascii.

(** [s[::-1]] *)
Definition reversed (s : string) : string := of_chars (rev (chars s)).

(** [s[:n]] and [s[n:]] for a non-negative literal [n]. *)
Definition slice_to (n : nat) (s : string) : string := of_chars (take n (chars s)).
Definition slice_from (n : nat) (s : string) : string := of_chars (drop n (chars s)).

(** The text before the first [sep] and, when [sep] occurs, the text after it. *)
Fixpoint break_at (sep : ascii) (l : list ascii) : list ascii * option (list ascii) :=
  match l with
  | [] => ([], None)
  | c :: rest =>
      if decide (c = sep) then ([], Some rest)
      else let '(hd, tl) := break_at sep rest in (c :: hd, tl)
  end.

(** [s.split(sep, 1)] for a one-character separator. *)
Definition split1 (sep : ascii) (s : string) : list string :=
  match break_at sep (chars s) with
  | (hd, None) => [of_chars hd]
  | (hd, Some tl) => [of_chars hd; of_chars tl]
  end.

(** [s.split(sep)[-1]]: the text after the last [sep], or all of [s]. *)
Fixpoint last_field (sep : ascii) (cur : list ascii) (l : list ascii) : list ascii :=
  match l with
  | [] => rev cur
  | c :: rest =>
      if decide (c = sep) then last_field sep [] rest
      else last_field sep (c :: cur) rest
  end.
Definition split_last (sep : ascii) (s : string) : string :=
  of_chars (last_field sep [] (chars s)).

(** [str(n)] for an integer. *)
Definition str (n : Z) : string := NilZero.string_of_int (Z.to_int n).

(** [int(s)] on a literal made of an optional sign and decimal digits, the
    only literals that this code writes and reads back.  [None] stands for
    [ValueError]; Python accepts, besides, white space around the literal
    and single underscores between its digits. *)
Definition int (s : string) : option Z :=
  match s with
  | String "+"%char (String c s') =>
      if decide (c = "-"%char) then None
      else Z.of_int <$> NilZero.int_of_string (String c s')
  | _ => Z.of_int <$> NilZero.int_of_string s
  end.

(** The characters that [str] writes. *)
Definition numeric (c : ascii) : Prop :=
  c ∈ ["0"; "1"; "2"; "3"; "4"; "5"; "6"; "7"; "8"; "9"; "-"]%char.

End PyString.

(** ** Python objects *)

(** Object identity ([is]): the address of a [Prior] object. *)
Definition ref := N.

(** The callables that map building stores in a map. *)
Inductive func := F_dict | F_make_xarray | F_make_complex.

(** Hashable keys of mappings and coordinate labels of labelled arrays. *)
Inductive pykey := KStr (s : string) | KInt (n : Z).

(** The values that a nested configuration, a map and a parameter vector
    are made of.  Numeric leaves are never computed with by this code, so
    integers stand for all scalars.  A labelled array ([xr.DataArray],
    an external library) is held as the name of its leading dimension and,
    for every coordinate label of that dimension, the element or the
    sub-array found under it. *)
#[warnings="-register-all"]
Inductive pyobj :=
  | PyNone
  | PyNum (x : Z)
  | PyComplexNum (re im : Z)
  | PyStr (s : string)
  | PyFunc (f : func)
  | PyList (items : list pyobj)
  | PyTuple (items : list pyobj)
  | PyArray (items : list pyobj)
  | PyDict (items : list (pykey * pyobj))
  | PyXarray (dim_name : string) (items : list (pykey * pyobj))
  | PyComplexPrior (real imag : pyobj)
  | PyPrior (r : ref).

Global Instance func_eq_dec : EqDecision func.
Proof. solve_decision. Defined.
Global Instance pykey_eq_dec : EqDecision pykey.
Proof. solve_decision. Defined.

(** What the code reads of a [Prior] object: its optional name, its guess
    and, for the equality test of [add_tie], its class and the remaining
    constructor arguments. *)
Record Prior := mkPrior {
  prior_name : option string;
  prior_class : string;
  prior_args : list Z;
  prior_guess : Z
}.

Global Instance Prior_eq_dec : EqDecision Prior.
Proof. solve_decision. Defined.

(** Modelled from the spec: [Prior.renamed] is defined in
    [holopy/inference/prior.py]; it returns a copy of the prior that
    differs in its name only, and [==] on priors compares them by value
    ("compare by value after stripping any name"). *)
Definition renamed (name : option string) (p : Prior) : Prior :=
  mkPrior name (prior_class p) (prior_args p) (prior_guess p).

(** The store of [Prior] objects: what lives at each address. *)
Definition heap := ref -> Prior.

(** ** Exceptions and results *)

Inductive value_error :=
  | CannotTieAbsent (par : string) (names : list string)
  | CannotTieUnequal (par first : string)
  | InvalidLiteral (s : string)
  | NotEnoughValues
  | NotInList (x : string).

Inductive exn :=
  | ValueError (why : value_error)
  | IndexError
  | KeyError (key : string)
  | TypeError
  (** a loop of the source that did not stop within the steps it can take *)
  | Diverges
  (** behaviour of a library call outside the part of Python modelled here *)
  | Unmodelled.

Inductive result (A : Type) :=
  | OK (a : A)
  | Raise (e : exn).
Global Arguments OK {A} a.
Global Arguments Raise {A} e.

Global Instance result_ret : MRet result := fun A a => OK a.
Global Instance result_bind : MBind result := fun A B f m =>
  match m with OK a => f a | Raise e => Raise e end.
Global Instance result_fmap : FMap result := fun A B f m =>
  match m with OK a => OK (f a) | Raise e => Raise e end.

Definition from_some {A} (e : exn) (o : option A) : result A :=
  match o with Some a => OK a | None => Raise e end.

(** A placeholder ['_parameter_{}'.format(index)]. *)
Definition placeholder (index : Z) : pyobj :=
  PyStr ("_parameter_" +:+ PyString.str index).

Section result_list.
Context {A B : Type} (f : A -> result B).
(** A list comprehension [[f(x) for x in l]] whose body may raise. *)
Fixpoint comprehension (l : list A) : result (list B) :=
  match l with
  | [] => OK []
  | x :: rest => y ← f x; ys ← comprehension rest; OK (y :: ys)
  end.
End result_list.

(** [l[i]] for a Python integer [i]: negative indices count from the end. *)
Definition getitem {A} (l : list A) (i : Z) : result A :=
  if decide (0 <= i) then from_some IndexError (l !! Z.to_nat i)
  else if decide (0 <= Z.of_nat (length l) + i)
       then from_some IndexError (l !! Z.to_nat (Z.of_nat (length l) + i))
       else Raise IndexError.

(** [del l[i]] for a non-negative index. *)
Definition delitem {A} (l : list A) (i : nat) : result (list A) :=
  if decide (i < length l)%nat then OK (delete i l) else Raise IndexError.

(** [l.index(x)] *)
Fixpoint list_index `{EqDecision A} (x : A) (l : list A) : option nat :=
  match l with
  | [] => None
  | y :: rest => if decide (y = x) then Some 0%nat else S <$> list_index x rest
  end.

(** Python dictionaries keep insertion order; assigning to a key that is
    present replaces its value in place. *)
Section dict.
Context {K V : Type} `{EqDecision K}.
Fixpoint dict_set (d : list (K * V)) (k : K) (v : V) : list (K * V) :=
  match d with
  | [] => [(k, v)]
  | (k', v') :: rest =>
      if decide (k' = k) then (k, v) :: rest else (k', v') :: dict_set rest k v
  end.
Fixpoint dict_get (d : list (K * V)) (k : K) : option V :=
  match d with
  | [] => None
  | (k', v') :: rest => if decide (k' = k) then Some v' else dict_get rest k
  end.
(** [dict(pairs)] and [{k: v for k, v in pairs}] *)
Definition dict_of (pairs : list (K * V)) : list (K * V) :=
  foldl (fun d kv => dict_set d kv.1 kv.2) [] pairs.
End dict.

(** ** Reading a map *)

(** [isinstance(x, Prior)]; [ComplexPrior] is a subclass of [Prior]. *)
Definition is_Prior (x : pyobj) : bool :=
  match x with PyPrior _ | PyComplexPrior _ _ => true | _ => false end.

(** A value used as a key of a dictionary or as a coordinate label. *)
Definition as_key (x : pyobj) : result pykey :=
  match x with
  | PyStr s => OK (KStr s)
  | PyNum n => OK (KInt n)
  | PyList _ | PyArray _ | PyDict _ | PyXarray _ _ => Raise TypeError
  | _ => Raise Unmodelled
  end.

(** One item of the argument of [dict(...)]: a pair of a key and a value. *)
Definition as_pair (x : pyobj) : result (pykey * pyobj) :=
  match x with
  | PyList [k; v] | PyTuple [k; v] | PyArray [k; v] => k' ← as_key k; OK (k', v)
  | PyList _ | PyTuple _ | PyArray _ => Raise (ValueError NotEnoughValues)
  | PyStr _ | PyDict _ | PyXarray _ _ => Raise Unmodelled
  | _ => Raise TypeError
  end.

Definition make_xarray (dim_name keys values : pyobj) : result pyobj :=
  match dim_name, keys, values with
  | _, _, PyList [] => Raise IndexError
  | PyStr dim, PyList ks, PyList vs =>
      ks' ← comprehension as_key ks;
      if decide (length ks' = length vs) then OK (PyXarray dim (zip ks' vs))
      else Raise Unmodelled
  | _, _, _ => Raise Unmodelled
  end.

Definition make_complex (real imag : pyobj) : result pyobj :=
  if is_Prior real || is_Prior imag then OK (PyComplexPrior real imag)
  else match real, imag with
       | PyNum re, PyNum im => OK (PyComplexNum re im)
       | PyNum _, (PyNone | PyStr _ | PyFunc _ | PyList _ | PyTuple _ | PyDict _)
       | (PyNone | PyStr _ | PyFunc _ | PyList _ | PyTuple _ | PyDict _), _ =>
           Raise TypeError
       | _, _ => Raise Unmodelled
       end.

(** Calling [func] on the unpacked list [args], for the callables that a
    map can hold. *)
Definition call (f : func) (args : list pyobj) : result pyobj :=
  match f, args with
  | F_dict, [] => OK (PyDict [])
  | F_dict, [PyDict items] => OK (PyDict items)
  | F_dict, [PyList pairs] | F_dict, [PyTuple pairs] | F_dict, [PyArray pairs] =>
      items ← comprehension as_pair pairs; OK (PyDict (dict_of items))
  | F_dict, [PyStr _] | F_dict, [PyXarray _ _] => Raise Unmodelled
  | F_make_xarray, [dim_name; keys; values] => make_xarray dim_name keys values
  | F_make_complex, [real; imag] => make_complex real imag
  | _, _ => Raise TypeError
  end.

(** The test [isinstance(map_entry, str) and map_entry[:11] == '_parameter_']. *)
Definition is_placeholder (s : string) : bool :=
  bool_decide (PyString.slice_to 11 s = "_parameter_").

(** What [read_map] does with a string. *)
Definition read_str (s : string) (parameter_values : list pyobj) : result pyobj :=
  if is_placeholder s then
    index ← from_some (ValueError (InvalidLiteral (PyString.slice_from 11 s)))
              (PyString.int (PyString.slice_from 11 s));
    getitem parameter_values index
  else OK (PyStr s).

Definition read_key (k : pykey) (parameter_values : list pyobj) : result pyobj :=
  match k with
  | KStr s => read_str s parameter_values
  | KInt n => OK (PyNum n)
  end.

Fixpoint read_map (map_entry : pyobj) (parameter_values : list pyobj) {struct map_entry}
  : result pyobj :=
  match map_entry with
  | PyStr s => read_str s parameter_values
  | PyList items =>
      let items_read :=
        PyList <$> comprehension (fun item => read_map item parameter_values) items in
      match items with
      | [PyFunc func; args] =>
          match args with
          | PyList args | PyTuple args | PyArray args =>
              vals ← comprehension (fun arg => read_map arg parameter_values) args;
              call func vals
          | PyStr s =>
              call func ((fun c => PyStr (String c "")) <$> PyString.chars s)
          | PyDict kvs =>
              vals ← comprehension (fun kv => read_key kv.1 parameter_values) kvs;
              call func vals
          | PyXarray _ _ => Raise Unmodelled
          | _ => Raise TypeError
          end
      | _ => items_read
      end
  | _ => OK map_entry
  end.

(** ** Editing a map *)

(** [(np.array(indices) < old_index).sum()] *)
Definition count_below (indices : list Z) (old_index : Z) : Z :=
  Z.of_nat (length (filter (fun i => i < old_index) indices)).

(** The index that [edit_map_indices] writes in place of [old_index]. *)
Definition new_index_of (indices : list Z) (old_index : Z) : result Z :=
  if decide (old_index ∈ indices) then getitem indices 0
  else
    first ← getitem indices 0;
    if decide (old_index < first) then OK old_index
    else
      let shift := count_below indices old_index - 1 in
      OK (old_index - shift).

Fixpoint edit_map_indices (map_entry : pyobj) (indices : list Z) {struct map_entry}
  : result pyobj :=
  match map_entry with
  | PyList items =>
      PyList <$> comprehension (fun item => edit_map_indices item indices) items
  | PyStr s =>
      if is_placeholder s then
        let field := PyString.split_last "_" s in
        old_index ← from_some (ValueError (InvalidLiteral field)) (PyString.int field);
        new_index ← new_index_of indices old_index;
        OK (placeholder new_index)
      else OK map_entry
  | _ => OK map_entry
  end.

(** ** The Model and its methods *)

(** The attributes of a [Model] that the mapping engine reads and writes.
    [_maps] is a dictionary from a group name to the map of that group. *)
Record Model := mkModel {
  _parameters : list ref;
  _parameter_names : list string;
  _maps : list (string * pyobj)
}.

(** A method of [Model]: it may update the attributes of [self] and either
    returns or raises; the attributes as they are at that moment are kept
    in both cases. *)
Definition py (A : Type) : Type := Model -> result A * Model.

Global Instance py_ret : MRet py := fun A a self => (OK a, self).
Global Instance py_bind : MBind py := fun A B f m self =>
  match m self with
  | (OK a, self') => f a self'
  | (Raise e, self') => (Raise e, self')
  end.

Definition raise {A} (e : exn) : py A := fun self => (Raise e, self).
Definition lift {A} (r : result A) : py A := fun self => (r, self).
Definition get_parameters : py (list ref) := fun self => (OK (_parameters self), self).
Definition get_parameter_names : py (list string) :=
  fun self => (OK (_parameter_names self), self).
Definition get_maps : py (list (string * pyobj)) := fun self => (OK (_maps self), self).
Definition set_parameters (l : list ref) : py unit :=
  fun self => (OK tt, mkModel l (_parameter_names self) (_maps self)).
Definition set_parameter_names (l : list string) : py unit :=
  fun self => (OK tt, mkModel (_parameters self) l (_maps self)).
Definition set_maps (m : list (string * pyobj)) : py unit :=
  fun self => (OK tt, mkModel (_parameters self) (_parameter_names self) m).

Section py_list.
Context {A B : Type} (f : nat -> A -> py B).
(** A list comprehension over [l], the body receiving the position of
    each item, evaluated from left to right in the state of [self]. *)
Fixpoint for_each_from (i : nat) (l : list A) : py (list B) :=
  match l with
  | [] => mret []
  | x :: rest => y ← f i x; ys ← for_each_from (S i) rest; mret (y :: ys)
  end.

Context (body : A -> py unit).
(** A [for] loop over [l] with the given body. *)
Fixpoint for_in (l : list A) : py unit :=
  match l with
  | [] => mret tt
  | x :: rest => body x;; for_in rest
  end.
End py_list.

(** [l[i] = x] for a non-negative index. *)
Definition setitem {A} (l : list A) (i : nat) (x : A) : result (list A) :=
  if decide (i < length l)%nat then OK (<[i := x]> l) else Raise IndexError.

(** [str(key)] *)
Definition key_str (k : pykey) : string :=
  match k with KStr s => s | KInt n => PyString.str n end.
Definition key_obj (k : pykey) : pyobj :=
  match k with KStr s => PyStr s | KInt n => PyNum n end.

(** [val is None] *)
Definition is_None (val : pyobj) : bool :=
  match val with PyNone => true | _ => false end.

(** The loop [while name in self._parameter_names] of [_check_for_ties],
    given the number of rounds it may take. *)
Fixpoint rename_loop (rounds : nat) (names : list string) (name : string)
  : result string :=
  if decide (name ∈ names) then
    match rounds with
    | O => Raise Diverges
    | S rounds' =>
        match PyString.split1 "_" (PyString.reversed name) with
        | [counter; reversename] =>
            c ← from_some (ValueError (InvalidLiteral (PyString.reversed counter)))
                  (PyString.int (PyString.reversed counter));
            rename_loop rounds' names
              (PyString.reversed reversename +:+ "_" +:+ PyString.str (c + 1))
        | _ => Raise (ValueError NotEnoughValues)
        end
    end
  else OK name.

Section methods.
Variable mem : heap.

Definition _check_for_ties (parameter : ref) (name : string) : py Z :=
  parameters ← get_parameters;
  match list_index parameter parameters with
  | Some index =>
      names ← get_parameter_names;
      stored ← lift (from_some IndexError (names !! index));
      let shared_name := default stored (last (PyString.split1 ":" stored)) in
      (if decide (shared_name ∈ names) then mret tt
       else set_parameter_names (<[index := shared_name]> names));;
      mret (Z.of_nat index)
  | None =>
      let index := length parameters in
      set_parameters (parameters ++ [parameter]);;
      names ← get_parameter_names;
      let name := default name (prior_name (mem parameter)) in
      let name := if decide (name ∈ names) then name +:+ "_0" else name in
      name ← lift (rename_loop (S (length names)) names name);
      set_parameter_names (names ++ [name]);;
      mret (Z.of_nat index)
  end.

Fixpoint _convert_to_map (parameter : pyobj) (name : string) {struct parameter}
  : py pyobj :=
  let _iterate_mapping {A} (suffix : nat -> A -> string) (value : A -> pyobj)
        (prefix : string) (pairs : list A) : py (list pyobj) :=
    for_each_from
      (fun i pair => _convert_to_map (value pair) (prefix +:+ suffix i pair))
      0 pairs in
  match parameter with
  | PyList items | PyTuple items | PyArray items =>
      mapped ← _iterate_mapping (fun i _ => PyString.str (Z.of_nat i)) id
                 (name +:+ ".") items;
      mret (PyList mapped)
  | PyDict items =>
      let prefix := if decide (0 < String.length name)%nat then name +:+ "." else "" in
      values_map ← _iterate_mapping (fun _ kv => key_str kv.1) snd prefix items;
      let iterator := zip (fst <$> items) values_map in
      let dict_args :=
        (fun kv => PyList [key_obj kv.1; kv.2])
          <$> filter (fun kv => ¬ is_None kv.2) iterator in
      mret (PyList [PyFunc F_dict; PyList [PyList dict_args]])
  | PyXarray dim_name items =>
      let coord_keys := fst <$> items in
      values_map ← _iterate_mapping (fun _ kv => key_str kv.1) snd
                     (name +:+ ".") items;
      mret (PyList [PyFunc F_make_xarray;
                    PyList [PyStr dim_name; PyList (key_obj <$> coord_keys);
                            PyList values_map]])
  | PyComplexPrior real imag =>
      mapped ← _iterate_mapping (fun _ kv => kv.1) snd (name +:+ ".")
                 [("real", real); ("imag", imag)];
      mret (PyList [PyFunc F_make_complex; PyList mapped])
  | PyPrior r =>
      index ← _check_for_ties r name;
      mret (placeholder index)
  | _ => mret parameter
  end.

(** The property [Model.parameters]. *)
Definition parameters (self : Model) : list (string * ref) :=
  dict_of (zip (_parameter_names self) (_parameters self)).

(** [self.parameters[name]] *)
Definition parameters_getitem (name : string) : py ref :=
  fun self => (from_some (KeyError name) (dict_get (parameters self) name), self).

(** The property [Model.initial_guess]. *)
Definition initial_guess (self : Model) : list pyobj :=
  (fun par => PyNum (prior_guess (mem par))) <$> _parameters self.

(** The first loop of [add_tie], which collects [indices]. *)
Fixpoint add_tie_indices (parameters_to_tie : list string) (todo : list string)
    (indices : list nat) : py (list nat) :=
  match todo with
  | [] => mret indices
  | par :: todo' =>
      names ← get_parameter_names;
      if decide (par ∈ names) then
        first ← lift (getitem parameters_to_tie 0);
        first_par ← parameters_getitem first;
        let first_value := renamed None (mem first_par) in
        this_par ← parameters_getitem par;
        if decide (renamed None (mem this_par) = first_value) then
          index ← lift (from_some (ValueError (NotInList par)) (list_index par names));
          add_tie_indices parameters_to_tie todo' (indices ++ [index])
        else raise (ValueError (CannotTieUnequal par first))
      else raise (ValueError (CannotTieAbsent par names))
  end.

(** The body of the second loop of [add_tie]. *)
Definition del_slot (index : nat) : py unit :=
  parameters ← get_parameters;
  parameters ← lift (delitem parameters index);
  set_parameters parameters;;
  names ← get_parameter_names;
  names ← lift (delitem names index);
  set_parameter_names names.

Definition add_tie (parameters_to_tie : list string) (new_name : option string)
  : py unit :=
  indices ← add_tie_indices parameters_to_tie parameters_to_tie [];
  let indices := merge_sort Nat.le indices in
  for_in del_slot (rev (drop 1 indices));;
  match new_name with
  | Some new_name =>
      first ← lift (from_some IndexError (indices !! 0%nat));
      names ← get_parameter_names;
      names ← lift (setitem names first new_name);
      set_parameter_names names
  | None => mret tt
  end;;
  maps ← get_maps;
  maps ← lift (comprehension
                 (fun kv => val ← edit_map_indices kv.2 (Z.of_nat <$> indices);
                            OK (kv.1, val))
                 maps);
  set_maps (dict_of maps).

(** [Model.__init__], given [scatterer.parameters] and the dictionary
    [optics_parameters] that it builds from its optics arguments. *)
Definition Model_init (scatterer_parameters optics_parameters : pyobj) : py unit :=
  set_parameters [];;
  set_parameter_names [];;
  scatterer_map ← _convert_to_map scatterer_parameters "";
  optics_map ← _convert_to_map optics_parameters "";
  set_maps (dict_of [("scatterer", scatterer_map); ("optics", optics_map)]).

(** [self._maps[key] = self._convert_to_map(parameter)], as the subclasses
    [AlphaModel] and [PerfectLensModel] do at the end of [__init__]. *)
Definition Model_add_map (key : string) (parameter : pyobj) : py unit :=
  map_entry ← _convert_to_map parameter "";
  maps ← get_maps;
  set_maps (dict_set maps key map_entry).
End methods.

(** The attributes of an object on which [__init__] has not run yet. *)
Definition blank : Model := mkModel [] [] [].

(** The states that a Model goes through: [__init__] returns, a subclass
    adds a map, and [add_tie] is called any number of times, whether it
    returns or raises.  The flag tells whether one of the ties has given a
    new name. *)
Inductive reachable (mem : heap) : bool -> Model -> Prop :=
  | reachable_init scatterer_parameters optics_parameters self0 self :
      Model_init mem scatterer_parameters optics_parameters self0 = (OK tt, self) ->
      reachable mem false self
  | reachable_add_map named key parameter self self' :
      reachable mem named self ->
      Model_add_map mem key parameter self = (OK tt, self') ->
      reachable mem named self'
  | reachable_add_tie named parameters_to_tie new_name outcome self self' :
      reachable mem named self ->
      add_tie mem parameters_to_tie new_name self = (outcome, self') ->
      reachable mem (named || bool_decide (is_Some new_name)) self'.

(** ** Reading the Model: parameters, scatterer, optics and noise *)

(** [OPTICS_KEYS] *)
Definition OPTICS_KEYS : list string :=
  ["medium_index"; "illum_wavelen"; "illum_polarization"; "noise_sd"].

(** The dictionary [optics_parameters] that [Model.__init__] makes of its
    four optics arguments by [zip(OPTICS_KEYS, optics)]. *)
Definition optics_parameters_of (medium_index illum_wavelen illum_polarization
    noise_sd : pyobj) : pyobj :=
  PyDict (dict_of (zip (KStr <$> OPTICS_KEYS)
                       [medium_index; illum_wavelen; illum_polarization; noise_sd])).

(** What the lookups of optics and noise raise: [MissingParameter] of
    [holopy.scattering.errors], [NameError] for a name that is bound
    nowhere, and the exceptions of the code they call. *)
Inductive lookup_exn :=
  | MissingParameter (what : string)
  | NameError (name : string)
  | Raised (e : exn).

Inductive lookup (A : Type) :=
  | Found (a : A)
  | Fails (e : lookup_exn).
Global Arguments Found {A} a.
Global Arguments Fails {A} e.

Definition lookup_of {A} (r : result A) : lookup A :=
  match r with OK a => Found a | Raise e => Fails (Raised e) end.

(** The object [schema] as [hasattr] and [getattr] see it: the value of
    each attribute it has.  [None] has none of the attributes asked for. *)
Definition schema := string -> option pyobj.
Definition schema_None : schema := fun _ => None.

(** [x if x is not None], for the value of a key or attribute that may be
    missing. *)
Definition not_None (x : option pyobj) : option pyobj :=
  match x with
  | Some val => if is_None val then None else Some val
  | None => None
  end.

(** [self._maps[key]] *)
Definition maps_getitem (self : Model) (key : string) : result pyobj :=
  from_some (KeyError key) (dict_get (_maps self) key).

(** [read_map(self._maps[key], pars)] where a dictionary is expected. *)
Definition read_group (self : Model) (key : string) (pars : list pyobj)
  : lookup (list (pykey * pyobj)) :=
  match maps_getitem self key with
  | Raise e => Fails (Raised e)
  | OK map_entry =>
      match read_map map_entry pars with
      | Raise e => Fails (Raised e)
      | OK (PyDict mapped) => Found mapped
      | OK _ => Fails (Raised Unmodelled)
      end
  end.

(** The local function [find_parameter] of [_find_optics]. *)
Definition find_parameter (mapped_optics : list (pykey * pyobj)) (sch : schema)
    (key : string) : lookup pyobj :=
  match not_None (dict_get mapped_optics (KStr key)) with
  | Some val => Found val
  | None =>
      match not_None (sch key) with
      | Some val => Found val
      | None => Fails (MissingParameter key)
      end
  end.

(** The dictionary comprehension [{key: find(key) for key in keys}]. *)
Fixpoint find_each (find : string -> lookup pyobj) (keys : list string)
  : lookup (list (string * pyobj)) :=
  match keys with
  | [] => Found []
  | key :: keys' =>
      match find key with
      | Fails e => Fails e
      | Found val =>
          match find_each find keys' with
          | Fails e => Fails e
          | Found d => Found (dict_of ((key, val) :: d))
          end
      end
  end.

Definition _find_optics (self : Model) (pars : list pyobj) (sch : schema)
  : lookup (list (string * pyobj)) :=
  match read_group self "optics" pars with
  | Fails e => Fails e
  | Found mapped_optics =>
      find_each (find_parameter mapped_optics sch) (removelast OPTICS_KEYS)
  end.

(** The properties [medium_index], [illum_wavelen] and
    [illum_polarization]: [self._find_optics(self._parameters, None)[key]]. *)
Definition optics_property (key : string) (self : Model) : lookup pyobj :=
  match _find_optics self (PyPrior <$> _parameters self) schema_None with
  | Fails e => Fails e
  | Found d => lookup_of (from_some (KeyError key) (dict_get d key))
  end.

(** [isinstance(par, Uniform)], for the class itself. *)
Definition is_Uniform (mem : heap) (par : ref) : bool :=
  bool_decide (prior_class (mem par) = "Uniform").

(** [_find_noise].  Its second [else] raises [MissingParameter(key)] with a
    name [key] that neither the function nor the module binds. *)
Definition _find_noise (mem : heap) (self : Model) (pars : list pyobj) (sch : schema)
  : lookup pyobj :=
  match read_group self "optics" pars with
  | Fails e => Fails e
  | Found optics_map =>
      let val :=
        match not_None (dict_get optics_map (KStr "noise_sd")) with
        | Some val => Found val
        | None =>
            match sch "noise_sd" with
            | Some val => Found val
            | None => Fails (NameError "key")
            end
        end in
      match val with
      | Fails e => Fails e
      | Found val =>
          if is_None val then
            if forallb (is_Uniform mem) (_parameters self) then Found (PyNum 1)
            else Fails (MissingParameter "noise_sd for non-uniform priors")
          else Found val
      end
  end.

(** The property [noise_sd]. *)
Definition noise_sd_property (mem : heap) (self : Model) : lookup pyobj :=
  _find_noise mem self (PyPrior <$> _parameters self) schema_None.

(** [ensure_parameters_are_listlike], without the warning it gives for a
    dictionary. *)
Definition ensure_parameters_are_listlike (self : Model) (pars : pyobj) : result pyobj :=
  match pars with
  | PyDict d =>
      PyList <$> comprehension
                   (fun name => from_some (KeyError name) (dict_get d (KStr name)))
                   (_parameter_names self)
  | _ => OK pars
  end.

(** The items of a value used as a parameter vector. *)
Definition as_vector (pars : pyobj) : result (list pyobj) :=
  match pars with
  | PyList items | PyTuple items | PyArray items => OK items
  | _ => Raise Unmodelled
  end.

(** [scatterer_from_parameters], up to the call of
    [self._dummy_scatterer.from_parameters]: the parameters that it passes. *)
Definition scatterer_from_parameters (self : Model) (pars : pyobj) : result pyobj :=
  pars ← ensure_parameters_are_listlike self pars;
  pars ← as_vector pars;
  map_entry ← maps_getitem self "scatterer";
  read_map map_entry pars.

(** The property [scatterer], up to the same call. *)
Definition scatterer_property (self : Model) : result pyobj :=
  map_entry ← maps_getitem self "scatterer";
  read_map map_entry (PyPrior <$> _parameters self).

(** [AlphaModel.__init__] *)
Definition AlphaModel_init (mem : heap) (scatterer_parameters optics_parameters
    alpha : pyobj) : py unit :=
  Model_init mem scatterer_parameters optics_parameters;;
  Model_add_map mem "model" (PyDict [(KStr "alpha", alpha)]).

(** The property [AlphaModel.alpha] and the first line of
    [AlphaModel.forward]: [read_map(self._maps['model'], pars)['alpha']]. *)
Definition read_alpha (self : Model) (pars : list pyobj) : lookup pyobj :=
  match read_group self "model" pars with
  | Fails e => Fails e
  | Found d => lookup_of (from_some (KeyError "alpha") (dict_get d (KStr "alpha")))
  end.

(** ** Vocabulary of the properties *)

(** The constants that [_convert_to_map] returns as they are: everything
    but sequences, mappings, labelled arrays and priors. *)
Definition constant_leaf (v : pyobj) : bool :=
  match v with
  | PyNone | PyNum _ | PyComplexNum _ _ | PyStr _ | PyFunc _ => true
  | _ => false
  end.

(** Modelled from the spec: the Tie Editor's [retarget(map, renumbering)],
    which "recursively rewrites every SlotRef(i) to
    SlotRef(renumbering[i]), leaving Constant/structural shape untouched". *)
Fixpoint retarget (renumbering : Z -> Z) (map_entry : pyobj) : pyobj :=
  match map_entry with
  | PyList items => PyList (retarget renumbering <$> items)
  | PyStr s =>
      if is_placeholder s then
        match PyString.int (PyString.slice_from 11 s) with
        | Some i => placeholder (renumbering i)
        | None => map_entry
        end
      else map_entry
  | _ => map_entry
  end.

(** A map all of whose placeholders are of the form that map building
    writes and refer to a slot of an [n]-slot registry. *)
Fixpoint slot_map (n : Z) (map_entry : pyobj) : bool :=
  match map_entry with
  | PyList items => forallb (slot_map n) items
  | PyStr s =>
      if is_placeholder s then
        match PyString.int (PyString.slice_from 11 s) with
        | Some i => bool_decide (0 <= i < n /\ s = "_parameter_" +:+ PyString.str i)
        | None => false
        end
      else true
  | _ => true
  end.

(** Modelled from the spec: the renumbering that [merge] returns when the
    indices [lowest :: others] are tied, "merged indices renumber to the
    surviving slot's new position; lower untouched indices are unchanged;
    higher indices shift down by the count of removed slots below them". *)
Definition renumbering (lowest : Z) (others : list Z) (old_index : Z) : Z :=
  if decide (old_index ∈ lowest :: others) then lowest
  else if decide (old_index < lowest) then old_index
  else old_index - count_below others old_index.


(** A store in which every prior is the same unnamed uniform distribution. *)
Definition uniform_heap : heap := fun _ => mkPrior None "Uniform" [0; 1] 0.

(** A store in which the priors are uniform distributions with different
    upper bounds and guesses. *)
Definition bounded_heap : heap :=
  fun r => mkPrior None "Uniform" [0; 10 * Z.of_N r] (Z.of_N r).

(** The parameters of a sphere: a radius, a complex index whose real part
    is free, a centre whose second coordinate is tied to the radius, and a
    labelled polarization. *)
Definition sphere_parameters : pyobj :=
  PyDict [(KStr "r", PyPrior 1%N);
          (KStr "n", PyComplexPrior (PyPrior 2%N) (PyNum 0));
          (KStr "center", PyList [PyPrior 3%N; PyPrior 1%N; PyNum 5]);
          (KStr "polarization",
           PyXarray "vector" [(KStr "x", PyNum 1); (KStr "y", PyPrior 4%N)])].

(** A scatterer with five free parameters [a] to [e], and its optics. *)
Definition five_parameters : pyobj :=
  PyDict [(KStr "a", PyPrior 1%N); (KStr "b", PyPrior 2%N); (KStr "c", PyPrior 3%N);
          (KStr "d", PyPrior 4%N); (KStr "e", PyPrior 5%N)].
Definition plain_optics : pyobj :=
  PyDict [(KStr "medium_index", PyNum 1); (KStr "illum_wavelen", PyNum 1);
          (KStr "illum_polarization", PyTuple [PyNum 1; PyNum 0]);
          (KStr "noise_sd", PyNone)].

(** The model that [Model(scatterer, ...)] builds from them. *)
Definition five_model : Model :=
  mkModel [1; 2; 3; 4; 5]%N ["a"; "b"; "c"; "d"; "e"]
    [("scatterer",
      PyList [PyFunc F_dict;
              PyList [PyList [PyList [PyStr "a"; placeholder 0];
                              PyList [PyStr "b"; placeholder 1];
                              PyList [PyStr "c"; placeholder 2];
                              PyList [PyStr "d"; placeholder 3];
                              PyList [PyStr "e"; placeholder 4]]]]);
     ("optics",
      PyList [PyFunc F_dict;
              PyList [PyList [PyList [PyStr "medium_index"; PyNum 1];
                              PyList [PyStr "illum_wavelen"; PyNum 1];
                              PyList [PyStr "illum_polarization";
                                      PyList [PyNum 1; PyNum 0]]]]])].

(** The name that the renaming loop of [_check_for_ties] starts from. *)
Definition first_candidate (mem : heap) (parameter : ref) (name : string)
    (names : list string) : string :=
  let name := default name (prior_name (mem parameter)) in
  if decide (name ∈ names) then name +:+ "_0" else name.

(** A key that reading does not take for a placeholder. *)
Definition key_ok (k : pykey) : bool :=
  match k with KStr s => negb (is_placeholder s) | KInt _ => true end.

(** A number or a prior that is not complex. *)
Definition scalar_or_prior (v : pyobj) : bool :=
  match v with PyNum _ | PyPrior _ => true | _ => false end.

(** The configurations that the round trip is stated for.  Values of
    mappings are not [None], whose entries map building drops; keys,
    coordinate labels, dimension names and constant strings do not begin
    with [_parameter_], which reading takes for a placeholder; no constant
    is a callable, which reading would call; a labelled array has a label;
    the parts of a complex prior are priors or numbers. *)
Fixpoint supported (c : pyobj) : bool :=
  match c with
  | PyNone | PyNum _ | PyComplexNum _ _ | PyPrior _ => true
  | PyStr s => negb (is_placeholder s)
  | PyFunc _ => false
  | PyList items | PyTuple items | PyArray items => forallb supported items
  | PyDict items =>
      bool_decide (NoDup items.*1)
      && forallb (fun kv => key_ok kv.1 && negb (is_None kv.2) && supported kv.2) items
  | PyXarray dim items =>
      negb (is_placeholder dim)
      && negb (bool_decide (items = []))
      && forallb (fun kv => key_ok kv.1 && supported kv.2) items
  | PyComplexPrior real imag => scalar_or_prior real && scalar_or_prior imag
  end.

(** The complex number of two numbers; with a prior among the parts, the
    complex prior of the parts. *)
Definition complex_of (real imag : pyobj) : pyobj :=
  match real, imag with
  | PyNum re, PyNum im => PyComplexNum re im
  | _, _ => PyComplexPrior real imag
  end.

(** The configuration [c] with the value [slot r] in place of every prior
    [r], and with its tuples and arrays as lists. *)
Fixpoint substitute (slot : ref -> pyobj) (c : pyobj) : pyobj :=
  match c with
  | PyList items | PyTuple items | PyArray items => PyList (substitute slot <$> items)
  | PyDict items => PyDict ((fun kv => (kv.1, substitute slot kv.2)) <$> items)
  | PyXarray dim items =>
      PyXarray dim ((fun kv => (kv.1, substitute slot kv.2)) <$> items)
  | PyComplexPrior real imag => complex_of (substitute slot real) (substitute slot imag)
  | PyPrior r => slot r
  | _ => c
  end.

(** The guess of a prior, as a value of the parameter vector. *)
Definition guess_of (mem : heap) (r : ref) : pyobj := PyNum (prior_guess (mem r)).

(** A configuration with lists for sequences and a prior in every complex
    prior. *)
Fixpoint plain (c : pyobj) : bool :=
  match c with
  | PyTuple _ | PyArray _ => false
  | PyList items => forallb plain items
  | PyDict items | PyXarray _ items => forallb (fun kv => plain kv.2) items
  | PyComplexPrior real imag => is_Prior real || is_Prior imag
  | _ => true
  end.

(** The registry holds one name for every slot. *)
Definition aligned (self : Model) : Prop :=
  length (_parameters self) = length (_parameter_names self).

(** [vals] holds, at every slot of [self], the value [slot r] of the prior
    [r] that is registered there. *)
Definition agrees (slot : ref -> pyobj) (self : Model) (vals : list pyobj) : Prop :=
  forall i r, _parameters self !! i = Some r -> vals !! i = Some (slot r).

(** From [self] to [self'], slots have only been appended, and names that
    were distinct still are. *)
Definition extends (self self' : Model) : Prop :=
  aligned self' /\ _maps self' = _maps self /\
  _parameters self `prefix_of` _parameters self' /\
  (NoDup (_parameter_names self) -> NoDup (_parameter_names self')).

(** [M] is a map of [c] for the registry of [self]. *)
Definition reads_back (slot : ref -> pyobj) (c M : pyobj) (self : Model) : Prop :=
  (forall vals, agrees slot self vals -> read_map M vals = OK (substitute slot c)) /\
  is_None M = is_None c /\
  (forall f, M <> PyFunc f) /\
  slot_map (Z.of_nat (length (_parameters self))) M = true.

(** What map building does with a supported configuration. *)
Definition builds (mem : heap) (slot : ref -> pyobj) (c : pyobj) : Prop :=
  forall name self,
    aligned self -> supported c = true ->
    exists M self',
      _convert_to_map mem c name self = (OK M, self') /\
      extends self self' /\ reads_back slot c M self'.

(** The prior that a parameter name refers to in [self.parameters], with
    its name stripped: what [add_tie] compares. *)
Definition referenced_value (mem : heap) (self : Model) (par : string) : option Prior :=
  (fun r => renamed None (mem r)) <$> dict_get (parameters self) par.

(** Induction on Python objects, with the items of every container. *)
Section pyobj_induction.
Variable P : pyobj -> Prop.
Hypothesis HNone : P PyNone.
Hypothesis HNum : forall x, P (PyNum x).
Hypothesis HComplexNum : forall re im, P (PyComplexNum re im).
Hypothesis HStr : forall s, P (PyStr s).
Hypothesis HFunc : forall f, P (PyFunc f).
Hypothesis HList : forall items, Forall P items -> P (PyList items).
Hypothesis HTuple : forall items, Forall P items -> P (PyTuple items).
Hypothesis HArray : forall items, Forall P items -> P (PyArray items).
Hypothesis HDict : forall items, Forall (fun kv => P kv.2) items -> P (PyDict items).
Hypothesis HXarray :
  forall dim items, Forall (fun kv => P kv.2) items -> P (PyXarray dim items).
Hypothesis HComplexPrior : forall real imag, P real -> P imag -> P (PyComplexPrior real imag).
Hypothesis HPrior : forall r, P (PyPrior r).

Fixpoint pyobj_induction (x : pyobj) : P x :=
  match x with
  | PyNone => HNone
  | PyNum n => HNum n
  | PyComplexNum re im => HComplexNum re im
  | PyStr s => HStr s
  | PyFunc f => HFunc f
  | PyList items =>
      HList items
        ((fix go l : Forall P l :=
            match l with
            | [] => Forall_nil_2 P
            | y :: l' => Forall_cons_2 P y l' (pyobj_induction y) (go l')
            end) items)
  | PyTuple items =>
      HTuple items
        ((fix go l : Forall P l :=
            match l with
            | [] => Forall_nil_2 P
            | y :: l' => Forall_cons_2 P y l' (pyobj_induction y) (go l')
            end) items)
  | PyArray items =>
      HArray items
        ((fix go l : Forall P l :=
            match l with
            | [] => Forall_nil_2 P
            | y :: l' => Forall_cons_2 P y l' (pyobj_induction y) (go l')
            end) items)
  | PyDict items =>
      HDict items
        ((fix go l : Forall (fun kv => P kv.2) l :=
            match l with
            | [] => Forall_nil_2 _
            | (k, y) :: l' =>
                Forall_cons_2 (fun kv => P kv.2) (k, y) l' (pyobj_induction y) (go l')
            end) items)
  | PyXarray dim items =>
      HXarray dim items
        ((fix go l : Forall (fun kv => P kv.2) l :=
            match l with
            | [] => Forall_nil_2 _
            | (k, y) :: l' =>
                Forall_cons_2 (fun kv => P kv.2) (k, y) l' (pyobj_induction y) (go l')
            end) items)
  | PyComplexPrior real imag =>
      HComplexPrior real imag (pyobj_induction real) (pyobj_induction imag)
  | PyPrior r => HPrior r
  end.
End pyobj_induction.

(** The prior at the slot that [add_tie] merges for a name, with its name
    stripped: the slot at [self._parameter_names.index(par)]. *)
Definition slot_value (mem : heap) (self : Model) (par : string) : option Prior :=
  match list_index par (_parameter_names self) with
  | Some index => (fun r => renamed None (mem r)) <$> _parameters self !! index
  | None => None
  end.




(** ** Vocabulary of the further properties *)

(** The priors of a configuration, in the order in which map building
    meets them. *)
Fixpoint priors_of (c : pyobj) : list ref :=
  match c with
  | PyList items | PyTuple items | PyArray items => concat (priors_of <$> items)
  | PyDict items | PyXarray _ items => concat ((fun kv => priors_of kv.2) <$> items)
  | PyComplexPrior real imag => priors_of real ++ priors_of imag
  | PyPrior r => [r]
  | _ => []
  end.

(** Registering priors in turn: one that holds no slot yet gets the next. *)
Definition register_all (parameters : list ref) (found : list ref) : list ref :=
  foldl (fun ps r => if decide (r ∈ ps) then ps else ps ++ [r]) parameters found.

(** A map made of lists and of constants that are not containers: the
    shape of every map that map building returns. *)
Fixpoint list_map (map_entry : pyobj) : bool :=
  match map_entry with
  | PyList items => forallb list_map items
  | PyNone | PyNum _ | PyComplexNum _ _ | PyStr _ | PyFunc _ => true
  | _ => false
  end.

(** The list without the items at the given positions, taken out one
    after the other. *)
Definition delete_each {A} (positions : list nat) (l : list A) : list A :=
  foldl (fun l i => delete i l) l positions.

(** The [j]-th name that the renaming loop tries for a candidate. *)
Definition numbered (candidate : string) (j : nat) : string :=
  candidate +:+ "_" +:+ PyString.str (Z.of_nat j).

(** No constant string, key, coordinate label or dimension name of the
    configuration begins with [_parameter_]. *)
Fixpoint clean (c : pyobj) : bool :=
  match c with
  | PyStr s => negb (is_placeholder s)
  | PyList items | PyTuple items | PyArray items => forallb clean items
  | PyDict items => forallb (fun kv => key_ok kv.1 && clean kv.2) items
  | PyXarray dim items =>
      negb (is_placeholder dim) && forallb (fun kv => key_ok kv.1 && clean kv.2) items
  | PyComplexPrior real imag => clean real && clean imag
  | _ => true
  end.

(** What map building returns for one configuration, whatever it is. *)
Definition registers (mem : heap) (c : pyobj) : Prop :=
  forall name self,
    aligned self ->
    exists M self',
      _convert_to_map mem c name self = (OK M, self') /\
      extends self self' /\
      _parameters self' = register_all (_parameters self) (priors_of c) /\
      list_map M = true /\
      (clean c = true ->
       slot_map (Z.of_nat (length (_parameters self'))) M = true).

(** The number of the given positions that lie below [i]. *)
Definition below (positions : list nat) (i : nat) : nat :=
  length (filter (fun d => d < i)%nat positions).

(** The vector in which the slots at the positions [others] hold what the
    slot [lowest] holds. *)
Definition tied_vector {A} (lowest : nat) (others : list nat) (l : list A) : list A :=
  imap (fun i x => if decide (i ∈ others) then default x (l !! lowest) else x) l.

(** The registry holds one name for every slot, no key has two maps, and
    every map is made of lists and constants whose placeholders stand for
    slots of the registry. *)
Definition well_formed (self : Model) : Prop :=
  aligned self /\
  NoDup (_maps self).*1 /\
  Forall (fun kv => list_map kv.2 = true /\
                    slot_map (Z.of_nat (length (_parameters self))) kv.2 = true)
         (_maps self).

(** The names that [add_tie] accepts: at least one; all of them present;
    referring to priors that are equal once their names are stripped.  The
    names are distinct. *)
Definition tieable (mem : heap) (self : Model) (tie : list string) : Prop :=
  tie <> [] /\
  NoDup tie /\
  (forall par, par ∈ tie -> par ∈ _parameter_names self) /\
  (forall p q, p ∈ tie -> q ∈ tie ->
     referenced_value mem self p = referenced_value mem self q).

(** The Models that the code makes of clean configurations: what
    [Model.__init__] builds, with the maps that subclasses add, after any
    calls of [add_tie] on distinct names, whatever those calls return. *)
Inductive well_built (mem : heap) : Model -> Prop :=
  | built_init scatterer_parameters optics_parameters self0 self :
      clean scatterer_parameters = true ->
      clean optics_parameters = true ->
      Model_init mem scatterer_parameters optics_parameters self0 = (OK tt, self) ->
      well_built mem self
  | built_add_map key parameter self self' :
      well_built mem self ->
      clean parameter = true ->
      Model_add_map mem key parameter self = (OK tt, self') ->
      well_built mem self'
  | built_add_tie parameters_to_tie new_name outcome self self' :
      well_built mem self ->
      NoDup parameters_to_tie ->
      add_tie mem parameters_to_tie new_name self = (outcome, self') ->
      well_built mem self'.

(** The prior whose value stands for [r] once the slots at [others] are
    tied to the slot at [lowest]. *)
Definition tied_to (parameters : list ref) (lowest : nat) (others : list nat)
    (r : ref) : ref :=
  match list_index r parameters with
  | Some i => if decide (i ∈ others) then default r (parameters !! lowest) else r
  | None => r
  end.

(** The value of the optics key [key] for a Model that was given [given]
    for it: [given] with the value of every prior; for a key that was not
    given, what the schema has, if it is not [None]. *)
Definition optic (slot : ref -> pyobj) (sch : schema) (key : string) (given : pyobj)
  : lookup pyobj :=
  if is_None given then
    match not_None (sch key) with
    | Some val => Found val
    | None => Fails (MissingParameter key)
    end
  else Found (substitute slot given).

Section concat_from.
Context {A B : Type} (f : nat -> A -> list B).
(** The lists that [f] gives for the items of [l] and their positions,
    from position [i] on, one after the other. *)
Fixpoint concat_from (i : nat) (l : list A) : list B :=
  match l with
  | [] => []
  | x :: rest => f i x ++ concat_from (S i) rest
  end.
End concat_from.

(** The priors of a configuration in the order in which map building meets
    them, each with the name that map building suggests for it: the keys
    and positions that lead to the prior, joined by dots. *)
Fixpoint named_priors (c : pyobj) (name : string) {struct c} : list (string * ref) :=
  match c with
  | PyList items | PyTuple items | PyArray items =>
      concat_from
        (fun i item => named_priors item ((name +:+ ".") +:+ PyString.str (Z.of_nat i)))
        0 items
  | PyDict items =>
      let prefix := if decide (0 < String.length name)%nat then name +:+ "." else "" in
      concat_from (fun _ kv => named_priors kv.2 (prefix +:+ key_str kv.1)) 0 items
  | PyXarray _ items =>
      concat_from (fun _ kv => named_priors kv.2 ((name +:+ ".") +:+ key_str kv.1))
        0 items
  | PyComplexPrior real imag =>
      named_priors real ((name +:+ ".") +:+ "real")
      ++ named_priors imag ((name +:+ ".") +:+ "imag")
  | PyPrior r => [(name, r)]
  | _ => []
  end.

(** One call of [_check_for_ties], for its effect on the registry. *)
Definition register (mem : heap) (found : string * ref) : py unit :=
  _check_for_ties mem found.2 found.1;; mret tt.

(** A result without its value. *)
Definition void {A} (r : result A) : result unit :=
  match r with OK _ => OK tt | Raise e => Raise e end.

(** The name that [_check_for_ties] tries first for a prior: the name of
    the prior if it has one, the suggested name otherwise. *)
Definition candidate_name (mem : heap) (found : string * ref) : string :=
  default found.1 (prior_name (mem found.2)).

(** ** Facts about Python strings and integers *)

Module PyStringFacts.
Import PyString.

Lemma chars_app s1 s2 : chars (s1 +:+ s2) = chars s1 ++ chars s2.
Proof. induction s1 as [|c s1 IH]; simpl; [done|]. by rewrite <- IH. Qed.

Lemma of_chars_chars s : of_chars (chars s) = s.
Proof. apply string_of_list_ascii_of_string. Qed.

Lemma chars_of_chars l : chars (of_chars l) = l.
Proof. apply list_ascii_of_string_of_list_ascii. Qed.

Lemma reversed_reversed s : reversed (reversed s) = s.
Proof.
  unfold reversed. rewrite chars_of_chars, rev_involutive. apply of_chars_chars.
Qed.

Lemma chars_reversed s : chars (reversed s) = rev (chars s).
Proof. unfold reversed. apply chars_of_chars. Qed.

Lemma numeric_uint d : Forall numeric (chars (NilEmpty.string_of_uint d)).
Proof.
  induction d; simpl; constructor; try done;
    unfold numeric; rewrite !elem_of_cons; tauto.
Qed.

Lemma numeric_str n : Forall numeric (chars (str n)).
Proof.
  unfold str.
  assert (Hu : forall d, Forall numeric (chars (NilZero.string_of_uint d))).
  { intros d. destruct d; try apply (numeric_uint (_ _)).
    simpl. constructor; [|done]. unfold numeric. rewrite !elem_of_cons. tauto. }
  destruct (Z.to_int n) as [d|d]; simpl; [apply Hu|].
  constructor; [|apply Hu]. unfold numeric. rewrite !elem_of_cons. tauto.
Qed.

Lemma numeric_not (c : ascii) l :
  ¬ numeric c -> Forall numeric l -> c ∉ l.
Proof.
  intros Hc Hl Hin. rewrite Forall_forall in Hl. by apply Hc, Hl.
Qed.

Lemma underscore_not_numeric : ¬ numeric "_"%char.
Proof.
  unfold numeric. intros H.
  repeat (apply elem_of_cons in H as [H|H]; [discriminate H|]).
  by apply elem_of_nil in H.
Qed.

Lemma plus_not_numeric : ¬ numeric "+"%char.
Proof.
  unfold numeric. intros H.
  repeat (apply elem_of_cons in H as [H|H]; [discriminate H|]).
  by apply elem_of_nil in H.
Qed.

Lemma to_int_not_nil n : Z.to_int n <> Pos Nil /\ Z.to_int n <> Neg Nil.
Proof.
  destruct n as [|p|p]; simpl; split; try discriminate;
    intros [= E]; by apply (DecimalPos.Unsigned.to_uint_nonnil p).
Qed.

(** [int(str(n)) == n] *)
Lemma int_str n : int (str n) = Some n.
Proof.
  assert (E : NilZero.int_of_string (str n) = Some (Z.to_int n)).
  { destruct (to_int_not_nil n). by apply NilZero.isi. }
  unfold int. pose proof (numeric_str n) as Hn.
  destruct (str n) as [|c s'] eqn:Es.
  { rewrite E. simpl. by rewrite DecimalZ.of_to. }
  destruct (decide (c = "+"%char)) as [->|Hc].
  { simpl in Hn. apply Forall_cons in Hn as [Hn _]. by destruct plus_not_numeric. }
  destruct c as [[] [] [] [] [] [] [] []], s';
    first [ done | rewrite E; simpl; by rewrite DecimalZ.of_to ].
Qed.

Lemma str_inj n m : str n = str m -> n = m.
Proof.
  intros E. assert (Some n = Some m) as [= ->]; [|done].
  by rewrite <- !int_str, E.
Qed.

Lemma break_at_app sep l1 l2 :
  sep ∉ l1 -> break_at sep (l1 ++ sep :: l2) = (l1, Some l2).
Proof.
  induction l1 as [|c l1 IH]; simpl; intros Hin.
  - by rewrite decide_True.
  - rewrite not_elem_of_cons in Hin. destruct Hin as [Hc Hin].
    rewrite decide_False by done. by rewrite IH.
Qed.

Lemma last_field_none sep cur l :
  sep ∉ l -> last_field sep cur l = rev cur ++ l.
Proof.
  revert cur. induction l as [|c l IH]; simpl; intros cur Hin.
  - by rewrite app_nil_r.
  - rewrite not_elem_of_cons in Hin. destruct Hin as [Hc Hin].
    rewrite decide_False by done. rewrite IH by done.
    simpl. by rewrite <- app_assoc.
Qed.

Lemma last_field_app sep cur l1 l2 :
  sep ∉ l2 -> last_field sep cur (l1 ++ sep :: l2) = l2.
Proof.
  revert cur. induction l1 as [|c l1 IH]; simpl; intros cur Hin.
  - rewrite decide_True by done. by rewrite last_field_none.
  - destruct (decide (c = sep)); by rewrite IH.
Qed.

(** Taking a name apart at its last underscore, as the renaming loop does. *)
Lemma split1_reversed base n :
  split1 "_" (reversed (base +:+ "_" +:+ str n))
  = [reversed (str n); reversed base].
Proof.
  unfold split1. rewrite chars_reversed, !chars_app. simpl.
  rewrite rev_app_distr. simpl. rewrite <- app_assoc. simpl.
  rewrite break_at_app.
  - unfold reversed. done.
  - intros Hin.
    apply (numeric_not "_"%char (chars (str n)));
      [apply underscore_not_numeric | apply numeric_str |].
    apply list_elem_of_In, in_rev. by apply list_elem_of_In.
Qed.

Lemma split_last_placeholder n :
  split_last "_" ("_parameter_" +:+ str n) = str n.
Proof.
  unfold split_last.
  change (chars ("_parameter_" +:+ str n))
    with (chars "_parameter" ++ "_"%char :: chars (str n)).
  rewrite last_field_app; [apply of_chars_chars|].
  apply numeric_not; [apply underscore_not_numeric | apply numeric_str].
Qed.

Lemma slice_from_placeholder s : slice_from 11 ("_parameter_" +:+ s) = s.
Proof.
  unfold slice_from.
  change (drop 11 (chars ("_parameter_" +:+ s))) with (chars s).
  apply of_chars_chars.
Qed.

End PyStringFacts.

(** ** Placeholders and their renumbering *)

Lemma is_placeholder_prefix s : is_placeholder ("_parameter_" +:+ s) = true.
Proof. reflexivity. Qed.

Lemma read_map_placeholder i vals : read_map (placeholder i) vals = getitem vals i.
Proof.
  unfold placeholder.
  change (read_str ("_parameter_" +:+ PyString.str i) vals = getitem vals i).
  unfold read_str.
  rewrite is_placeholder_prefix, PyStringFacts.slice_from_placeholder,
    PyStringFacts.int_str.
  reflexivity.
Qed.

Lemma edit_map_indices_placeholder i indices :
  edit_map_indices (placeholder i) indices
  = new_index ← new_index_of indices i; OK (placeholder new_index).
Proof.
  unfold placeholder. cbn [edit_map_indices].
  rewrite is_placeholder_prefix, PyStringFacts.split_last_placeholder,
    PyStringFacts.int_str.
  reflexivity.
Qed.

Lemma new_index_of_cons first rest old_index :
  new_index_of (first :: rest) old_index
  = OK (if decide (old_index ∈ first :: rest) then first
        else if decide (old_index < first) then old_index
        else old_index - count_below rest old_index).
Proof.
  unfold new_index_of. destruct (decide (old_index ∈ first :: rest)) as [|Hin]; [done|].
  simpl. destruct (decide (old_index < first)) as [|Hlt]; [done|].
  f_equal. unfold count_below.
  assert (first < old_index).
  { rewrite not_elem_of_cons in Hin. lia. }
  rewrite filter_cons_True by done. simpl length. lia.
Qed.

Lemma comprehension_OK {A B} (f : A -> result B) (g : A -> B) l :
  Forall (fun x => f x = OK (g x)) l -> comprehension f l = OK (g <$> l).
Proof.
  induction 1 as [|x l E _ IH]; simpl; [done|]. by rewrite E, IH.
Qed.

(** C10, as a lemma on constants: map building returns a constant leaf as
    it is and registers nothing. *)
Lemma convert_constant_leaf mem v name self :
  constant_leaf v = true -> _convert_to_map mem v name self = (OK v, self).
Proof.
  by destruct v.
Qed.

(** C10 (amended).  A fixed constant leaf other than a string that begins
    with [_parameter_] is its own map, and reading that map returns the
    leaf itself, whatever the values vector. *)
Theorem constant_leaf_read_verbatim mem v name self parameter_values :
  constant_leaf v = true ->
  (forall s, v = PyStr s -> is_placeholder s = false) ->
  exists map_entry,
    _convert_to_map mem v name self = (OK map_entry, self) /\
    read_map map_entry parameter_values = OK v.
Proof.
  intros Hleaf Hstr. exists v. split; [by apply convert_constant_leaf|].
  destruct v; try done. simpl. unfold read_str. by rewrite (Hstr s).
Qed.

Lemma constant_leaf_read_verbatim_witness :
  exists map_entry,
    _convert_to_map uniform_heap (PyStr "radius") "r" five_model
      = (OK map_entry, five_model) /\
    read_map map_entry [PyNum 3] = OK (PyStr "radius").
Proof.
  apply (constant_leaf_read_verbatim uniform_heap (PyStr "radius")); [reflexivity|].
  intros s [= <-]. reflexivity.
Defined.

(** C10 (as stated) fails on the constant string ["_parameter_0"]: it is its
    own map, and reading it returns the first value of the vector. *)
Lemma constant_leaf_placeholder_string :
  constant_leaf (PyStr "_parameter_0") = true /\
  _convert_to_map uniform_heap (PyStr "_parameter_0") "" blank
    = (OK (PyStr "_parameter_0"), blank) /\
  read_map (PyStr "_parameter_0") [PyNum 7] = OK (PyNum 7) /\
  ~ (forall v parameter_values map_entry self,
       constant_leaf v = true ->
       _convert_to_map uniform_heap v "" blank = (OK map_entry, self) ->
       read_map map_entry parameter_values = OK v).
Proof.
  split; [reflexivity|]. split; [reflexivity|]. split; [reflexivity|].
  intros H.
  specialize (H (PyStr "_parameter_0") [PyNum 7] (PyStr "_parameter_0") blank
                eq_refl eq_refl).
  discriminate H.
Qed.


(** [edit_map_indices] rewrites a map the way the Tie Editor of the
    specification does, with the renumbering of the tied indices. *)
Lemma edit_map_indices_retarget n lowest others map_entry :
  slot_map n map_entry = true ->
  edit_map_indices map_entry (lowest :: others)
  = OK (retarget (renumbering lowest others) map_entry).
Proof.
  induction map_entry as [| | | s | | items IH | | | | | |] using pyobj_induction;
    try done.
  - simpl. destruct (is_placeholder s) eqn:Hs; [|done].
    destruct (PyString.int (PyString.slice_from 11 s)) as [i|] eqn:Hi; [|done].
    intros [Hrange ->]%bool_decide_eq_true.
    rewrite PyStringFacts.split_last_placeholder, PyStringFacts.int_str. simpl.
    by rewrite new_index_of_cons.
  - simpl. intros Hall. rewrite forallb_forall in Hall.
    rewrite (comprehension_OK _ (retarget (renumbering lowest others))); [done|].
    rewrite Forall_forall in IH |- *. intros x Hx. apply IH; [done|].
    apply Hall. by apply list_elem_of_In.
Qed.

(** Two renumberings that agree on the slots of the registry rewrite its
    maps alike. *)
Lemma retarget_ext n f g map_entry :
  slot_map n map_entry = true ->
  (forall i, 0 <= i < n -> f i = g i) ->
  retarget f map_entry = retarget g map_entry.
Proof.
  intros Hmap Hfg.
  induction map_entry as [| | | s | | items IH | | | | | |] using pyobj_induction;
    try done.
  - simpl in *. destruct (is_placeholder s); [|done].
    destruct (PyString.int (PyString.slice_from 11 s)) as [i|]; [|done].
    apply bool_decide_eq_true in Hmap as [Hrange _]. by rewrite Hfg.
  - simpl in *. rewrite forallb_forall in Hmap. f_equal.
    apply list_fmap_ext. intros i item Hitem%list_elem_of_lookup_2.
    rewrite Forall_forall in IH. apply IH; [done|].
    apply Hmap. by apply list_elem_of_In.
Qed.



(** ** The registry: [_check_for_ties] *)

Section list_index_facts.
Context `{EqDecision A}.
Implicit Types (x : A) (l : list A).

Lemma list_index_None x l : x ∉ l -> list_index x l = None.
Proof.
  induction l as [|y l IH]; simpl; [done|]. rewrite not_elem_of_cons.
  intros [Hne Hin]. rewrite decide_False by done. by rewrite IH.
Qed.

Lemma list_index_Some x l i : list_index x l = Some i -> l !! i = Some x.
Proof.
  revert i. induction l as [|y l IH]; simpl; intros i; [done|].
  destruct (decide (y = x)) as [->|]; [by intros [= <-]|].
  destruct (list_index x l) as [j|]; [|done]. intros [= <-]. by apply IH.
Qed.

Lemma list_index_elem x l : x ∈ l -> exists i, list_index x l = Some i.
Proof.
  induction l as [|y l IH]; simpl; [by intros ?%elem_of_nil|].
  intros Hin. destruct (decide (y = x)); [by eexists|].
  apply elem_of_cons in Hin as [->|Hin]; [done|].
  destruct (IH Hin) as [i ->]. by eexists.
Qed.

Lemma list_index_is_Some x l i : list_index x l = Some i -> x ∈ l.
Proof. intros H%list_index_Some. by eapply list_elem_of_lookup_2. Qed.

Lemma list_index_app_l x l k i :
  list_index x l = Some i -> list_index x (l ++ k) = Some i.
Proof.
  revert i. induction l as [|y l IH]; simpl; intros i; [done|].
  destruct (decide (y = x)); [done|].
  destruct (list_index x l) as [j|]; [|done]. intros [= <-]. by rewrite (IH j).
Qed.

Lemma list_index_app_new x l : x ∉ l -> list_index x (l ++ [x]) = Some (length l).
Proof.
  induction l as [|y l IH]; simpl; [by rewrite decide_True|].
  rewrite not_elem_of_cons. intros [Hne Hin].
  rewrite decide_False by done. by rewrite IH.
Qed.
End list_index_facts.

(** A prior that is not registered yet gets the next slot. *)
Lemma check_for_ties_new mem parameter name self :
  parameter ∉ _parameters self ->
  _check_for_ties mem parameter name self
  = match rename_loop (S (length (_parameter_names self))) (_parameter_names self)
            (first_candidate mem parameter name (_parameter_names self)) with
    | OK name' =>
        (OK (Z.of_nat (length (_parameters self))),
         mkModel (_parameters self ++ [parameter]) (_parameter_names self ++ [name'])
           (_maps self))
    | Raise e =>
        (Raise e, mkModel (_parameters self ++ [parameter]) (_parameter_names self)
                    (_maps self))
    end.
Proof.
  intros Hnew. unfold _check_for_ties, mbind, py_bind, get_parameters.
  rewrite (list_index_None _ _ Hnew).
  unfold set_parameters, get_parameter_names, lift, set_parameter_names, mret, py_ret,
    first_candidate.
  cbn [_parameters _parameter_names _maps].
  by destruct (rename_loop _ _ _).
Qed.

(** A prior that is registered already keeps its slot; the registry gains
    no slot, and the stored name may lose its prefix. *)
Lemma check_for_ties_tied mem parameter name self index stored :
  list_index parameter (_parameters self) = Some index ->
  _parameter_names self !! index = Some stored ->
  exists names',
    _check_for_ties mem parameter name self
    = (OK (Z.of_nat index), mkModel (_parameters self) names' (_maps self)) /\
    length names' = length (_parameter_names self).
Proof.
  intros Hidx Hname. unfold _check_for_ties, mbind, py_bind, get_parameters.
  rewrite Hidx. unfold get_parameter_names, lift. rewrite Hname. cbn [from_some].
  destruct (decide (_ ∈ _parameter_names self)).
  - exists (_parameter_names self). by destruct self.
  - eexists. split; [reflexivity|]. by rewrite length_insert.
Qed.

(** C9.  Three distinct unnamed priors registered in turn under the
    suggested name [x], in a registry that is empty at first, are stored
    under the names [x], [x_0] and [x_1], in that order. *)
Theorem three_unnamed_under_x mem r1 r2 r3 :
  r1 <> r2 -> r1 <> r3 -> r2 <> r3 ->
  prior_name (mem r1) = None ->
  prior_name (mem r2) = None ->
  prior_name (mem r3) = None ->
  exists self1 self2 self3,
    _check_for_ties mem r1 "x" blank = (OK 0, self1) /\
    _parameter_names self1 = ["x"] /\
    _check_for_ties mem r2 "x" self1 = (OK 1, self2) /\
    _parameter_names self2 = ["x"; "x_0"] /\
    _check_for_ties mem r3 "x" self2 = (OK 2, self3) /\
    _parameter_names self3 = ["x"; "x_0"; "x_1"] /\
    _parameters self3 = [r1; r2; r3].
Proof.
  intros H12 H13 H23 N1 N2 N3.
  exists (mkModel [r1] ["x"] []), (mkModel [r1; r2] ["x"; "x_0"] []),
    (mkModel [r1; r2; r3] ["x"; "x_0"; "x_1"] []).
  repeat split.
  - rewrite check_for_ties_new by (simpl; apply not_elem_of_nil).
    unfold first_candidate. rewrite N1. reflexivity.
  - rewrite check_for_ties_new
      by (simpl; rewrite !elem_of_cons, elem_of_nil; intuition congruence).
    unfold first_candidate. rewrite N2. reflexivity.
  - rewrite check_for_ties_new
      by (simpl; rewrite !elem_of_cons, elem_of_nil; intuition congruence).
    unfold first_candidate. rewrite N3. reflexivity.
Qed.

Lemma three_unnamed_under_x_witness :
  exists self1 self2 self3,
    _check_for_ties uniform_heap 1%N "x" blank = (OK 0, self1) /\
    _parameter_names self1 = ["x"] /\
    _check_for_ties uniform_heap 2%N "x" self1 = (OK 1, self2) /\
    _parameter_names self2 = ["x"; "x_0"] /\
    _check_for_ties uniform_heap 3%N "x" self2 = (OK 2, self3) /\
    _parameter_names self3 = ["x"; "x_0"; "x_1"] /\
    _parameters self3 = [1%N; 2%N; 3%N].
Proof. by apply (three_unnamed_under_x uniform_heap 1%N 2%N 3%N). Defined.

(** *** The renaming loop stops *)

Lemma rename_loop_steps rounds names base n :
  (exists j : nat,
      (j <= rounds)%nat /\
      rename_loop rounds names (base +:+ "_" +:+ PyString.str n)
      = OK (base +:+ "_" +:+ PyString.str (n + Z.of_nat j)) /\
      base +:+ "_" +:+ PyString.str (n + Z.of_nat j) ∉ names) \/
  (rename_loop rounds names (base +:+ "_" +:+ PyString.str n) = Raise Diverges /\
   forall i : nat, (i <= rounds)%nat ->
     base +:+ "_" +:+ PyString.str (n + Z.of_nat i) ∈ names).
Proof.
  revert n. induction rounds as [|rounds IH]; intros n.
  - simpl. destruct (decide (_ ∈ names)) as [Hin|Hout].
    + right. split; [done|]. intros i Hi. replace i with 0%nat by lia.
      by rewrite Z.add_0_r.
    + left. exists 0%nat. rewrite Z.add_0_r. by repeat split.
  - cbn [rename_loop]. destruct (decide (_ ∈ names)) as [Hin|Hout].
    + rewrite PyStringFacts.split1_reversed, !PyStringFacts.reversed_reversed,
        PyStringFacts.int_str.
      cbn [from_some mbind result_bind].
      destruct (IH (n + 1)) as [(j & Hj & Hrun & Hout)|[Hrun Hall]].
      * left. exists (S j). replace (n + Z.of_nat (S j)) with (n + 1 + Z.of_nat j) by lia.
        split; [lia|]. by split.
      * right. split; [done|]. intros [|i] Hi; [by rewrite Z.add_0_r|].
        replace (n + Z.of_nat (S i)) with (n + 1 + Z.of_nat i) by lia.
        apply Hall. lia.
    + left. exists 0%nat. rewrite Z.add_0_r. split; [lia|]. by split.
Qed.

(** No list holds more distinct names than it has entries, so the loop
    finds a free name within [length names + 1] rounds. *)
Lemma rename_loop_total names name :
  exists name',
    rename_loop (S (length names)) names
      (if decide (name ∈ names) then name +:+ "_0" else name) = OK name' /\
    name' ∉ names.
Proof.
  destruct (decide (name ∈ names)) as [Hin|Hout].
  - change (name +:+ "_0") with (name +:+ "_" +:+ PyString.str 0).
    destruct (rename_loop_steps (S (length names)) names name 0)
      as [(j & _ & Hrun & Hfree)|[_ Hall]]; [by eauto|].
    exfalso.
    set (tried := (fun i : nat => name +:+ "_" +:+ PyString.str (0 + Z.of_nat i))
                    <$> seq 0 (S (length names))).
    assert (NoDup tried) as Hnodup.
    { apply NoDup_fmap_2; [|apply NoDup_seq].
      intros i j E. apply (inj (String.app name)), (inj (String.app "_")) in E.
      apply PyStringFacts.str_inj in E. lia. }
    assert (tried ⊆+ names) as Hsub.
    { apply NoDup_submseteq; [done|]. intros x (i & -> & Hi)%list_elem_of_fmap.
      apply Hall. apply elem_of_seq in Hi. lia. }
    apply submseteq_length in Hsub. unfold tried in Hsub.
    rewrite length_fmap, length_seq in Hsub. lia.
  - exists name. split; [|done]. simpl. by rewrite decide_False.
Qed.

(** *** Names stay distinct *)

Lemma rename_loop_fresh rounds names name name' :
  rename_loop rounds names name = OK name' -> name' ∉ names.
Proof.
  revert name. induction rounds as [|rounds IH]; intros name; cbn [rename_loop];
    destruct (decide (name ∈ names)) as [Hin|Hout]; try done; try by intros [= <-].
  destruct (PyString.split1 _ _) as [|counter [|reversename [|]]]; try done.
  destruct (PyString.int _); [|done]. apply IH.
Qed.

Lemma elem_of_insert_inv {A} (l : list A) i x z :
  z ∈ <[i:=x]> l -> z = x \/ z ∈ l.
Proof.
  revert i. induction l as [|y l IH]; intros [|i]; simpl; rewrite ?elem_of_cons;
    try tauto.
  intros [->|Hz]; [tauto|]. destruct (IH _ Hz); tauto.
Qed.

Lemma NoDup_insert_fresh {A} (l : list A) i x :
  NoDup l -> x ∉ l -> NoDup (<[i:=x]> l).
Proof.
  intros Hnodup. revert i. induction Hnodup as [|y l Hy Hnodup IH]; intros i Hx;
    [destruct i; apply NoDup_nil_2|].
  apply not_elem_of_cons in Hx as [Hne Hx]. destruct i as [|i]; simpl.
  - by constructor.
  - constructor; [|by apply IH].
    intros [->|Hin]%elem_of_insert_inv; done.
Qed.

(** [_check_for_ties] keeps the names distinct, whether it returns or not. *)
Lemma check_for_ties_names_distinct mem parameter name self outcome self' :
  NoDup (_parameter_names self) ->
  _check_for_ties mem parameter name self = (outcome, self') ->
  NoDup (_parameter_names self').
Proof.
  intros Hnodup.
  destruct (list_index parameter (_parameters self)) as [index|] eqn:Hidx.
  - unfold _check_for_ties, mbind, py_bind, get_parameters, get_parameter_names, lift.
    rewrite Hidx.
    destruct (_parameter_names self !! index) as [stored|]; cbn [from_some];
      [|by intros [= <- <-]].
    destruct (decide (_ ∈ _parameter_names self)) as [|Hfresh].
    + by intros [= <- <-].
    + intros [= <- <-]. simpl. by apply NoDup_insert_fresh.
  - assert (parameter ∉ _parameters self) as Hnew.
    { intros [i Hi]%list_index_elem. congruence. }
    rewrite (check_for_ties_new _ _ _ _ Hnew).
    destruct (rename_loop _ _ _) as [name'|e] eqn:Hloop; intros [= <- <-]; simpl;
      [|done].
    apply rename_loop_fresh in Hloop. apply NoDup_app. split; [done|].
    split; [|apply NoDup_singleton].
    intros x Hx ->%list_elem_of_singleton. done.
Qed.

(** Registering a prior never raises as long as the registry holds one
    name for every slot: the slot index returned is the position of the
    prior in the registry afterwards, slots are only ever appended, and
    the names stay as many as the slots. *)
Lemma check_for_ties_total mem parameter name self :
  length (_parameters self) = length (_parameter_names self) ->
  exists (index : nat) self',
    _check_for_ties mem parameter name self = (OK (Z.of_nat index), self') /\
    list_index parameter (_parameters self') = Some index /\
    length (_parameters self') = length (_parameter_names self') /\
    _maps self' = _maps self /\
    ((list_index parameter (_parameters self) = Some index /\
      _parameters self' = _parameters self) \/
     ((parameter ∉ _parameters self) /\ index = length (_parameters self) /\
      _parameters self' = _parameters self ++ [parameter])).
Proof.
  intros Hlen.
  destruct (list_index parameter (_parameters self)) as [index|] eqn:Hidx.
  - destruct (lookup_lt_is_Some_2 (_parameter_names self) index) as [stored Hstored].
    { rewrite <- Hlen. eapply lookup_lt_Some. by apply list_index_Some. }
    destruct (check_for_ties_tied mem parameter name self index stored Hidx Hstored)
      as (names' & -> & Hlen').
    exists index. eexists. split; [reflexivity|]. simpl.
    repeat split; [done|congruence|]. by left.
  - assert (parameter ∉ _parameters self) as Hnew.
    { intros [i Hi]%list_index_elem. congruence. }
    rewrite (check_for_ties_new _ _ _ _ Hnew).
    unfold first_candidate.
    destruct (rename_loop_total (_parameter_names self)
                (default name (prior_name (mem parameter)))) as (name' & -> & _).
    exists (length (_parameters self)). eexists. split; [reflexivity|]. simpl.
    split; [by apply list_index_app_new|].
    split; [rewrite !length_app; simpl; lia|]. split; [done|]. by right.
Qed.

(** C2.  Registration goes by the identity of the prior and not by its
    value.  In a registry that holds one name for every slot, two distinct
    prior objects, whatever their values and under any suggested names,
    are given two different slot indices, and each of them is the prior
    that the registry holds at its index.  A prior that the registry did
    not hold is appended: its index is the former number of slots.
    Registering the first object once more returns the index it has and
    appends no slot: the priors are as they were, and their names are as
    many. *)
Theorem registration_by_identity mem self r1 r2 name1 name2 name3 :
  length (_parameters self) = length (_parameter_names self) ->
  r1 <> r2 ->
  exists (i1 i2 : nat) self1 self2 self3,
    _check_for_ties mem r1 name1 self = (OK (Z.of_nat i1), self1) /\
    _check_for_ties mem r2 name2 self1 = (OK (Z.of_nat i2), self2) /\
    i1 <> i2 /\
    _parameters self1 !! i1 = Some r1 /\
    _parameters self2 !! i1 = Some r1 /\
    _parameters self2 !! i2 = Some r2 /\
    (if decide (r1 ∈ _parameters self) then _parameters self1 = _parameters self
     else i1 = length (_parameters self) /\
          _parameters self1 = _parameters self ++ [r1]) /\
    (if decide (r2 ∈ _parameters self1) then _parameters self2 = _parameters self1
     else i2 = length (_parameters self1) /\
          _parameters self2 = _parameters self1 ++ [r2]) /\
    _check_for_ties mem r1 name3 self2 = (OK (Z.of_nat i1), self3) /\
    _parameters self3 = _parameters self2 /\
    length (_parameter_names self3) = length (_parameter_names self2).
Proof.
  intros Hlen Hne.
  destruct (check_for_ties_total mem r1 name1 self Hlen)
    as (i1 & self1 & Hrun1 & Hidx1 & Hlen1 & _ & Hgrow1).
  destruct (check_for_ties_total mem r2 name2 self1 Hlen1)
    as (i2 & self2 & Hrun2 & Hidx2 & Hlen2 & _ & Hgrow2).
  assert (list_index r1 (_parameters self2) = Some i1) as Hidx1'.
  { destruct Hgrow2 as [[_ ->]|(_ & _ & ->)]; [done|]. by apply list_index_app_l. }
  destruct (check_for_ties_total mem r1 name3 self2 Hlen2)
    as (i3 & self3 & Hrun3 & _ & Hlen3 & _ & Hgrow3).
  assert (i3 = i1 /\ _parameters self3 = _parameters self2) as [-> Hsame].
  { destruct Hgrow3 as [[Hi ->]|(Hnew & _ & _)]; [split; congruence|].
    destruct Hnew. by eapply list_index_is_Some. }
  exists i1, i2, self1, self2, self3.
  split; [done|]. split; [done|]. split.
  { intros ->. apply list_index_Some in Hidx1', Hidx2. congruence. }
  split; [by apply list_index_Some|]. split; [by apply list_index_Some|].
  split; [by apply list_index_Some|]. split.
  { destruct (decide (r1 ∈ _parameters self)) as [Hin|Hout].
    - destruct Hgrow1 as [[_ Hsame1]|(Hnew & _ & _)]; done.
    - destruct Hgrow1 as [[Hold _]|(_ & Hi & Hgrown)]; [|done].
      destruct Hout. by eapply list_index_is_Some. }
  split.
  { destruct (decide (r2 ∈ _parameters self1)) as [Hin|Hout].
    - destruct Hgrow2 as [[_ Hsame2]|(Hnew & _ & _)]; done.
    - destruct Hgrow2 as [[Hold _]|(_ & Hi & Hgrown)]; [|done].
      destruct Hout. by eapply list_index_is_Some. }
  split; [done|]. split; [done|]. rewrite <- Hlen3, <- Hlen2. by rewrite Hsame.
Qed.

Lemma registration_by_identity_witness :
  uniform_heap 6%N = uniform_heap 7%N /\
  exists (i1 i2 : nat) self1 self2 self3,
    _check_for_ties uniform_heap 6%N "r" five_model = (OK (Z.of_nat i1), self1) /\
    _check_for_ties uniform_heap 7%N "r" self1 = (OK (Z.of_nat i2), self2) /\
    i1 <> i2 /\
    _parameters self1 !! i1 = Some 6%N /\
    _parameters self2 !! i1 = Some 6%N /\
    _parameters self2 !! i2 = Some 7%N /\
    (if decide (6%N ∈ _parameters five_model)
     then _parameters self1 = _parameters five_model
     else i1 = length (_parameters five_model) /\
          _parameters self1 = _parameters five_model ++ [6%N]) /\
    (if decide (7%N ∈ _parameters self1) then _parameters self2 = _parameters self1
     else i2 = length (_parameters self1) /\
          _parameters self2 = _parameters self1 ++ [7%N]) /\
    _check_for_ties uniform_heap 6%N "n" self2 = (OK (Z.of_nat i1), self3) /\
    _parameters self3 = _parameters self2 /\
    length (_parameter_names self3) = length (_parameter_names self2).
Proof.
  split; [reflexivity|].
  apply (registration_by_identity uniform_heap five_model 6%N 7%N "r" "r" "n");
    [reflexivity | discriminate].
Defined.

(** ** Ties: [add_tie] *)

(** Decidable facts about given lists and names, by evaluation. *)
Ltac by_evaluation := apply (bool_decide_unpack _); vm_compute; exact I.

(** Building the five-parameter model. *)
Lemma five_model_built :
  Model_init uniform_heap five_parameters plain_optics blank = (OK tt, five_model).
Proof. vm_compute. reflexivity. Qed.

(** C3.  When the sorted, duplicate-free indices [lowest :: others] are
    tied, [lowest] is their minimum and [edit_map_indices] rewrites every
    reference of a map, from [old_index] to [renumbering lowest others
    old_index]: to [lowest] when [old_index] is one of the tied indices;
    unchanged when it is an untouched index below [lowest]; and otherwise
    lowered by the number of removed indices [others] that lie below it.  On
    the slots [a, b, c, d, e], tying [b] and [d] under the new name [bd]
    leaves the four slots [a, bd, c, e]. *)
Theorem tie_renumbering lowest others :
  StronglySorted Z.lt (lowest :: others) ->
  (forall i, i ∈ lowest :: others -> lowest <= i) /\
  (forall n map_entry,
     slot_map n map_entry = true ->
     edit_map_indices map_entry (lowest :: others)
     = OK (retarget (renumbering lowest others) map_entry)) /\
  (forall old_index,
     edit_map_indices (placeholder old_index) (lowest :: others)
     = OK (placeholder (renumbering lowest others old_index)) /\
     (old_index ∈ lowest :: others -> renumbering lowest others old_index = lowest) /\
     (old_index ∉ lowest :: others -> old_index < lowest ->
      renumbering lowest others old_index = old_index) /\
     (old_index ∉ lowest :: others -> lowest < old_index ->
      renumbering lowest others old_index
      = old_index - Z.of_nat (length (filter (fun i => i < old_index) others)))) /\
  exists self',
    add_tie uniform_heap ["b"; "d"] (Some "bd") five_model = (OK tt, self') /\
    _parameter_names self' = ["a"; "bd"; "c"; "e"] /\
    length (_parameters self') = 4%nat.
Proof.
  intros Hsorted. split; [|split; [|split]].
  - apply StronglySorted_inv in Hsorted as [_ Hall].
    rewrite Forall_forall in Hall.
    intros i [->|Hi]%elem_of_cons; [lia|]. specialize (Hall i Hi). lia.
  - intros n map_entry. apply edit_map_indices_retarget.
  - intros old_index. unfold renumbering. split; [|split; [|split]].
    + by rewrite edit_map_indices_placeholder, new_index_of_cons.
    + intros Hin. by rewrite decide_True.
    + intros Hout Hlt. by rewrite decide_False, decide_True.
    + intros Hout Hlt. rewrite decide_False, decide_False by (done || lia). done.
  - eexists. split; [vm_compute; reflexivity|]. split; reflexivity.
Qed.

Lemma tie_renumbering_witness :
  edit_map_indices (placeholder 4) [1; 3] = OK (placeholder 3) /\
  renumbering 1 [3] 2 = 2.
Proof.
  destruct (tie_renumbering 1 [3]) as (_ & _ & Hslots & _).
  { repeat constructor; lia. }
  split.
  - apply (Hslots 4).
  - apply (Hslots 2); [by_evaluation | lia].
Defined.

(** *** Dictionaries *)

Section dict_facts.
Context {K V : Type} `{EqDecision K}.
Implicit Types (d : list (K * V)) (k : K) (v : V).

Lemma dict_set_keys d k v k' :
  k' ∈ (dict_set d k v).*1 <-> k' = k \/ k' ∈ d.*1.
Proof.
  induction d as [|[k0 v0] d IH]; simpl.
  - rewrite elem_of_cons, elem_of_nil. tauto.
  - destruct (decide (k0 = k)) as [->|Hne]; simpl.
    + rewrite !elem_of_cons. tauto.
    + rewrite !elem_of_cons, IH. tauto.
Qed.

Lemma dict_of_keys (pairs : list (K * V)) k : k ∈ (dict_of pairs).*1 <-> k ∈ pairs.*1.
Proof.
  unfold dict_of.
  assert (forall d, k ∈ (foldl (fun d kv => dict_set d kv.1 kv.2) d pairs).*1
                    <-> k ∈ d.*1 \/ k ∈ pairs.*1) as Hgen.
  { induction pairs as [|[k0 v0] pairs IH]; intros d; simpl.
    - rewrite elem_of_nil. tauto.
    - rewrite IH, dict_set_keys, elem_of_cons. tauto. }
  rewrite Hgen. simpl. rewrite elem_of_nil. tauto.
Qed.

Lemma dict_get_is_Some d k : k ∈ d.*1 -> is_Some (dict_get d k).
Proof.
  induction d as [|[k0 v0] d IH]; simpl; [by intros ?%elem_of_nil|].
  destruct (decide (k0 = k)); [by eexists|].
  rewrite elem_of_cons. intros [?|?]; [congruence|by apply IH].
Qed.

Lemma dict_set_fresh d k v : k ∉ d.*1 -> dict_set d k v = d ++ [(k, v)].
Proof.
  induction d as [|[k0 v0] d IH]; simpl; [done|].
  rewrite not_elem_of_cons. intros [Hne Hout].
  rewrite decide_False by done. by rewrite IH.
Qed.

(** Building a dictionary from pairs with distinct keys keeps the pairs. *)
Lemma dict_of_NoDup (pairs : list (K * V)) : NoDup pairs.*1 -> dict_of pairs = pairs.
Proof.
  unfold dict_of.
  assert (forall d, NoDup (d ++ pairs).*1 ->
            foldl (fun d kv => dict_set d kv.1 kv.2) d pairs = d ++ pairs) as Hgen.
  { induction pairs as [|[k0 v0] pairs IH]; intros d Hnd; simpl.
    - by rewrite app_nil_r.
    - rewrite dict_set_fresh.
      + rewrite IH; rewrite <- app_assoc; done.
      + rewrite fmap_app in Hnd. apply NoDup_app in Hnd as (_ & Hdis & _).
        intros Hin. apply (Hdis k0 Hin). simpl. apply elem_of_cons. by left. }
  intros Hnd. by apply (Hgen []).
Qed.
End dict_facts.

(** In a registry with as many slots as names, every name is a key of
    [self.parameters]. *)
Lemma parameters_getitem_present self par :
  length (_parameters self) = length (_parameter_names self) ->
  par ∈ _parameter_names self ->
  exists r, dict_get (parameters self) par = Some r.
Proof.
  intros Hlen Hin. apply dict_get_is_Some, dict_of_keys.
  rewrite fst_zip by lia. done.
Qed.

(** *** The validation loop of [add_tie] *)

Section validation.
Variable mem : heap.
Variable self : Model.
Variable parameters_to_tie : list string.
Local Abbreviation names := (_parameter_names self).
Local Abbreviation value := (referenced_value mem self).

Lemma add_tie_indices_absent par todo indices :
  par ∉ names ->
  add_tie_indices mem parameters_to_tie (par :: todo) indices self
  = (Raise (ValueError (CannotTieAbsent par names)), self).
Proof.
  intros Hout. cbn [add_tie_indices]. unfold mbind, py_bind, get_parameter_names.
  by rewrite decide_False.
Qed.

Variable first : string.
Hypothesis registry_aligned : length (_parameters self) = length names.
Hypothesis first_name : getitem parameters_to_tie 0 = OK first.
Hypothesis first_present : first ∈ names.

Lemma add_tie_indices_unequal par todo indices :
  par ∈ names ->
  value par <> value first ->
  add_tie_indices mem parameters_to_tie (par :: todo) indices self
  = (Raise (ValueError (CannotTieUnequal par first)), self).
Proof.
  intros Hin Hne. cbn [add_tie_indices]. unfold mbind, py_bind, get_parameter_names.
  rewrite decide_True by done. unfold lift. rewrite first_name.
  unfold referenced_value in Hne.
  destruct (parameters_getitem_present self first registry_aligned first_present)
    as [r1 Hr1].
  destruct (parameters_getitem_present self par registry_aligned Hin) as [r2 Hr2].
  unfold parameters_getitem. rewrite Hr1, Hr2 in *. simpl in *.
  rewrite decide_False; [done|congruence].
Qed.

Lemma add_tie_indices_equal par todo indices :
  par ∈ names ->
  value par = value first ->
  exists index,
    list_index par names = Some index /\
    add_tie_indices mem parameters_to_tie (par :: todo) indices self
    = add_tie_indices mem parameters_to_tie todo (indices ++ [index]) self.
Proof.
  intros Hin Heq. destruct (list_index_elem _ _ Hin) as [index Hindex].
  exists index. split; [done|].
  cbn [add_tie_indices]. unfold mbind, py_bind, get_parameter_names.
  rewrite decide_True by done. unfold lift. rewrite first_name.
  unfold referenced_value in Heq.
  destruct (parameters_getitem_present self first registry_aligned first_present)
    as [r1 Hr1].
  destruct (parameters_getitem_present self par registry_aligned Hin) as [r2 Hr2].
  unfold parameters_getitem. rewrite Hr1, Hr2 in *. simpl in *.
  rewrite decide_True by congruence. by rewrite Hindex.
Qed.

(** When all the names are present, the loop either collects one index
    for every name, all of them referring to priors equal to the first, or
    raises the unequal-tie error at a name whose prior differs. *)
Lemma add_tie_indices_present todo indices :
  (forall par, par ∈ todo -> par ∈ names) ->
  (Forall (fun par => value par = value first) todo /\
   exists indices',
     add_tie_indices mem parameters_to_tie todo indices self = (OK indices', self)) \/
  (exists par,
     par ∈ todo /\ value par <> value first /\
     add_tie_indices mem parameters_to_tie todo indices self
     = (Raise (ValueError (CannotTieUnequal par first)), self)).
Proof.
  revert indices. induction todo as [|par todo IH]; intros indices Hall.
  - left. split; [done|]. by eexists.
  - assert (par ∈ names) as Hin by (apply Hall; left).
    destruct (decide (value par = value first)) as [Heq|Hne].
    + destruct (add_tie_indices_equal par todo indices Hin Heq) as (index & _ & ->).
      destruct (IH (indices ++ [index])) as [[Hforall Hrun]|(q & Hq & Hne & Hrun)].
      * intros q Hq. apply Hall. by right.
      * left. split; [by constructor|done].
      * right. exists q. split; [by right|done].
    + right. exists par. split; [left|]. split; [done|].
      by apply add_tie_indices_unequal.
Qed.

(** When the name [par] is absent and the names before it are present,
    the loop raises before it returns: the not-present error for [par],
    or the unequal-tie error for an earlier name. *)
Lemma add_tie_indices_first_absent before par after indices :
  (forall q, q ∈ before -> q ∈ names) ->
  par ∉ names ->
  add_tie_indices mem parameters_to_tie (before ++ par :: after) indices self
  = (Raise (ValueError (CannotTieAbsent par names)), self) \/
  (exists q,
     q ∈ before /\ value q <> value first /\
     add_tie_indices mem parameters_to_tie (before ++ par :: after) indices self
     = (Raise (ValueError (CannotTieUnequal q first)), self)).
Proof.
  revert indices. induction before as [|q before IH]; intros indices Hall Hout.
  - left. by apply add_tie_indices_absent.
  - assert (q ∈ names) as Hin by (apply Hall; left).
    destruct (decide (value q = value first)) as [Heq|Hne].
    + change ((q :: before) ++ par :: after) with (q :: (before ++ par :: after)).
      destruct (add_tie_indices_equal q (before ++ par :: after) indices Hin Heq)
        as (index & _ & ->).
      destruct (IH (indices ++ [index])) as [Hrun|(q' & Hq' & Hne & Hrun)].
      * intros q' Hq'. apply Hall. by right.
      * done.
      * by left.
      * right. exists q'. split; [by right|done].
    + right. exists q. split; [left|]. split; [done|].
      by apply add_tie_indices_unequal.
Qed.
End validation.

(** The validation loop never writes to [self], and when it returns it has
    collected one index for every name. *)
Lemma add_tie_indices_reads_only mem tie todo indices self outcome self' :
  add_tie_indices mem tie todo indices self = (outcome, self') ->
  self' = self /\
  forall indices', outcome = OK indices' ->
    length indices' = (length indices + length todo)%nat.
Proof.
  revert indices. induction todo as [|par todo IH]; intros indices; cbn [add_tie_indices].
  - intros [= <- <-]. split; [done|]. intros ? [= <-]. simpl. lia.
  - unfold mbind, py_bind, get_parameter_names, lift, parameters_getitem, raise.
    destruct (decide (par ∈ _)); [|by intros [= <- <-]].
    destruct (getitem tie 0); [|by intros [= <- <-]].
    destruct (from_some _ (dict_get _ a)); [|by intros [= <- <-]].
    destruct (from_some _ (dict_get _ par)); [|by intros [= <- <-]].
    destruct (decide (_ = _)); [|by intros [= <- <-]].
    destruct (from_some _ (list_index _ _)); [|by intros [= <- <-]].
    intros [-> Hlen]%IH. split; [done|]. intros indices' ->%Hlen.
    rewrite length_app. simpl. lia.
Qed.

(** *** Rejected ties *)

Lemma add_tie_validation_raises mem tie new_name self e self' :
  add_tie_indices mem tie tie [] self = (Raise e, self') ->
  add_tie mem tie new_name self = (Raise e, self').
Proof. intros Hrun. unfold add_tie, mbind at 1, py_bind. by rewrite Hrun. Qed.

Lemma dict_get_zip {V} (names : list string) (values : list V) i name :
  NoDup names ->
  names !! i = Some name ->
  dict_get (zip names values) name = values !! i.
Proof.
  revert values i. induction names as [|first names IH]; intros values i Hdistinct;
    [done|].
  apply NoDup_cons in Hdistinct as [Hnew Hdistinct].
  destruct values as [|value values].
  { intros _. by destruct i. }
  destruct i as [|i]; cbn [zip zip_with dict_get].
  - intros [= ->]. by rewrite decide_True.
  - intros Hname. change ((first :: names) !! S i) with (names !! i) in Hname.
    change ((value :: values) !! S i) with (values !! i).
    rewrite decide_False.
    + by apply IH.
    + intros ->. apply Hnew. by eapply list_elem_of_lookup_2.
Qed.

Lemma parameters_distinct self :
  aligned self ->
  NoDup (_parameter_names self) ->
  parameters self = zip (_parameter_names self) (_parameters self).
Proof.
  intros Haligned Hdistinct. unfold parameters. apply dict_of_NoDup.
  rewrite fst_zip; [done|]. unfold aligned in Haligned. lia.
Qed.

Lemma first_failure {A} (P : A -> Prop) `{forall x, Decision (P x)} (l : list A) x :
  x ∈ l -> ~ P x ->
  exists before y after, l = before ++ y :: after /\ ~ P y /\ Forall P before.
Proof.
  induction l as [|z l IH]; [by intros ?%elem_of_nil|].
  intros Hin Hx. destruct (decide (P z)) as [Hz|Hz].
  - apply elem_of_cons in Hin as [->|Hin]; [done|].
    destruct (IH Hin Hx) as (before & y & after & -> & Hy & Hbefore).
    exists (z :: before), y, after. split; [done|]. split; [done|]. by constructor.
  - exists [], z, l. by repeat split.
Qed.

(** The validation loop passes the names that are present and refer to a
    prior equal to the first. *)
Lemma add_tie_indices_pass mem self tie first passed todo indices :
  length (_parameters self) = length (_parameter_names self) ->
  getitem tie 0 = OK first ->
  first ∈ _parameter_names self ->
  (forall q, q ∈ passed ->
     q ∈ _parameter_names self /\
     referenced_value mem self q = referenced_value mem self first) ->
  exists found,
    add_tie_indices mem tie (passed ++ todo) indices self
    = add_tie_indices mem tie todo (indices ++ found) self.
Proof.
  intros Haligned Hfirst Hin. revert indices.
  induction passed as [|q passed IH]; intros indices Hall.
  - exists []. by rewrite app_nil_r.
  - destruct (Hall q) as [Hq Hvalue]; [left|].
    destruct (add_tie_indices_equal mem self tie first Haligned Hfirst Hin
                q (passed ++ todo) indices Hq Hvalue) as (index & _ & Hstep).
    destruct (IH (indices ++ [index])) as (found & Hrest).
    { intros q' Hq'. apply Hall. by right. }
    exists (index :: found). cbn [app]. rewrite Hstep, Hrest. by rewrite <- app_assoc.
Qed.

(** The loop stops at the first name whose prior differs from the prior of
    the first name, and at the first name that is absent. *)
Lemma add_tie_stops_unequal mem self tie first passed par rest :
  length (_parameters self) = length (_parameter_names self) ->
  getitem tie 0 = OK first ->
  first ∈ _parameter_names self ->
  (forall q, q ∈ passed ->
     q ∈ _parameter_names self /\
     referenced_value mem self q = referenced_value mem self first) ->
  par ∈ _parameter_names self ->
  referenced_value mem self par <> referenced_value mem self first ->
  add_tie_indices mem tie (passed ++ par :: rest) [] self
  = (Raise (ValueError (CannotTieUnequal par first)), self).
Proof.
  intros Haligned Hfirst Hin Hpassed Hpar Hne.
  destruct (add_tie_indices_pass mem self tie first passed (par :: rest) []
              Haligned Hfirst Hin Hpassed) as (found & ->).
  by apply add_tie_indices_unequal.
Qed.

Lemma add_tie_stops_absent mem self tie first passed par rest :
  length (_parameters self) = length (_parameter_names self) ->
  getitem tie 0 = OK first ->
  first ∈ _parameter_names self ->
  (forall q, q ∈ passed ->
     q ∈ _parameter_names self /\
     referenced_value mem self q = referenced_value mem self first) ->
  par ∉ _parameter_names self ->
  add_tie_indices mem tie (passed ++ par :: rest) [] self
  = (Raise (ValueError (CannotTieAbsent par (_parameter_names self))), self).
Proof.
  intros Haligned Hfirst Hin Hpassed Hpar.
  destruct (add_tie_indices_pass mem self tie first passed (par :: rest) []
              Haligned Hfirst Hin Hpassed) as (found & ->).
  by apply add_tie_indices_absent.
Qed.





(** C6 (as stated) fails on the empty list: [add_tie] checks the names one
    by one and so accepts a list without names; on a model with a slot it
    then raises [IndexError], not the not-present error. *)
Lemma add_tie_empty_list :
  add_tie uniform_heap [] None five_model = (Raise IndexError, five_model) /\
  add_tie uniform_heap [] (Some "z") five_model = (Raise IndexError, five_model) /\
  ~ (forall parameters_to_tie new_name,
       parameters_to_tie = [] \/
       (exists par, par ∈ parameters_to_tie /\ par ∉ _parameter_names five_model) ->
       exists par names,
         add_tie uniform_heap parameters_to_tie new_name five_model
         = (Raise (ValueError (CannotTieAbsent par names)), five_model)).
Proof.
  split; [reflexivity|]. split; [reflexivity|].
  intros H. destruct (H [] None) as (par & names & Hrun); [by left|].
  vm_compute in Hrun. discriminate Hrun.
Qed.

(** C6 (amended).  In a registry with one name for every slot, when a name
    to tie is absent from the registry, [add_tie] raises [ValueError] and
    [self] is as before the call: its parameters, its names and its maps.
    Let [absent] be the first absent name of the list.  When every name
    before it has, in the dictionary [parameters], a prior equal to the
    prior of the first name, the error is the not-present error for
    [absent].  Otherwise it is the unequal-tie error, for the first name
    before [absent] whose prior differs and for the first name of the
    list. *)
Theorem add_tie_absent_rejected mem self parameters_to_tie new_name :
  length (_parameters self) = length (_parameter_names self) ->
  (exists par, par ∈ parameters_to_tie /\ par ∉ _parameter_names self) ->
  exists before absent after first,
    parameters_to_tie = before ++ absent :: after /\
    (forall q, q ∈ before -> q ∈ _parameter_names self) /\
    (absent ∉ _parameter_names self) /\
    head parameters_to_tie = Some first /\
    (((forall q, q ∈ before ->
         referenced_value mem self q = referenced_value mem self first) /\
      add_tie mem parameters_to_tie new_name self
      = (Raise (ValueError (CannotTieAbsent absent (_parameter_names self))), self)) \/
     (exists equal par rest,
        before = equal ++ par :: rest /\
        (forall q, q ∈ equal ->
           referenced_value mem self q = referenced_value mem self first) /\
        referenced_value mem self par <> referenced_value mem self first /\
        add_tie mem parameters_to_tie new_name self
        = (Raise (ValueError (CannotTieUnequal par first)), self))).
Proof.
  intros Hlen (x & Hin & Hout).
  destruct (first_failure (fun q => q ∈ _parameter_names self) _ _ Hin Hout)
    as (before & absent & after & Htie & Habsent & Hbefore).
  rewrite Forall_forall in Hbefore.
  destruct before as [|first before'] eqn:Hshape.
  - exists [], absent, after, absent.
    split; [done|]. split; [by intros q ?%elem_of_nil|]. split; [done|].
    split; [by rewrite Htie|]. left. split; [by intros q ?%elem_of_nil|].
    apply add_tie_validation_raises. rewrite Htie at 2.
    by apply add_tie_indices_absent.
  - rewrite <- Hshape in *.
    assert (getitem parameters_to_tie 0 = OK first) as Hfirst
      by by rewrite Htie, Hshape.
    assert (first ∈ _parameter_names self) as Hfirst_in
      by (apply Hbefore; rewrite Hshape; left).
    exists before, absent, after, first.
    split; [done|]. split; [done|]. split; [done|].
    split; [by rewrite Htie, Hshape|].
    set (same := fun q => referenced_value mem self q = referenced_value mem self first).
    destruct (decide (Forall same before)) as [Hall|Hsome].
    + left. rewrite Forall_forall in Hall. split; [done|].
      apply add_tie_validation_raises. rewrite Htie at 2.
      apply (add_tie_stops_absent mem self parameters_to_tie first); try done.
      intros q Hq. split; [by apply Hbefore|by apply Hall].
    + right. apply not_Forall_Exists in Hsome; [|apply _].
      apply Exists_exists in Hsome as (y & Hy & Hne).
      destruct (first_failure same before y Hy Hne)
        as (equal & par & rest & Hsplit & Hpar & Hequal).
      rewrite Forall_forall in Hequal.
      exists equal, par, rest. split; [done|]. split; [done|]. split; [done|].
      apply add_tie_validation_raises. rewrite Htie at 2. rewrite Hsplit.
      rewrite <- app_assoc. cbn [app].
      apply add_tie_stops_unequal; try done.
      * intros q Hq. split; [|by apply Hequal].
        apply Hbefore. rewrite Hsplit, elem_of_app. by left.
      * apply Hbefore. rewrite Hsplit, elem_of_app, elem_of_cons. tauto.
Qed.

Lemma add_tie_absent_rejected_witness :
  exists before absent after first,
    ["a"; "radius"] = before ++ absent :: after /\
    (forall q, q ∈ before -> q ∈ _parameter_names five_model) /\
    (absent ∉ _parameter_names five_model) /\
    head ["a"; "radius"] = Some first /\
    (((forall q, q ∈ before ->
         referenced_value uniform_heap five_model q
         = referenced_value uniform_heap five_model first) /\
      add_tie uniform_heap ["a"; "radius"] None five_model
      = (Raise (ValueError (CannotTieAbsent absent (_parameter_names five_model))),
         five_model)) \/
     (exists equal par rest,
        before = equal ++ par :: rest /\
        (forall q, q ∈ equal ->
           referenced_value uniform_heap five_model q
           = referenced_value uniform_heap five_model first) /\
        referenced_value uniform_heap five_model par
        <> referenced_value uniform_heap five_model first /\
        add_tie uniform_heap ["a"; "radius"] None five_model
        = (Raise (ValueError (CannotTieUnequal par first)), five_model))).
Proof.
  apply (add_tie_absent_rejected uniform_heap five_model ["a"; "radius"] None).
  - reflexivity.
  - exists "radius". split; by_evaluation.
Defined.

(** *** The slot count *)

Lemma del_slot_loop indices self outcome self' :
  for_in del_slot indices self = (outcome, self') ->
  _maps self' = _maps self /\
  (length (_parameters self') <= length (_parameters self))%nat /\
  (outcome = OK tt ->
   (length (_parameters self') + length indices = length (_parameters self))%nat /\
   (length (_parameter_names self') + length indices
    = length (_parameter_names self))%nat).
Proof.
  revert self. induction indices as [|index indices IH]; intros self; cbn [for_in].
  - intros [= <- <-]. split; [done|]. split; [done|]. intros _. simpl. lia.
  - unfold mbind at 1, py_bind, del_slot, mbind, py_bind, get_parameters, lift,
      set_parameters, get_parameter_names, set_parameter_names, delitem.
    cbn [_parameters _parameter_names _maps].
    destruct (decide (index < length (_parameters self))%nat) as [Hp|];
      [|by intros [= <- <-]].
    destruct (decide (index < length (_parameter_names self))%nat) as [Hn|].
    + intros (Hmaps & Hle & Hok)%IH. cbn [_parameters _parameter_names _maps] in *.
      rewrite length_delete in Hle, Hok by by apply lookup_lt_is_Some_2.
      rewrite length_delete in Hok by by apply lookup_lt_is_Some_2.
      split; [done|]. split; [lia|]. intros Houtcome. specialize (Hok Houtcome).
      simpl. lia.
    + intros [= <- <-]. cbn [_parameters _parameter_names _maps].
      rewrite length_delete by by apply lookup_lt_is_Some_2.
      split; [done|]. split; [lia|]. done.
Qed.

(** C8 (as stated) fails when a single name is tied: the call completes
    and the model keeps its five slots. *)
Lemma add_tie_single_name :
  add_tie uniform_heap ["a"] None five_model = (OK tt, five_model) /\
  ~ (forall parameters_to_tie new_name self',
       add_tie uniform_heap parameters_to_tie new_name five_model = (OK tt, self') ->
       (length (_parameters self') < length (_parameters five_model))%nat).
Proof.
  split; [vm_compute; reflexivity|].
  intros H. specialize (H ["a"] None five_model). vm_compute in H.
  specialize (H eq_refl). by apply Nat.lt_irrefl in H.
Qed.

(** C8 (amended).  No call of [add_tie] increases the number of slots,
    whether it completes or raises.  A call that completes removes one
    slot, and one name, for every name to tie beyond the first: the count
    drops strictly when two names or more are tied and stays as it is when
    a single name is tied. *)
Theorem add_tie_slot_count mem self parameters_to_tie new_name outcome self' :
  add_tie mem parameters_to_tie new_name self = (outcome, self') ->
  (length (_parameters self') <= length (_parameters self))%nat /\
  (outcome = OK tt ->
   (length (_parameters self') + (length parameters_to_tie - 1)
    = length (_parameters self))%nat /\
   (length (_parameter_names self') + (length parameters_to_tie - 1)
    = length (_parameter_names self))%nat).
Proof.
  unfold add_tie, mbind at 1, py_bind.
  destruct (add_tie_indices _ _ _ _ _) as [[indices|e] self0] eqn:Hvalid;
    apply add_tie_indices_reads_only in Hvalid as [-> Hcount];
    [|intros [= <- <-]; split; [lia|done]].
  specialize (Hcount indices eq_refl). simpl in Hcount.
  unfold mbind at 1, py_bind.
  destruct (for_in _ _ _) as [[[]|e] self1] eqn:Hdel;
    apply del_slot_loop in Hdel as (Hmaps & Hle & Hok);
    [|intros [= <- <-]; split; [lia|done]].
  destruct (Hok eq_refl) as [Hp Hn]. clear Hok.
  rewrite length_rev, length_drop, merge_sort_Permutation, Hcount in Hp, Hn.
  assert (forall self2 (outcome2 : result unit),
            length (_parameters self2) = length (_parameters self1) ->
            length (_parameter_names self2) = length (_parameter_names self1) ->
            (length (_parameters self2) <= length (_parameters self))%nat /\
            (outcome2 = OK tt ->
             (length (_parameters self2) + (length parameters_to_tie - 1)
              = length (_parameters self))%nat /\
             (length (_parameter_names self2) + (length parameters_to_tie - 1)
              = length (_parameter_names self))%nat)) as Hdone.
  { intros self2 outcome2 -> ->. split; [lia|]. intros _. lia. }
  unfold mbind, py_bind, lift, get_parameter_names, set_parameter_names, get_maps,
    set_maps, mret, py_ret, setitem.
  destruct new_name as [new_name|].
  - destruct (merge_sort Nat.le indices !! 0%nat) as [first|]; cbn [from_some];
      [|intros [= <- <-]; by apply Hdone].
    destruct (decide (first < length (_parameter_names self1))%nat);
      [|intros [= <- <-]; by apply Hdone].
    cbn [_maps]. destruct (comprehension _ _); intros [= <- <-]; apply Hdone;
      simpl; by rewrite ?length_insert.
  - destruct (comprehension _ _); intros [= <- <-]; by apply Hdone.
Qed.

Lemma add_tie_slot_count_witness :
  exists self',
    add_tie uniform_heap ["a"; "b"] (Some "ab") five_model = (OK tt, self') /\
    (length (_parameters self') <= length (_parameters five_model))%nat /\
    (OK tt = OK tt ->
     (length (_parameters self') + (length ["a"; "b"] - 1)
      = length (_parameters five_model))%nat /\
     (length (_parameter_names self') + (length ["a"; "b"] - 1)
      = length (_parameter_names five_model))%nat).
Proof.
  eexists. split; [vm_compute; reflexivity|].
  apply (add_tie_slot_count uniform_heap five_model ["a"; "b"] (Some "ab")).
  vm_compute. reflexivity.
Defined.

(** ** Building a map and reading it back *)

Lemma comprehension_Forall2 {A B} (f : A -> result B) l ys :
  Forall2 (fun x y => f x = OK y) l ys -> comprehension f l = OK ys.
Proof. induction 1 as [|x y l ys E _ IH]; simpl; [done|]. by rewrite E, IH. Qed.

(** The maps of a registry are maps of every larger registry. *)
Lemma slot_map_mono n n' map_entry :
  n <= n' -> slot_map n map_entry = true -> slot_map n' map_entry = true.
Proof.
  intros Hle.
  induction map_entry as [| | | s | | items IH | | | | | |] using pyobj_induction;
    try done; simpl.
  - destruct (is_placeholder s); [|done].
    destruct (PyString.int (PyString.slice_from 11 s)) as [i|]; [|done].
    rewrite !bool_decide_eq_true. intros [Hrange ->]. split; [lia|done].
  - rewrite !forallb_forall. intros Hall item Hitem.
    rewrite Forall_forall in IH. apply IH; [by apply list_elem_of_In|by apply Hall].
Qed.

Lemma slot_map_placeholder n i :
  0 <= i < n -> slot_map n (placeholder i) = true.
Proof.
  intros Hi. unfold placeholder. cbn [slot_map].
  rewrite is_placeholder_prefix, PyStringFacts.slice_from_placeholder,
    PyStringFacts.int_str.
  by apply bool_decide_eq_true.
Qed.

Lemma slot_map_key n k : key_ok k = true -> slot_map n (key_obj k) = true.
Proof. destruct k as [s|]; [|done]. simpl. by intros ->%negb_true_iff. Qed.

(** A list that does not start with a callable is read item by item. *)
Lemma read_map_items items vals :
  Forall (fun m => forall f, m <> PyFunc f) items ->
  read_map (PyList items) vals
  = PyList <$> comprehension (fun item => read_map item vals) items.
Proof.
  intros Hitems.
  destruct items as [|m [|args [|]]]; try done;
    apply Forall_cons in Hitems as [Hm _]; destruct m; try done; by destruct (Hm f).
Qed.

Lemma read_map_call f args vals :
  read_map (PyList [PyFunc f; PyList args]) vals
  = vs ← comprehension (fun arg => read_map arg vals) args; call f vs.
Proof. reflexivity. Qed.

Lemma read_key_obj k vals :
  key_ok k = true -> read_map (key_obj k) vals = OK (key_obj k).
Proof.
  destruct k as [s|n]; [|done]. simpl. unfold read_str.
  by intros ->%negb_true_iff.
Qed.

Lemma as_key_key_obj k : as_key (key_obj k) = OK k.
Proof. by destruct k. Qed.

Section round_trip.
Variable mem : heap.
(** The value that the parameter vector holds for each prior. *)
Variable slot : ref -> pyobj.
Hypothesis slot_value : forall r, scalar_or_prior (slot r) = true.

Local Abbreviation agrees := (agrees slot).
Local Abbreviation reads_back := (reads_back slot).
Local Abbreviation builds := (builds mem slot).

Lemma extends_refl self : aligned self -> extends self self.
Proof. by repeat split. Qed.

Lemma extends_trans self1 self2 self3 :
  extends self1 self2 -> extends self2 self3 -> extends self1 self3.
Proof.
  intros (_ & Hm1 & Hp1 & Hn1) (Ha & Hm2 & Hp2 & Hn2). split; [done|].
  split; [congruence|]. split; [by etrans|auto].
Qed.

Lemma agrees_extends self self' vals :
  extends self self' -> agrees self' vals -> agrees self vals.
Proof.
  intros (_ & _ & Hprefix & _) Hagree i r Hi. apply Hagree.
  by eapply prefix_lookup_Some.
Qed.

Lemma reads_back_extends c M self self' :
  extends self self' -> reads_back c M self -> reads_back c M self'.
Proof.
  intros Hext (Hread & Hnone & Hfunc & Hslots). split; [|split; [done|split; [done|]]].
  - intros vals Hagree. apply Hread. by eapply agrees_extends.
  - eapply slot_map_mono; [|done].
    destruct Hext as (_ & _ & Hprefix%prefix_length & _). lia.
Qed.

(** [_iterate_mapping]: the items are built from left to right, and all
    their maps read back in the final registry. *)
Lemma iterate_mapping_builds {A} (value : A -> pyobj) (namer : nat -> A -> string)
    (pairs : list A) :
  Forall (fun pair => builds (value pair)) pairs ->
  Forall (fun pair => supported (value pair) = true) pairs ->
  forall i self,
    aligned self ->
    exists Ms self',
      for_each_from (fun i pair => _convert_to_map mem (value pair) (namer i pair))
        i pairs self = (OK Ms, self') /\
      extends self self' /\
      Forall2 (fun pair M => reads_back (value pair) M self') pairs Ms.
Proof.
  induction 1 as [|pair pairs Hpair _ IH]; intros Hsupp i self Haligned.
  - exists [], self. split; [done|]. split; [by apply extends_refl|]. constructor.
  - apply Forall_cons in Hsupp as [Hs Hsupp].
    destruct (Hpair (namer i pair) self Haligned Hs) as (M & self1 & Hrun & Hext1 & Hback).
    destruct (IH Hsupp (S i) self1 (proj1 Hext1)) as (Ms & self2 & Hrest & Hext2 & Hbacks).
    exists (M :: Ms), self2. cbn [for_each_from]. unfold mbind at 1, py_bind.
    rewrite Hrun. unfold mbind at 1, py_bind. rewrite Hrest.
    split; [done|]. split; [by eapply extends_trans|].
    constructor; [by eapply reads_back_extends|done].
Qed.

(** Reading the maps of the items gives the items, substituted. *)
Lemma reads_back_items {A} (value : A -> pyobj) (pairs : list A) Ms self vals :
  Forall2 (fun pair M => reads_back (value pair) M self) pairs Ms ->
  agrees self vals ->
  comprehension (fun M => read_map M vals) Ms
  = OK ((fun pair => substitute slot (value pair)) <$> pairs) /\
  Forall (fun M => forall f, M <> PyFunc f) Ms.
Proof.
  intros Hbacks Hagree. split.
  - apply comprehension_Forall2. induction Hbacks as [|pair M pairs Ms Hb _ IH];
      [constructor|]. simpl. constructor; [|done]. by apply Hb.
  - induction Hbacks as [|pair M pairs Ms Hb _ IH]; constructor; [apply Hb|done].
Qed.

Lemma reads_back_slot_maps {A} (value : A -> pyobj) (pairs : list A) Ms self :
  Forall2 (fun pair M => reads_back (value pair) M self) pairs Ms ->
  forallb (slot_map (Z.of_nat (length (_parameters self)))) Ms = true.
Proof.
  induction 1 as [|pair M pairs Ms Hb _ IH]; [done|]. simpl.
  apply andb_true_iff. split; [apply Hb|done].
Qed.
End round_trip.

(** *** The cases of [_convert_to_map] *)

Lemma convert_sequence mem items name :
  _convert_to_map mem (PyList items) name
  = (mapped ← for_each_from
                (fun i item =>
                   _convert_to_map mem (id item)
                     ((name +:+ ".") +:+ PyString.str (Z.of_nat i)))
                0 items;
     mret (PyList mapped)) /\
  _convert_to_map mem (PyTuple items) name = _convert_to_map mem (PyList items) name /\
  _convert_to_map mem (PyArray items) name = _convert_to_map mem (PyList items) name.
Proof. done. Qed.

Lemma convert_dictionary mem items name :
  _convert_to_map mem (PyDict items) name
  = (values_map ← for_each_from
                    (fun _ kv =>
                       _convert_to_map mem kv.2
                         ((if decide (0 < String.length name)%nat
                           then name +:+ "." else "") +:+ key_str kv.1))
                    0 items;
     mret (PyList [PyFunc F_dict;
                   PyList [PyList ((fun kv => PyList [key_obj kv.1; kv.2])
                                     <$> filter (fun kv => ¬ is_None kv.2)
                                           (zip items.*1 values_map))]])).
Proof. done. Qed.

Lemma convert_xarray mem dim items name :
  _convert_to_map mem (PyXarray dim items) name
  = (values_map ← for_each_from
                    (fun _ kv =>
                       _convert_to_map mem kv.2 ((name +:+ ".") +:+ key_str kv.1))
                    0 items;
     mret (PyList [PyFunc F_make_xarray;
                   PyList [PyStr dim; PyList (key_obj <$> items.*1);
                           PyList values_map]])).
Proof. done. Qed.

Lemma convert_complex mem real imag name :
  _convert_to_map mem (PyComplexPrior real imag) name
  = (mapped ← for_each_from
                (fun _ (kv : string * pyobj) =>
                   _convert_to_map mem kv.2 ((name +:+ ".") +:+ kv.1))
                0 [("real", real); ("imag", imag)];
     mret (PyList [PyFunc F_make_complex; PyList mapped])).
Proof. done. Qed.

Lemma make_complex_parts real imag :
  scalar_or_prior real = true -> scalar_or_prior imag = true ->
  make_complex real imag = OK (complex_of real imag).
Proof. by destruct real, imag. Qed.

Lemma zip_fst_snd {A B C} (g : B -> C) (l : list (A * B)) :
  zip l.*1 ((fun kv => g kv.2) <$> l) = (fun kv => (kv.1, g kv.2)) <$> l.
Proof. induction l as [|[a b] l IH]; csimpl; [done|]. by f_equal. Qed.

Section build_cases.
Variable mem : heap.
Variable slot : ref -> pyobj.
Hypothesis slot_value : forall r, scalar_or_prior (slot r) = true.
Local Abbreviation builds := (builds mem slot).
Local Abbreviation reads_back := (reads_back slot).

Lemma builds_constant c :
  constant_leaf c = true -> builds c.
Proof.
  intros Hleaf name self Haligned Hsupp. exists c, self.
  split; [by apply convert_constant_leaf|]. split; [by apply extends_refl|].
  split; [|split; [done|split]].
  - intros vals _. destruct c; try done. simpl in *. unfold read_str.
    by apply negb_true_iff in Hsupp as ->.
  - intros f ->. done.
  - destruct c; try done. simpl in *. by apply negb_true_iff in Hsupp as ->.
Qed.

Lemma builds_prior r : builds (PyPrior r).
Proof.
  intros name self Haligned _.
  destruct (check_for_ties_total mem r name self Haligned)
    as (index & self' & Hrun & Hindex & Haligned' & Hmaps & Hgrow).
  exists (placeholder (Z.of_nat index)), self'. split; [|split].
  - cbn [_convert_to_map]. unfold mbind, py_bind. by rewrite Hrun.
  - split; [done|]. split; [done|]. split.
    + destruct Hgrow as [[_ ->]|(_ & _ & ->)]; [done|by apply prefix_app_r].
    + intros Hnodup. by eapply check_for_ties_names_distinct.
  - apply list_index_Some in Hindex.
    split; [|split; [done|split; [done|]]].
    + intros vals Hagree. rewrite read_map_placeholder.
      unfold getitem. rewrite decide_True by lia. rewrite Nat2Z.id.
      by rewrite (Hagree _ _ Hindex).
    + apply slot_map_placeholder. apply lookup_lt_Some in Hindex. lia.
Qed.

Lemma builds_sequence items :
  Forall builds items -> builds (PyList items) /\ builds (PyTuple items) /\ builds (PyArray items).
Proof.
  intros IH.
  assert (builds (PyList items)) as Hlist.
  { intros name self Haligned Hsupp.
    destruct (convert_sequence mem items name) as (-> & _ & _).
    destruct (iterate_mapping_builds mem slot id
                (fun i _ => (name +:+ ".") +:+ PyString.str (Z.of_nat i)) items)
      with (i := 0%nat) (self := self) as (Ms & self' & Hrun & Hext & Hbacks);
      [done| |done|].
    { apply Forall_forall. intros item Hitem. simpl in Hsupp.
      rewrite forallb_forall in Hsupp. apply Hsupp. by apply list_elem_of_In. }
    exists (PyList Ms), self'. unfold mbind, py_bind. rewrite Hrun.
    split; [done|]. split; [done|].
    split; [|split; [done|split; [done|by eapply (reads_back_slot_maps slot id)]]].
    intros vals Hagree.
    destruct (reads_back_items slot id items Ms self' vals Hbacks Hagree)
      as [Hread Hplain].
    rewrite read_map_items by done. by rewrite Hread. }
  split; [done|].
  split; intros name self Haligned Hsupp;
    destruct (convert_sequence mem items name) as (_ & Htuple & Harray);
    rewrite ?Htuple, ?Harray; by apply Hlist.
Qed.

Lemma builds_complex real imag :
  builds real -> builds imag -> builds (PyComplexPrior real imag).
Proof.
  intros IHreal IHimag name self Haligned Hsupp.
  simpl in Hsupp. apply andb_true_iff in Hsupp as [Hreal Himag].
  assert (forall c, scalar_or_prior c = true -> supported c = true) as Hpart
    by by intros [].
  rewrite convert_complex.
  destruct (iterate_mapping_builds mem slot snd
              (fun _ (kv : string * pyobj) => (name +:+ ".") +:+ kv.1)
              [("real", real); ("imag", imag)])
    with (i := 0%nat) (self := self) as (Ms & self' & Hrun & Hext & Hbacks);
    [by repeat constructor|repeat constructor; by apply Hpart|done|].
  exists (PyList [PyFunc F_make_complex; PyList Ms]), self'.
  unfold mbind, py_bind. rewrite Hrun. split; [done|]. split; [done|].
  split; [|split; [done|split; [done|]]];
    [|cbn [slot_map forallb];
      by rewrite (reads_back_slot_maps slot snd _ Ms self' Hbacks)].
  intros vals Hagree.
  destruct (reads_back_items slot snd _ Ms self' vals Hbacks Hagree) as [Hread _].
  rewrite read_map_call, Hread. simpl.
  apply make_complex_parts.
  - destruct real; try done. simpl. apply slot_value.
  - destruct imag; try done. simpl. apply slot_value.
Qed.
End build_cases.

Lemma comprehension_fmap {A B C} (f : B -> result C) (g : A -> B) l :
  comprehension f (g <$> l) = comprehension (fun x => f (g x)) l.
Proof. induction l as [|x l IH]; csimpl; [done|]. by rewrite IH. Qed.

Lemma as_pair_list k v : as_pair (PyList [key_obj k; v]) = OK (k, v).
Proof. simpl. by rewrite as_key_key_obj. Qed.

Section build_mappings.
Variable mem : heap.
Variable slot : ref -> pyobj.
Local Abbreviation builds := (builds mem slot).
Local Abbreviation reads_back := (reads_back slot).

(** The pairs that [_map_dictionary] stores, and what reading them gives. *)
Lemma dict_args_read (items : list (pykey * pyobj)) Ms self :
  Forall2 (fun kv M => reads_back kv.2 M self) items Ms ->
  Forall (fun kv => key_ok kv.1 = true /\ is_None kv.2 = false) items ->
  filter (fun kv => ¬ is_None kv.2) (zip items.*1 Ms) = zip items.*1 Ms /\
  forallb (slot_map (Z.of_nat (length (_parameters self))))
    ((fun kv => PyList [key_obj kv.1; kv.2]) <$> zip items.*1 Ms) = true /\
  forall vals,
    agrees slot self vals ->
    comprehension (fun item => read_map item vals)
      ((fun kv => PyList [key_obj kv.1; kv.2]) <$> zip items.*1 Ms)
    = OK ((fun kv => PyList [key_obj kv.1; substitute slot kv.2]) <$> items).
Proof.
  induction 1 as [|[k v] M items Ms Hb _ IH]; intros Hok.
  - done.
  - apply Forall_cons in Hok as [[Hkey Hnone] Hok].
    destruct (IH Hok) as (IHf & IHs & IHr).
    destruct Hb as (Hread & HMnone & Hfunc & Hslots). cbn [fst snd] in *.
    split; [|split].
    + csimpl. rewrite filter_cons_True; [by rewrite IHf|].
      cbn [snd]. rewrite HMnone, Hnone. intros Hfalse. exact Hfalse.
    + rewrite fmap_cons. cbn [zip zip_with]. rewrite fmap_cons.
      cbn [forallb slot_map fst snd].
      by rewrite (slot_map_key _ k Hkey), Hslots, IHs.
    + intros vals Hagree.
      rewrite fmap_cons. cbn [zip zip_with]. rewrite fmap_cons.
      cbn [comprehension fst snd]. rewrite read_map_items.
      * cbn [comprehension]. rewrite (read_key_obj k vals Hkey), (Hread vals Hagree).
        cbn [mbind result_bind fmap result_fmap]. by rewrite IHr.
      * constructor; [by destruct k|]. constructor; [done|constructor].
Qed.

Lemma builds_dictionary items :
  Forall (fun kv => builds kv.2) items -> builds (PyDict items).
Proof.
  intros IH name self Haligned Hsupp. simpl in Hsupp.
  apply andb_true_iff in Hsupp as [Hnodup%bool_decide_eq_true Hitems].
  rewrite forallb_forall in Hitems.
  assert (Forall (fun kv : pykey * pyobj =>
                    (key_ok kv.1 = true /\ is_None kv.2 = false) /\
                    supported kv.2 = true) items) as Hok.
  { apply Forall_forall. intros kv Hkv%list_elem_of_In%Hitems.
    apply andb_true_iff in Hkv as [[Hk Hn%negb_true_iff]%andb_true_iff Hs]. done. }
  apply Forall_and in Hok as [Hok Hsupp].
  rewrite convert_dictionary.
  destruct (iterate_mapping_builds mem slot snd
              (fun _ (kv : pykey * pyobj) =>
                 (if decide (0 < String.length name)%nat then name +:+ "." else "")
                 +:+ key_str kv.1) items IH Hsupp 0%nat self Haligned)
    as (Ms & self' & Hrun & Hext & Hbacks).
  destruct (dict_args_read items Ms self' Hbacks Hok) as (Hkept & Hslots & Hread).
  eexists _, self'. unfold mbind, py_bind. rewrite Hrun, Hkept.
  split; [reflexivity|]. split; [done|].
  split; [|split; [done|split; [done|]]].
  - intros vals Hagree.
    rewrite read_map_call. cbn [comprehension].
    rewrite read_map_items.
    + rewrite (Hread vals Hagree). simpl.
      rewrite comprehension_fmap.
      rewrite (comprehension_OK _ (fun kv => (kv.1, substitute slot kv.2))).
      * simpl. rewrite dict_of_NoDup; [done|].
        by rewrite <- list_fmap_compose.
      * apply Forall_forall. intros [k v] _. apply as_pair_list.
    + apply Forall_fmap, Forall_forall. by intros kv _ f.
  - cbn [slot_map forallb]. by rewrite Hslots.
Qed.

Lemma builds_xarray dim items :
  Forall (fun kv => builds kv.2) items -> builds (PyXarray dim items).
Proof.
  intros IH name self Haligned Hsupp. simpl in Hsupp.
  apply andb_true_iff in Hsupp as [[Hdim%negb_true_iff Hnonempty]%andb_true_iff Hitems].
  apply negb_true_iff, bool_decide_eq_false in Hnonempty.
  rewrite forallb_forall in Hitems.
  assert (Forall (fun kv : pykey * pyobj =>
                    key_ok kv.1 = true /\ supported kv.2 = true) items) as Hok.
  { apply Forall_forall. intros kv Hkv%list_elem_of_In%Hitems.
    by apply andb_true_iff in Hkv. }
  apply Forall_and in Hok as [Hkeys Hsupp].
  rewrite convert_xarray.
  destruct (iterate_mapping_builds mem slot snd
              (fun _ (kv : pykey * pyobj) => (name +:+ ".") +:+ key_str kv.1)
              items IH Hsupp 0%nat self Haligned)
    as (Ms & self' & Hrun & Hext & Hbacks).
  eexists _, self'. unfold mbind, py_bind. rewrite Hrun.
  split; [reflexivity|]. split; [done|].
  split; [|split; [done|split; [done|]]]; cycle 1.
  { cbn [slot_map forallb]. rewrite Hdim.
    rewrite (reads_back_slot_maps slot snd _ Ms self' Hbacks).
    rewrite !andb_true_r. apply forallb_forall.
    intros x (k & -> & Hk)%list_elem_of_In%list_elem_of_fmap.
    apply slot_map_key. apply list_elem_of_fmap in Hk as (kv & -> & Hkv).
    rewrite Forall_forall in Hkeys. by apply Hkeys. }
  intros vals Hagree.
  destruct (reads_back_items slot snd items Ms self' vals Hbacks Hagree)
    as [Hread Hplain].
  rewrite read_map_call. cbn [comprehension].
  change (read_map (PyStr dim) vals) with (read_str dim vals).
  unfold read_str. rewrite Hdim. cbn [mbind result_bind].
  rewrite (read_map_items (key_obj <$> items.*1))
    by (apply Forall_fmap, Forall_forall; by intros [] _ f).
  rewrite (read_map_items Ms) by done.
  rewrite Hread, comprehension_fmap.
  rewrite (comprehension_OK _ key_obj)
    by (apply Forall_fmap; eapply Forall_impl; [exact Hkeys|];
        intros kv Hk; by apply read_key_obj).
  simpl. destruct items as [|item items]; [done|].
  csimpl. rewrite as_key_key_obj. simpl.
  rewrite comprehension_fmap, (comprehension_OK _ id)
    by (apply Forall_forall; intros k _; apply as_key_key_obj).
  simpl. rewrite list_fmap_id, !length_fmap, decide_True by done.
  do 3 f_equal. apply (zip_fst_snd (substitute slot)).
Qed.
End build_mappings.

(** *** The round trip *)

(** Map building succeeds on every supported configuration, only appends
    slots, and leaves a map that reads back, for every vector that holds
    [slot r] at the slot of each prior [r], as the configuration with
    [slot r] in place of [r]. *)
Lemma convert_builds mem slot c :
  (forall r, scalar_or_prior (slot r) = true) -> builds mem slot c.
Proof.
  intros Hslot. induction c using pyobj_induction.
  - by apply builds_constant.
  - by apply builds_constant.
  - by apply builds_constant.
  - by apply builds_constant.
  - by apply builds_constant.
  - by apply builds_sequence.
  - by apply builds_sequence.
  - by apply builds_sequence.
  - by apply builds_dictionary.
  - by apply builds_xarray.
  - by apply builds_complex.
  - by apply builds_prior.
Qed.

(** The map of a supported configuration has placeholders of the written
    form only, all within the registry, so that a tie rewrites it as the
    renumbering says. *)
Lemma built_map_retargeted mem c name self lowest others :
  aligned self ->
  supported c = true ->
  exists M self',
    _convert_to_map mem c name self = (OK M, self') /\
    slot_map (Z.of_nat (length (_parameters self'))) M = true /\
    edit_map_indices M (lowest :: others)
    = OK (retarget (renumbering lowest others) M).
Proof.
  intros Haligned Hsupp.
  destruct (convert_builds mem PyPrior c (fun _ => eq_refl) name self Haligned Hsupp)
    as (M & self' & Hrun & _ & _ & _ & _ & Hslots).
  exists M, self'. split; [done|]. split; [done|].
  by eapply edit_map_indices_retarget.
Qed.

Lemma agrees_initial_guess mem self :
  agrees (guess_of mem) self (initial_guess mem self).
Proof.
  intros i r Hi. unfold initial_guess. by rewrite list_lookup_fmap, Hi.
Qed.

Lemma agrees_parameters self : agrees PyPrior self (PyPrior <$> _parameters self).
Proof. intros i r Hi. by rewrite list_lookup_fmap, Hi. Qed.

(** On a plain configuration, putting every prior in its own place changes
    nothing. *)
Lemma substitute_plain c :
  supported c = true -> plain c = true -> substitute PyPrior c = c.
Proof.
  induction c as [| | | | |items IH| | |items IH|dim items IH|real imag _ _|]
    using pyobj_induction; try done; simpl.
  - rewrite !forallb_forall. intros Hs Hp. f_equal.
    rewrite <- (list_fmap_id items) at 2. apply list_fmap_ext.
    intros i item Hitem%list_elem_of_lookup_2.
    rewrite Forall_forall in IH. apply list_elem_of_In in Hitem as Hin.
    apply IH; auto.
  - intros [_ Hs]%andb_true_iff. rewrite !forallb_forall in *. intros Hp. f_equal.
    rewrite <- (list_fmap_id items) at 2. apply list_fmap_ext.
    intros i [k v] Hitem%list_elem_of_lookup_2.
    rewrite Forall_forall in IH. apply list_elem_of_In in Hitem as Hin.
    simpl. f_equal. apply (IH _ Hitem).
    + specialize (Hs _ Hin). by apply andb_true_iff in Hs as [_ Hs].
    + apply (Hp _ Hin).
  - intros [_ Hs]%andb_true_iff. rewrite !forallb_forall in *. intros Hp. f_equal.
    rewrite <- (list_fmap_id items) at 2. apply list_fmap_ext.
    intros i [k v] Hitem%list_elem_of_lookup_2.
    rewrite Forall_forall in IH. apply list_elem_of_In in Hitem as Hin.
    simpl. f_equal. apply (IH _ Hitem).
    + specialize (Hs _ Hin). by apply andb_true_iff in Hs as [_ Hs].
    + apply (Hp _ Hin).
  - intros [Hr Hi]%andb_true_iff Hp. by destruct real, imag.
Qed.

(** C1 (as stated) fails on a mapping with a [None] value: map building
    drops the entry, so the mapping that is read has lost it. *)
Lemma mapping_with_None_not_read_back :
  exists M self',
    _convert_to_map uniform_heap
      (PyDict [(KStr "a", PyNum 1); (KStr "b", PyNone)]) "" blank = (OK M, self') /\
    read_map M (initial_guess uniform_heap self') = OK (PyDict [(KStr "a", PyNum 1)]) /\
    read_map M (initial_guess uniform_heap self')
    <> OK (PyDict [(KStr "a", PyNum 1); (KStr "b", PyNone)]).
Proof.
  eexists _, _. split; [vm_compute; reflexivity|].
  split; [vm_compute; reflexivity|]. vm_compute. discriminate.
Qed.

(** C1 (amended).  For every supported configuration [c] and every
    registry with one name for every slot, map building returns a map; read
    with the guess of every registered prior in slot order, the map gives
    [c] with every prior replaced by its guess, a complex prior by the
    complex number of its parts, and tuples and arrays as lists; read with
    the registered priors themselves, it gives [c] with its tuples and
    arrays as lists, which is [c] itself when [c] is plain. *)
Theorem build_then_read mem c name self :
  aligned self ->
  supported c = true ->
  exists M self',
    _convert_to_map mem c name self = (OK M, self') /\
    read_map M (initial_guess mem self') = OK (substitute (guess_of mem) c) /\
    read_map M (PyPrior <$> _parameters self') = OK (substitute PyPrior c) /\
    (plain c = true -> substitute PyPrior c = c).
Proof.
  intros Haligned Hsupp.
  destruct (convert_builds mem (guess_of mem) c (fun _ => eq_refl) name self
              Haligned Hsupp) as (M & self' & Hrun & _ & Hguess & _).
  destruct (convert_builds mem PyPrior c (fun _ => eq_refl) name self Haligned Hsupp)
    as (M' & self'' & Hrun' & _ & Hpars & _).
  rewrite Hrun in Hrun'. injection Hrun' as <- <-.
  exists M, self'. split; [done|].
  split; [apply Hguess, agrees_initial_guess|].
  split; [apply Hpars, agrees_parameters|].
  by apply substitute_plain.
Qed.

Lemma build_then_read_witness :
  exists M self',
    _convert_to_map bounded_heap sphere_parameters "" blank = (OK M, self') /\
    read_map M (initial_guess bounded_heap self')
    = OK (substitute (guess_of bounded_heap) sphere_parameters) /\
    read_map M (PyPrior <$> _parameters self') = OK (substitute PyPrior sphere_parameters) /\
    (plain sphere_parameters = true -> substitute PyPrior sphere_parameters = sphere_parameters).
Proof.
  apply (build_then_read bounded_heap sphere_parameters "" blank); reflexivity.
Defined.

(** ** Names across the life of a Model *)

Lemma del_slot_loop_names_distinct indices self outcome self' :
  NoDup (_parameter_names self) ->
  for_in del_slot indices self = (outcome, self') ->
  NoDup (_parameter_names self').
Proof.
  revert self. induction indices as [|index indices IH]; intros self Hnodup;
    cbn [for_in].
  - by intros [= <- <-].
  - unfold mbind at 1, py_bind, del_slot, mbind, py_bind, get_parameters, lift,
      set_parameters, get_parameter_names, set_parameter_names, delitem.
    cbn [_parameters _parameter_names _maps].
    destruct (decide (index < length (_parameters self))%nat);
      [|by intros [= <- <-]].
    destruct (decide (index < length (_parameter_names self))%nat);
      [|by intros [= <- <-]].
    apply IH. simpl. eapply sublist_NoDup; [done|apply sublist_delete].
Qed.

(** A tie that gives no new name keeps the names distinct. *)
Lemma add_tie_unnamed_names_distinct mem self parameters_to_tie outcome self' :
  NoDup (_parameter_names self) ->
  add_tie mem parameters_to_tie None self = (outcome, self') ->
  NoDup (_parameter_names self').
Proof.
  intros Hnodup. unfold add_tie, mbind at 1, py_bind.
  destruct (add_tie_indices _ _ _ _ _) as [[indices|e] self0] eqn:Hvalid;
    apply add_tie_indices_reads_only in Hvalid as [-> _];
    [|by intros [= <- <-]].
  unfold mbind at 1, py_bind.
  destruct (for_in _ _ _) as [[[]|e] self1] eqn:Hdel;
    apply del_slot_loop_names_distinct in Hdel; try done;
    [|by intros [= <- <-]].
  unfold mbind, py_bind, lift, get_maps, set_maps, mret, py_ret.
  by destruct (comprehension _ _); intros [= <- <-].
Qed.

(** ** The registry of every reachable Model *)

Lemma iterate_mapping_extends mem {A} (value : A -> pyobj) (namer : nat -> A -> string)
    (pairs : list A) :
  Forall (fun pair => forall name self, aligned self ->
            exists M self',
              _convert_to_map mem (value pair) name self = (OK M, self') /\
              extends self self') pairs ->
  forall i self,
    aligned self ->
    exists Ms self',
      for_each_from (fun i pair => _convert_to_map mem (value pair) (namer i pair))
        i pairs self = (OK Ms, self') /\
      extends self self'.
Proof.
  induction 1 as [|pair pairs Hpair _ IH]; intros i self Haligned.
  - exists [], self. split; [done|]. by apply extends_refl.
  - destruct (Hpair (namer i pair) self Haligned) as (M & self1 & Hrun & Hext1).
    destruct (IH (S i) self1 (proj1 Hext1)) as (Ms & self2 & Hrest & Hext2).
    exists (M :: Ms), self2. cbn [for_each_from]. unfold mbind at 1, py_bind.
    rewrite Hrun. unfold mbind at 1, py_bind. rewrite Hrest.
    split; [done|]. by eapply extends_trans.
Qed.

(** Map building returns on every configuration, supported or not: it only
    appends slots, keeps one name for every slot and keeps the names
    distinct. *)
Lemma convert_extends mem c name self :
  aligned self ->
  exists M self', _convert_to_map mem c name self = (OK M, self') /\ extends self self'.
Proof.
  revert name self.
  induction c as [| | | | |items IH|items IH|items IH|items IH|dim items IH
                 |real imag IHreal IHimag|r] using pyobj_induction;
    intros name self Haligned;
    try (eexists _, self; split; [reflexivity|by apply extends_refl]).
  - destruct (convert_sequence mem items name) as (-> & _ & _).
    destruct (iterate_mapping_extends mem id
                (fun i _ => (name +:+ ".") +:+ PyString.str (Z.of_nat i)) items IH
                0%nat self Haligned) as (Ms & self' & Hrun & Hext).
    eexists _, self'. unfold mbind, py_bind. by rewrite Hrun.
  - destruct (convert_sequence mem items name) as (Hlist & -> & _). rewrite Hlist.
    destruct (iterate_mapping_extends mem id
                (fun i _ => (name +:+ ".") +:+ PyString.str (Z.of_nat i)) items IH
                0%nat self Haligned) as (Ms & self' & Hrun & Hext).
    eexists _, self'. unfold mbind, py_bind. by rewrite Hrun.
  - destruct (convert_sequence mem items name) as (Hlist & _ & ->). rewrite Hlist.
    destruct (iterate_mapping_extends mem id
                (fun i _ => (name +:+ ".") +:+ PyString.str (Z.of_nat i)) items IH
                0%nat self Haligned) as (Ms & self' & Hrun & Hext).
    eexists _, self'. unfold mbind, py_bind. by rewrite Hrun.
  - rewrite convert_dictionary.
    destruct (iterate_mapping_extends mem snd
                (fun _ (kv : pykey * pyobj) =>
                   (if decide (0 < String.length name)%nat then name +:+ "." else "")
                   +:+ key_str kv.1) items IH 0%nat self Haligned)
      as (Ms & self' & Hrun & Hext).
    eexists _, self'. unfold mbind, py_bind. by rewrite Hrun.
  - rewrite convert_xarray.
    destruct (iterate_mapping_extends mem snd
                (fun _ (kv : pykey * pyobj) => (name +:+ ".") +:+ key_str kv.1)
                items IH 0%nat self Haligned) as (Ms & self' & Hrun & Hext).
    eexists _, self'. unfold mbind, py_bind. by rewrite Hrun.
  - rewrite convert_complex.
    destruct (iterate_mapping_extends mem snd
                (fun _ (kv : string * pyobj) => (name +:+ ".") +:+ kv.1)
                [("real", real); ("imag", imag)]) with (i := 0%nat) (self := self)
      as (Ms & self' & Hrun & Hext); [by repeat constructor|done|].
    eexists _, self'. unfold mbind, py_bind. by rewrite Hrun.
  - destruct (check_for_ties_total mem r name self Haligned)
      as (index & self' & Hrun & _ & Haligned' & Hmaps & Hgrow).
    eexists _, self'. cbn [_convert_to_map]. unfold mbind, py_bind. rewrite Hrun.
    split; [reflexivity|]. split; [done|]. split; [done|]. split.
    + destruct Hgrow as [[_ ->]|(_ & _ & ->)]; [done|by apply prefix_app_r].
    + intros Hnodup. by eapply check_for_ties_names_distinct.
Qed.

(** After [__init__], whatever the configuration, the registry holds one
    name for every slot and the names are distinct. *)
Lemma Model_init_registry mem scatterer_parameters optics_parameters self0 outcome self :
  Model_init mem scatterer_parameters optics_parameters self0 = (outcome, self) ->
  outcome = OK tt /\ aligned self /\ NoDup (_parameter_names self).
Proof.
  unfold Model_init.
  unfold mbind at 1, py_bind, set_parameters. cbn [_parameter_names _maps].
  unfold mbind at 1, py_bind, set_parameter_names. cbn [_parameters _maps].
  set (self1 := mkModel [] [] (_maps self0)).
  destruct (convert_extends mem scatterer_parameters "" self1 eq_refl)
    as (M1 & self2 & Hrun1 & Hext1).
  destruct (convert_extends mem optics_parameters "" self2 (proj1 Hext1))
    as (M2 & self3 & Hrun2 & Hext2).
  unfold mbind at 1, py_bind. rewrite Hrun1.
  unfold mbind at 1, py_bind. rewrite Hrun2.
  intros [= <- <-]. split; [done|]. simpl. split; [apply Hext2|].
  apply Hext2, Hext1. simpl. apply NoDup_nil_2.
Qed.

Lemma del_slot_loop_aligned indices self outcome self' :
  aligned self ->
  for_in del_slot indices self = (outcome, self') ->
  aligned self'.
Proof.
  revert self. induction indices as [|index indices IH]; intros self Haligned;
    cbn [for_in].
  - by intros [= <- <-].
  - unfold mbind at 1, py_bind, del_slot, mbind, py_bind, get_parameters, lift,
      set_parameters, get_parameter_names, set_parameter_names, delitem.
    cbn [_parameters _parameter_names _maps]. unfold aligned in Haligned.
    destruct (decide (index < length (_parameters self))%nat) as [Hp|];
      [|by intros [= <- <-]].
    rewrite decide_True by lia. apply IH. unfold aligned. simpl.
    rewrite !length_delete by (apply lookup_lt_is_Some_2; lia). lia.
Qed.

(** [add_tie] keeps one name for every slot, whether it returns or raises. *)
Lemma add_tie_aligned mem self parameters_to_tie new_name outcome self' :
  aligned self ->
  add_tie mem parameters_to_tie new_name self = (outcome, self') ->
  aligned self'.
Proof.
  intros Haligned. unfold add_tie, mbind at 1, py_bind.
  destruct (add_tie_indices _ _ _ _ _) as [[indices|e] self0] eqn:Hvalid;
    apply add_tie_indices_reads_only in Hvalid as [-> _];
    [|by intros [= <- <-]].
  unfold mbind at 1, py_bind.
  destruct (for_in _ _ _) as [[[]|e] self1] eqn:Hdel;
    apply del_slot_loop_aligned in Hdel; try done;
    [|by intros [= <- <-]].
  unfold mbind, py_bind, lift, get_parameter_names, set_parameter_names, get_maps,
    set_maps, mret, py_ret, setitem.
  destruct new_name as [new_name|].
  - destruct (merge_sort Nat.le indices !! 0%nat) as [first|]; cbn [from_some];
      [|by intros [= <- <-]].
    destruct (decide (first < length (_parameter_names self1))%nat);
      [|by intros [= <- <-]].
    cbn [_maps]. destruct (comprehension _ _); intros [= <- <-];
      unfold aligned in *; simpl; by rewrite length_insert.
  - by destruct (comprehension _ _); intros [= <- <-].
Qed.

(** Every reachable Model holds one name for every slot. *)
Lemma reachable_aligned mem named self : reachable mem named self -> aligned self.
Proof.
  induction 1 as [scatterer optics self0 self Hinit
                 |named key parameter self self' _ IH Hadd
                 |named tie new_name outcome self self' _ IH Htie].
  - by apply Model_init_registry in Hinit as (_ & Haligned & _).
  - revert Hadd. unfold Model_add_map, mbind at 1, py_bind.
    destruct (convert_extends mem parameter "" self IH) as (M & self1 & -> & Hext).
    intros [= <-]. apply Hext.
  - by eapply add_tie_aligned.
Qed.

(** As long as no tie has given a new name, the names of a reachable Model
    are distinct. *)
Lemma reachable_names_distinct mem self :
  reachable mem false self -> NoDup (_parameter_names self).
Proof.
  intros Hreach. remember false as named eqn:Hflag.
  induction Hreach as [scatterer optics self0 self Hinit
                      |named key parameter self self' Hreach IH Hadd
                      |named tie new_name outcome self self' Hreach IH Htie].
  - by apply Model_init_registry in Hinit as (_ & _ & Hnodup).
  - revert Hadd. unfold Model_add_map, mbind at 1, py_bind.
    destruct (convert_extends mem parameter "" self (reachable_aligned _ _ _ Hreach))
      as (M & self1 & -> & Hext).
    intros [= <-]. simpl. apply Hext. by apply IH.
  - apply orb_false_iff in Hflag as [-> Hnew].
    destruct new_name as [new_name|]; [done|].
    eapply add_tie_unnamed_names_distinct; [by apply IH|done].
Qed.

(** *** A tie under a new name can repeat a name *)

(** C7, at the failing input.  The five-parameter model is what
    [Model.__init__] builds and its names are distinct; tying [a] and [b]
    under the new name [c], which the registry holds already, completes and
    leaves a reachable Model with the name [c] twice. *)
Theorem add_tie_new_name_collides :
  Model_init uniform_heap five_parameters plain_optics blank = (OK tt, five_model) /\
  NoDup (_parameter_names five_model) /\
  exists self',
    add_tie uniform_heap ["a"; "b"] (Some "c") five_model = (OK tt, self') /\
    reachable uniform_heap true self' /\
    _parameter_names self' = ["c"; "c"; "d"; "e"] /\
    ~ NoDup (_parameter_names self').
Proof.
  split; [apply five_model_built|]. split; [by_evaluation|].
  eexists. split; [vm_compute; reflexivity|]. split; [|split; [reflexivity|]].
  - apply (reachable_add_tie uniform_heap false ["a"; "b"] (Some "c") (OK tt)
             five_model).
    + eapply reachable_init. apply five_model_built.
    + vm_compute. reflexivity.
  - simpl. intros [Hc _]%NoDup_cons. apply Hc. left.
Qed.

(** * Further properties of the code *)

(** ** Names given by [_check_for_ties] *)

(** The renaming loop returns the first numbered name that is free. *)
Lemma rename_loop_least rounds names base (n : nat) :
  (exists j : nat,
      (j <= rounds)%nat /\
      rename_loop rounds names (numbered base n) = OK (numbered base (n + j)) /\
      (numbered base (n + j) ∉ names) /\
      forall i : nat, (i < j)%nat -> numbered base (n + i) ∈ names) \/
  (forall i : nat, (i <= rounds)%nat -> numbered base (n + i) ∈ names).
Proof.
  revert n. induction rounds as [|rounds IH]; intros n.
  - destruct (decide (numbered base n ∈ names)) as [Hin|Hout].
    + right. intros i Hi. replace i with 0%nat by lia. by rewrite Nat.add_0_r.
    + left. exists 0%nat. rewrite Nat.add_0_r. split; [lia|].
      split; [simpl; by rewrite decide_False|]. split; [done|]. intros i Hi. lia.
  - destruct (decide (numbered base n ∈ names)) as [Hin|Hout].
    + destruct (IH (S n)) as [(j & Hj & Hrun & Hout & Hbelow)|Hall].
      * left. exists (S j). replace (n + S j)%nat with (S n + j)%nat by lia.
        split; [lia|]. split; [|split; [done|]].
        -- cbn [rename_loop]. rewrite decide_True by done. unfold numbered at 1.
           rewrite PyStringFacts.split1_reversed, !PyStringFacts.reversed_reversed,
             PyStringFacts.int_str.
           cbn [from_some mbind result_bind].
           replace (Z.of_nat n + 1) with (Z.of_nat (S n)) by lia. exact Hrun.
        -- intros [|i] Hi; [by rewrite Nat.add_0_r|].
           replace (n + S i)%nat with (S n + i)%nat by lia. apply Hbelow. lia.
      * right. intros [|i] Hi; [by rewrite Nat.add_0_r|].
        replace (n + S i)%nat with (S n + i)%nat by lia. apply Hall. lia.
    + left. exists 0%nat. rewrite Nat.add_0_r. split; [lia|].
      split; [simpl; by rewrite decide_False|]. split; [done|]. intros i Hi. lia.
Qed.

Lemma numbered_inj base i j : numbered base i = numbered base j -> i = j.
Proof.
  unfold numbered. intros E.
  apply (inj (String.app base)), (inj (String.app "_")) in E.
  apply PyStringFacts.str_inj in E. lia.
Qed.

(** X1.  A prior that holds no slot yet gets the next slot, and its name
    is its own name if it has one, the suggested name otherwise; when that
    candidate is taken, it is the candidate followed by [_j] for the least
    [j] from 0 on that makes a free name. *)
Theorem new_prior_name mem parameter name self :
  parameter ∉ _parameters self ->
  exists stored,
    _check_for_ties mem parameter name self
    = (OK (Z.of_nat (length (_parameters self))),
       mkModel (_parameters self ++ [parameter]) (_parameter_names self ++ [stored])
         (_maps self)) /\
    let candidate := default name (prior_name (mem parameter)) in
    (candidate ∉ _parameter_names self -> stored = candidate) /\
    (candidate ∈ _parameter_names self ->
     exists j : nat,
       stored = numbered candidate j /\
       (stored ∉ _parameter_names self) /\
       forall i : nat, (i < j)%nat -> numbered candidate i ∈ _parameter_names self).
Proof.
  intros Hnew. rewrite (check_for_ties_new _ _ _ _ Hnew). unfold first_candidate.
  set (candidate := default name (prior_name (mem parameter))).
  set (names := _parameter_names self).
  destruct (decide (candidate ∈ names)) as [Hin|Hout].
  - change (candidate +:+ "_0") with (numbered candidate 0).
    destruct (rename_loop_least (S (length names)) names candidate 0)
      as [(j & _ & -> & Hfree & Hbelow)|Hall].
    + eexists. split; [reflexivity|]. split; [done|]. intros _. by exists j.
    + exfalso.
      set (tried := numbered candidate <$> seq 0 (S (length names))).
      assert (NoDup tried) as Hnodup.
      { apply NoDup_fmap_2; [|apply NoDup_seq]. intros i j. apply numbered_inj. }
      assert (tried ⊆+ names) as Hsub.
      { apply NoDup_submseteq; [done|]. intros x (i & -> & Hi)%list_elem_of_fmap.
        apply (Hall i). apply elem_of_seq in Hi. lia. }
      apply submseteq_length in Hsub. unfold tried in Hsub.
      rewrite length_fmap, length_seq in Hsub. lia.
  - exists candidate. simpl. rewrite decide_False by done.
    split; [reflexivity|]. split; [done|]. intros Hin. by destruct Hout.
Qed.

Lemma new_prior_name_witness :
  exists stored,
    _check_for_ties uniform_heap 9%N "a" five_model
    = (OK 5, mkModel [1; 2; 3; 4; 5; 9]%N ["a"; "b"; "c"; "d"; "e"; stored]
               (_maps five_model)) /\
    (("a" : string) ∉ _parameter_names five_model -> stored = "a") /\
    (("a" : string) ∈ _parameter_names five_model ->
     exists j : nat,
       stored = numbered "a" j /\
       (stored ∉ _parameter_names five_model) /\
       forall i : nat, (i < j)%nat -> numbered "a" i ∈ _parameter_names five_model).
Proof.
  apply (new_prior_name uniform_heap 9%N "a" five_model). by_evaluation.
Defined.



(** ** The slots that map building fills *)

Lemma register_all_app ps l1 l2 :
  register_all ps (l1 ++ l2) = register_all (register_all ps l1) l2.
Proof. apply foldl_app. Qed.

Lemma register_all_prefix ps l : ps `prefix_of` register_all ps l.
Proof.
  revert ps. induction l as [|r l IH]; intros ps; [done|]. simpl.
  destruct (decide (r ∈ ps)); [apply IH|].
  etrans; [|apply IH]. by apply prefix_app_r.
Qed.

Lemma register_all_elem ps l r :
  r ∈ register_all ps l <-> r ∈ ps \/ r ∈ l.
Proof.
  revert ps. induction l as [|x l IH]; intros ps; simpl.
  - rewrite elem_of_nil. tauto.
  - rewrite IH, elem_of_cons. destruct (decide (x ∈ ps)) as [Hx|Hx].
    + split; [tauto|]. intros [?|[->|?]]; tauto.
    + rewrite elem_of_app, list_elem_of_singleton. tauto.
Qed.

Lemma register_all_NoDup ps l : NoDup ps -> NoDup (register_all ps l).
Proof.
  revert ps. induction l as [|x l IH]; intros ps Hnodup; [done|]. simpl.
  destruct (decide (x ∈ ps)) as [Hx|Hx]; apply IH; [done|].
  apply NoDup_app. split; [done|]. split; [|apply NoDup_singleton].
  intros y Hy ->%list_elem_of_singleton. done.
Qed.

Lemma extends_length self self' :
  extends self self' ->
  Z.of_nat (length (_parameters self)) <= Z.of_nat (length (_parameters self')).
Proof. intros (_ & _ & Hprefix%prefix_length & _). lia. Qed.

Lemma iterate_mapping_registers mem {A} (value : A -> pyobj)
    (namer : nat -> A -> string) (pairs : list A) :
  Forall (fun pair => registers mem (value pair)) pairs ->
  forall i self,
    aligned self ->
    exists Ms self',
      for_each_from (fun i pair => _convert_to_map mem (value pair) (namer i pair))
        i pairs self = (OK Ms, self') /\
      extends self self' /\
      _parameters self'
      = register_all (_parameters self)
          (concat ((fun pair => priors_of (value pair)) <$> pairs)) /\
      forallb list_map Ms = true /\
      (forallb (fun pair => clean (value pair)) pairs = true ->
       forallb (slot_map (Z.of_nat (length (_parameters self')))) Ms = true).
Proof.
  induction 1 as [|pair pairs Hpair _ IH]; intros i self Haligned.
  - exists [], self. split; [done|]. split; [by apply extends_refl|]. done.
  - destruct (Hpair (namer i pair) self Haligned)
      as (M & self1 & Hrun & Hext1 & Hps1 & HM & Hslot).
    destruct (IH (S i) self1 (proj1 Hext1))
      as (Ms & self2 & Hrest & Hext2 & Hps2 & HMs & Hslots).
    exists (M :: Ms), self2. cbn [for_each_from]. unfold mbind at 1, py_bind.
    rewrite Hrun. unfold mbind at 1, py_bind. rewrite Hrest.
    split; [done|]. split; [by eapply extends_trans|]. split; [|split].
    + rewrite fmap_cons. cbn [concat]. by rewrite register_all_app, <- Hps1.
    + simpl. by rewrite HM, HMs.
    + cbn [forallb]. intros [Hclean Hcleans]%andb_true_iff.
      rewrite (Hslots Hcleans), andb_true_r.
      eapply slot_map_mono; [by apply extends_length|by apply Hslot].
Qed.

Lemma list_map_key k : list_map (key_obj k) = true.
Proof. by destruct k. Qed.

Lemma list_map_pairs (P : pykey * pyobj -> Prop) `{forall x, Decision (P x)}
    (keys : list pykey) Ms :
  forallb list_map Ms = true ->
  forallb list_map ((fun kv => PyList [key_obj kv.1; kv.2]) <$> filter P (zip keys Ms))
  = true.
Proof.
  intros HMs. rewrite forallb_forall in HMs. apply forallb_forall.
  intros x ([k M] & -> & Hin%list_elem_of_filter)%list_elem_of_In%list_elem_of_fmap.
  destruct Hin as [_ Hin]. apply elem_of_zip_r in Hin.
  simpl. rewrite list_map_key. simpl. rewrite HMs; [done|].
  by apply list_elem_of_In.
Qed.

Lemma slot_map_pairs n (P : pykey * pyobj -> Prop) `{forall x, Decision (P x)}
    (keys : list pykey) Ms :
  forallb key_ok keys = true ->
  forallb (slot_map n) Ms = true ->
  forallb (slot_map n) ((fun kv => PyList [key_obj kv.1; kv.2]) <$> filter P (zip keys Ms))
  = true.
Proof.
  intros Hkeys HMs. rewrite forallb_forall in Hkeys, HMs. apply forallb_forall.
  intros x ([k M] & -> & Hin%list_elem_of_filter)%list_elem_of_In%list_elem_of_fmap.
  destruct Hin as [_ Hin]. pose proof (elem_of_zip_l _ _ _ _ Hin) as Hk.
  apply elem_of_zip_r in Hin.
  cbn [slot_map forallb fst snd]. rewrite slot_map_key by by apply Hkeys, list_elem_of_In.
  rewrite HMs; [done|]. by apply list_elem_of_In.
Qed.

Lemma clean_items (items : list (pykey * pyobj)) :
  forallb (fun kv => key_ok kv.1 && clean kv.2) items = true ->
  forallb key_ok items.*1 = true /\
  forallb (fun kv => clean kv.2) items = true.
Proof.
  induction items as [|[k v] items IH]; [done|]. cbn [forallb fmap list_fmap fst snd].
  intros [[Hk Hv]%andb_true_iff [Hks Hvs]%IH]%andb_true_iff.
  by rewrite Hk, Hv, Hks, Hvs.
Qed.

Lemma convert_registers mem c : registers mem c.
Proof.
  induction c as [| | | s | |items IH|items IH|items IH|items IH|dim items IH
                 |real imag IHreal IHimag|r] using pyobj_induction;
    intros name self Haligned;
    try (eexists _, self; split; [reflexivity|];
         split; [by apply extends_refl|done]).
  - eexists _, self. split; [reflexivity|]. split; [by apply extends_refl|].
    split; [done|]. split; [done|]. cbn [clean slot_map].
    by intros ->%negb_true_iff.
  - destruct (convert_sequence mem items name) as (-> & _ & _).
    destruct (iterate_mapping_registers mem id
                (fun i _ => (name +:+ ".") +:+ PyString.str (Z.of_nat i)) items IH
                0%nat self Haligned) as (Ms & self' & Hrun & Hext & Hps & HMs & Hslots).
    eexists _, self'. unfold mbind, py_bind. by rewrite Hrun.
  - destruct (convert_sequence mem items name) as (Hlist & -> & _). rewrite Hlist.
    destruct (iterate_mapping_registers mem id
                (fun i _ => (name +:+ ".") +:+ PyString.str (Z.of_nat i)) items IH
                0%nat self Haligned) as (Ms & self' & Hrun & Hext & Hps & HMs & Hslots).
    eexists _, self'. unfold mbind, py_bind. by rewrite Hrun.
  - destruct (convert_sequence mem items name) as (Hlist & _ & ->). rewrite Hlist.
    destruct (iterate_mapping_registers mem id
                (fun i _ => (name +:+ ".") +:+ PyString.str (Z.of_nat i)) items IH
                0%nat self Haligned) as (Ms & self' & Hrun & Hext & Hps & HMs & Hslots).
    eexists _, self'. unfold mbind, py_bind. by rewrite Hrun.
  - rewrite convert_dictionary.
    destruct (iterate_mapping_registers mem snd
                (fun _ (kv : pykey * pyobj) =>
                   (if decide (0 < String.length name)%nat then name +:+ "." else "")
                   +:+ key_str kv.1) items IH 0%nat self Haligned)
      as (Ms & self' & Hrun & Hext & Hps & HMs & Hslots).
    eexists _, self'. unfold mbind, py_bind. rewrite Hrun.
    split; [reflexivity|]. split; [done|]. split; [done|]. split.
    + cbn [list_map forallb]. by rewrite list_map_pairs.
    + cbn [clean]. intros [Hkeys Hvalues]%clean_items.
      cbn [slot_map forallb]. by rewrite slot_map_pairs; [|done|apply Hslots].
  - rewrite convert_xarray.
    destruct (iterate_mapping_registers mem snd
                (fun _ (kv : pykey * pyobj) => (name +:+ ".") +:+ key_str kv.1)
                items IH 0%nat self Haligned)
      as (Ms & self' & Hrun & Hext & Hps & HMs & Hslots).
    eexists _, self'. unfold mbind, py_bind. rewrite Hrun.
    split; [reflexivity|]. split; [done|]. split; [done|]. split.
    + cbn [list_map forallb]. rewrite HMs, !andb_true_r.
      apply forallb_forall. intros x (k & -> & _)%list_elem_of_In%list_elem_of_fmap.
      apply list_map_key.
    + cbn [clean]. intros [Hdim [Hkeys Hvalues]%clean_items]%andb_true_iff.
      apply negb_true_iff in Hdim.
      cbn [slot_map forallb]. rewrite Hdim, (Hslots Hvalues), !andb_true_r.
      apply forallb_forall. intros x (k & -> & Hk)%list_elem_of_In%list_elem_of_fmap.
      apply slot_map_key. rewrite forallb_forall in Hkeys.
      by apply Hkeys, list_elem_of_In.
  - rewrite convert_complex.
    destruct (iterate_mapping_registers mem snd
                (fun _ (kv : string * pyobj) => (name +:+ ".") +:+ kv.1)
                [("real", real); ("imag", imag)]) with (i := 0%nat) (self := self)
      as (Ms & self' & Hrun & Hext & Hps & HMs & Hslots); [by repeat constructor|done|].
    eexists _, self'. unfold mbind, py_bind. rewrite Hrun.
    split; [reflexivity|]. split; [done|]. split; [|split].
    + rewrite Hps. simpl. by rewrite app_nil_r.
    + cbn [list_map forallb]. by rewrite HMs.
    + cbn [clean]. intros Hclean. cbn [slot_map forallb]. rewrite Hslots; [done|].
      cbn [forallb snd]. by rewrite andb_true_r.
  - destruct (check_for_ties_total mem r name self Haligned)
      as (index & self' & Hrun & Hindex & Haligned' & Hmaps & Hgrow).
    eexists _, self'. cbn [_convert_to_map]. unfold mbind, py_bind. rewrite Hrun.
    split; [reflexivity|]. split; [|split; [|split; [done|]]].
    + split; [done|]. split; [done|]. split.
      * destruct Hgrow as [[_ ->]|(_ & _ & ->)]; [done|by apply prefix_app_r].
      * intros Hnodup. by eapply check_for_ties_names_distinct.
    + simpl. destruct Hgrow as [[Hidx ->]|(Hnew & _ & ->)].
      * rewrite decide_True; [done|]. by eapply list_index_is_Some.
      * by rewrite decide_False.
    + intros _. apply slot_map_placeholder.
      apply list_index_Some, lookup_lt_Some in Hindex. lia.
Qed.

(** X3.  Map building returns on every configuration.  It gives the
    priors of the configuration their slots in the order in which it meets
    them, each prior once: a prior that holds a slot keeps it, the others
    are appended.  So the slots that existed keep their positions, every
    prior of the configuration holds a slot afterwards, and no prior holds
    two if none did before. *)
Theorem slots_in_discovery_order mem c name self :
  aligned self ->
  exists M self',
    _convert_to_map mem c name self = (OK M, self') /\
    _parameters self' = register_all (_parameters self) (priors_of c) /\
    _parameters self `prefix_of` _parameters self' /\
    (forall r, r ∈ priors_of c -> r ∈ _parameters self') /\
    (NoDup (_parameters self) -> NoDup (_parameters self')) /\
    _maps self' = _maps self /\
    aligned self'.
Proof.
  intros Haligned.
  destruct (convert_registers mem c name self Haligned)
    as (M & self' & Hrun & (Haligned' & Hmaps & _) & Hps & _).
  exists M, self'. split; [done|]. split; [done|]. rewrite Hps.
  split; [apply register_all_prefix|]. split; [|split; [apply register_all_NoDup|done]].
  intros r Hr. apply register_all_elem. by right.
Qed.

Lemma slots_in_discovery_order_witness :
  exists M self',
    _convert_to_map bounded_heap sphere_parameters "" blank = (OK M, self') /\
    _parameters self' = register_all [] (priors_of sphere_parameters) /\
    [] `prefix_of` _parameters self' /\
    (forall r, r ∈ priors_of sphere_parameters -> r ∈ _parameters self') /\
    (NoDup (_parameters blank) -> NoDup (_parameters self')) /\
    _maps self' = [] /\
    aligned self'.
Proof.
  apply (slots_in_discovery_order bounded_heap sphere_parameters "" blank). reflexivity.
Defined.

(** ** Mappings with [None] values *)

Section optional_values.
Variable mem : heap.
Variable slot : ref -> pyobj.

(** The pairs that [_map_dictionary] keeps, and what reading them gives. *)
Lemma dict_args_kept (items : list (pykey * pyobj)) Ms self vals :
  Forall2 (fun kv M => reads_back slot kv.2 M self) items Ms ->
  agrees slot self vals ->
  Forall (fun kv => key_ok kv.1 = true) items ->
  comprehension (fun item => read_map item vals)
    ((fun kv => PyList [key_obj kv.1; kv.2])
       <$> filter (fun kv => ¬ is_None kv.2) (zip items.*1 Ms))
  = OK ((fun kv => PyList [key_obj kv.1; substitute slot kv.2])
          <$> filter (fun kv => ¬ is_None kv.2) items).
Proof.
  intros Hbacks Hagree. induction Hbacks as [|[k v] M items Ms Hb _ IH]; intros Hok.
  - done.
  - apply Forall_cons in Hok as [Hkey Hok]. specialize (IH Hok).
    destruct Hb as (Hread & HMnone & Hfunc & _). cbn [fst snd] in *.
    rewrite fmap_cons. cbn [zip zip_with].
    destruct (is_None v) eqn:Hv.
    + rewrite !filter_cons_False; [done| |]; cbn [snd]; rewrite ?HMnone, ?Hv;
        by intros Hnot; apply Hnot.
    + rewrite !filter_cons_True; [| |]; cbn [snd]; rewrite ?HMnone, ?Hv;
        try (intros Hfalse; exact Hfalse).
      rewrite !fmap_cons. cbn [comprehension fst snd]. rewrite read_map_items.
      * cbn [comprehension]. rewrite (read_key_obj k vals Hkey), (Hread vals Hagree).
        cbn [mbind result_bind fmap result_fmap]. by rewrite IH.
      * constructor; [by destruct k|]. constructor; [done|constructor].
Qed.

(** Building a mapping whose values may be [None], and reading its map. *)
Lemma optional_mapping_reads_back items name self :
  (forall r, scalar_or_prior (slot r) = true) ->
  aligned self ->
  NoDup items.*1 ->
  Forall (fun kv => key_ok kv.1 = true /\ supported kv.2 = true) items ->
  exists M self',
    _convert_to_map mem (PyDict items) name self = (OK M, self') /\
    extends self self' /\
    forall self'' vals,
      extends self' self'' ->
      agrees slot self'' vals ->
      read_map M vals
      = OK (PyDict ((fun kv => (kv.1, substitute slot kv.2))
                      <$> filter (fun kv => ¬ is_None kv.2) items)).
Proof.
  intros Hslot Haligned Hnodup Hok. apply Forall_and in Hok as [Hkeys Hsupp].
  rewrite convert_dictionary.
  destruct (iterate_mapping_builds mem slot snd
              (fun _ (kv : pykey * pyobj) =>
                 (if decide (0 < String.length name)%nat then name +:+ "." else "")
                 +:+ key_str kv.1) items) with (i := 0%nat) (self := self)
    as (Ms & self' & Hrun & Hext & Hbacks); [|done|done|].
  { apply Forall_forall. intros kv _. by apply convert_builds. }
  eexists _, self'. unfold mbind, py_bind. rewrite Hrun.
  split; [reflexivity|]. split; [done|].
  intros self'' vals Hext' Hagree.
  assert (agrees slot self' vals) as Hagree' by by eapply agrees_extends.
  rewrite read_map_call. cbn [comprehension].
  rewrite read_map_items.
  - rewrite (dict_args_kept items Ms self' vals Hbacks Hagree' Hkeys). simpl.
    rewrite comprehension_fmap.
    rewrite (comprehension_OK _ (fun kv => (kv.1, substitute slot kv.2))).
    + simpl. rewrite dict_of_NoDup; [done|].
      rewrite <- list_fmap_compose.
      eapply sublist_NoDup; [exact Hnodup|].
      apply (fmap_sublist fst), sublist_filter.
    + apply Forall_forall. intros [k v] _. apply as_pair_list.
  - apply Forall_fmap, Forall_forall. by intros kv _ f.
Qed.
End optional_values.

(** X4.  A mapping whose values may be [None] is built into a map that
    reads back as the mapping without its [None] entries: with the guess of
    every prior in slot order, each remaining value has its priors replaced
    by their guesses, and with the registered priors themselves each
    remaining value is as it was given, tuples and arrays as lists. *)
Theorem mapping_drops_None mem items name self :
  aligned self ->
  NoDup items.*1 ->
  Forall (fun kv => key_ok kv.1 = true /\ supported kv.2 = true) items ->
  exists M self',
    _convert_to_map mem (PyDict items) name self = (OK M, self') /\
    read_map M (initial_guess mem self')
    = OK (PyDict ((fun kv => (kv.1, substitute (guess_of mem) kv.2))
                    <$> filter (fun kv => ¬ is_None kv.2) items)) /\
    read_map M (PyPrior <$> _parameters self')
    = OK (PyDict ((fun kv => (kv.1, substitute PyPrior kv.2))
                    <$> filter (fun kv => ¬ is_None kv.2) items)).
Proof.
  intros Haligned Hnodup Hok.
  destruct (optional_mapping_reads_back mem (guess_of mem) items name self
              (fun _ => eq_refl) Haligned Hnodup Hok) as (M & self' & Hrun & Hext & Hguess).
  destruct (optional_mapping_reads_back mem PyPrior items name self
              (fun _ => eq_refl) Haligned Hnodup Hok) as (M' & self'' & Hrun' & _ & Hpars).
  rewrite Hrun in Hrun'. injection Hrun' as <- <-.
  exists M, self'. split; [done|]. split.
  - apply (Hguess self'); [apply extends_refl, Hext|apply agrees_initial_guess].
  - apply (Hpars self'); [apply extends_refl, Hext|apply agrees_parameters].
Qed.

Lemma mapping_drops_None_witness :
  exists M self',
    _convert_to_map bounded_heap
      (PyDict [(KStr "medium_index", PyPrior 3%N); (KStr "illum_wavelen", PyNone);
               (KStr "noise_sd", PyNum 1)]) "" blank = (OK M, self') /\
    read_map M (initial_guess bounded_heap self')
    = OK (PyDict [(KStr "medium_index", PyNum 3); (KStr "noise_sd", PyNum 1)]) /\
    read_map M (PyPrior <$> _parameters self')
    = OK (PyDict [(KStr "medium_index", PyPrior 3%N); (KStr "noise_sd", PyNum 1)]).
Proof.
  apply (mapping_drops_None bounded_heap
           [(KStr "medium_index", PyPrior 3%N); (KStr "illum_wavelen", PyNone);
            (KStr "noise_sd", PyNum 1)] "" blank).
  - reflexivity.
  - by_evaluation.
  - repeat constructor.
Defined.

(** ** The scatterer of a Model *)

(** What [Model.__init__] leaves: the two maps, in a registry for which
    the scatterer map reads back. *)
Lemma Model_init_builds mem slot scatterer_parameters optics_parameters self0 :
  (forall r, scalar_or_prior (slot r) = true) ->
  supported scatterer_parameters = true ->
  exists self scatterer_map optics_map,
    Model_init mem scatterer_parameters optics_parameters self0 = (OK tt, self) /\
    _maps self = [("scatterer", scatterer_map); ("optics", optics_map)] /\
    aligned self /\
    reads_back slot scatterer_parameters scatterer_map self.
Proof.
  intros Hslot Hsupp. unfold Model_init.
  unfold mbind at 1, py_bind, set_parameters. cbn [_parameter_names _maps].
  unfold mbind at 1, py_bind, set_parameter_names. cbn [_parameters _maps].
  set (self1 := mkModel [] [] (_maps self0)).
  destruct (convert_builds mem slot scatterer_parameters Hslot "" self1 eq_refl Hsupp)
    as (M1 & self2 & Hrun1 & Hext1 & Hback).
  destruct (convert_extends mem optics_parameters "" self2 (proj1 Hext1))
    as (M2 & self3 & Hrun2 & Hext2).
  unfold mbind at 1, py_bind. rewrite Hrun1.
  unfold mbind at 1, py_bind. rewrite Hrun2.
  eexists _, M1, M2. split; [reflexivity|]. split; [reflexivity|].
  split; [apply Hext2|].
  destruct (reads_back_extends slot _ _ _ _ Hext2 Hback)
    as (Hread & Hnone & Hfunc & Hslots).
  split; [|done]. intros vals Hagree. apply Hread.
  intros i r Hi. by apply Hagree.
Qed.

(** X5.  After [Model.__init__] on a supported scatterer configuration,
    whatever the optics, the property [scatterer] hands the configuration
    itself to [from_parameters] (tuples and arrays as lists), and
    [scatterer_from_parameters(initial_guess)] hands it the configuration
    with every prior replaced by its guess. *)
Theorem Model_init_scatterer mem scatterer_parameters optics_parameters self0 :
  supported scatterer_parameters = true ->
  exists self,
    Model_init mem scatterer_parameters optics_parameters self0 = (OK tt, self) /\
    scatterer_property self = OK (substitute PyPrior scatterer_parameters) /\
    scatterer_from_parameters self (PyList (initial_guess mem self))
    = OK (substitute (guess_of mem) scatterer_parameters) /\
    (plain scatterer_parameters = true ->
     substitute PyPrior scatterer_parameters = scatterer_parameters).
Proof.
  intros Hsupp.
  destruct (Model_init_builds mem PyPrior scatterer_parameters optics_parameters self0
              (fun _ => eq_refl) Hsupp) as (self & M1 & M2 & Hrun & Hmaps & _ & Hpars).
  destruct (Model_init_builds mem (guess_of mem) scatterer_parameters optics_parameters
              self0 (fun _ => eq_refl) Hsupp)
    as (self' & M1' & M2' & Hrun' & Hmaps' & _ & Hguess).
  rewrite Hrun in Hrun'. injection Hrun' as <-. rewrite Hmaps in Hmaps'.
  injection Hmaps' as <- <-.
  exists self. split; [done|]. split; [|split; [|by apply substitute_plain]].
  - unfold scatterer_property, maps_getitem. rewrite Hmaps. simpl.
    apply Hpars, agrees_parameters.
  - unfold scatterer_from_parameters, maps_getitem. rewrite Hmaps. simpl.
    apply Hguess, agrees_initial_guess.
Qed.

Lemma Model_init_scatterer_witness :
  exists self,
    Model_init bounded_heap sphere_parameters plain_optics blank = (OK tt, self) /\
    scatterer_property self = OK (substitute PyPrior sphere_parameters) /\
    scatterer_from_parameters self (PyList (initial_guess bounded_heap self))
    = OK (substitute (guess_of bounded_heap) sphere_parameters) /\
    (plain sphere_parameters = true ->
     substitute PyPrior sphere_parameters = sphere_parameters).
Proof.
  apply (Model_init_scatterer bounded_heap sphere_parameters plain_optics blank).
  reflexivity.
Defined.

(** ** Reading a map after a tie *)

Lemma comprehension_agree {A B} (f g : A -> result B) l :
  Forall (fun x => f x = g x) l -> comprehension f l = comprehension g l.
Proof.
  induction 1 as [|x l E _ IH]; simpl; [done|]. by rewrite E, IH.
Qed.

(** A list is read item by item unless it is a callable and its arguments. *)
Lemma read_map_not_call items vals :
  (forall f args, items <> [PyFunc f; args]) ->
  read_map (PyList items) vals
  = PyList <$> comprehension (fun item => read_map item vals) items.
Proof.
  intros Hitems.
  destruct items as [|m [|args [|]]]; try done; destruct m; try done.
  by destruct (Hitems f args).
Qed.

Lemma retarget_func renumbering m f :
  retarget renumbering m = PyFunc f -> m = PyFunc f.
Proof.
  destruct m; try done. simpl. destruct (is_placeholder s); [|done].
  by destruct (PyString.int _).
Qed.

(** No callable of a map takes four arguments or more. *)
Lemma call_characters f cs :
  (4 <= length cs)%nat ->
  call f ((fun c => PyStr (String c "")) <$> cs) = Raise TypeError.
Proof.
  destruct cs as [|c1 [|c2 [|c3 [|c4 cs]]]]; simpl; try lia. by destruct f.
Qed.

Lemma call_or_items (items : list pyobj) :
  (exists f args, items = [PyFunc f; args]) \/
  (forall f args, items <> [PyFunc f; args]).
Proof.
  destruct items as [|m [|args [|]]]; try (by right).
  destruct m; try (by right). left. by eauto.
Qed.

Lemma read_retargeted n renumbering vals vals' map_entry :
  (forall i, 0 <= i < n -> getitem vals' (renumbering i) = getitem vals i) ->
  list_map map_entry = true ->
  slot_map n map_entry = true ->
  read_map (retarget renumbering map_entry) vals' = read_map map_entry vals.
Proof.
  intros Hvals.
  cut ((list_map map_entry = true -> slot_map n map_entry = true ->
        read_map (retarget renumbering map_entry) vals' = read_map map_entry vals) /\
       match map_entry with
       | PyList items =>
           Forall (fun item => list_map item = true -> slot_map n item = true ->
                     read_map (retarget renumbering item) vals' = read_map item vals)
             items
       | _ => True
       end); [tauto|].
  induction map_entry as [| | | s | | items IH | | | | | |] using pyobj_induction;
    try done.
  - split; [|done]. intros _. cbn [retarget slot_map].
    destruct (is_placeholder s) eqn:Hs;
      [|intros _; change (read_str s vals' = read_str s vals);
        unfold read_str; by rewrite Hs].
    destruct (PyString.int (PyString.slice_from 11 s)) as [i|]; [|done].
    intros [Hrange ->]%bool_decide_eq_true.
    change (read_map (placeholder (renumbering i)) vals' = read_map (placeholder i) vals).
    rewrite !read_map_placeholder. by apply Hvals.
  - assert (Forall (fun item => list_map item = true -> slot_map n item = true ->
                      read_map (retarget renumbering item) vals' = read_map item vals)
              items) as Hitems.
    { eapply Forall_impl; [exact IH|]. by intros item [Hitem _]. }
    split; [|done]. cbn [retarget list_map slot_map]. intros Hshape Hslots.
    rewrite forallb_forall in Hshape, Hslots.
    assert (comprehension (fun item => read_map item vals') (retarget renumbering <$> items)
            = comprehension (fun item => read_map item vals) items) as Hread.
    { rewrite comprehension_fmap. apply comprehension_agree.
      rewrite Forall_forall in Hitems |- *. intros item Hitem.
      apply list_elem_of_In in Hitem as Hin. by apply Hitems; auto. }
    destruct (call_or_items items) as [(f & args & ->)|Hplain].
    + apply Forall_cons in IH as [_ [[_ Hargs] _]%Forall_cons].
      pose proof (Hshape args ltac:(simpl; tauto)) as Hshape_args.
      pose proof (Hslots args ltac:(simpl; tauto)) as Hslots_args.
      destruct args as [| | |s| |args| | | | | |]; try done.
      * cbn [fmap list_fmap retarget]. destruct (is_placeholder s) eqn:Hs; [|done].
        cbn [slot_map] in Hslots_args. rewrite Hs in Hslots_args.
        destruct (PyString.int (PyString.slice_from 11 s)) as [i|]; [|done].
        apply bool_decide_eq_true in Hslots_args as [_ ->].
        unfold placeholder. cbn [read_map].
        rewrite !call_characters; [done| |];
          rewrite PyStringFacts.chars_app, length_app; simpl; lia.
      * simpl in Hshape_args, Hslots_args. rewrite forallb_forall in Hshape_args, Hslots_args.
        cbn [fmap list_fmap retarget]. rewrite !read_map_call.
        rewrite comprehension_fmap.
        rewrite (comprehension_agree _ (fun arg => read_map arg vals)); [done|].
        rewrite Forall_forall in Hargs |- *. intros item Hitem.
        apply list_elem_of_In in Hitem as Hin. by apply Hargs; auto.
    + rewrite !read_map_not_call; [by rewrite Hread|done|].
      intros f args E. destruct items as [|m1 [|m2 [|]]]; try done.
      injection E as E1 E2. apply retarget_func in E1. by destruct (Hplain f m2); subst.
Qed.

(** X6.  Editing a map for a tie keeps what it reads: against a vector in
    which every old slot [i] is found at its new index, the edited map reads
    what the map read against the old vector.  This holds for every map
    made of lists and constants whose placeholders are within the registry,
    as the maps that map building returns are. *)
Theorem tie_preserves_reading n lowest others map_entry vals vals' :
  list_map map_entry = true ->
  slot_map n map_entry = true ->
  (forall i, 0 <= i < n ->
     getitem vals' (renumbering lowest others i) = getitem vals i) ->
  exists map_entry',
    edit_map_indices map_entry (lowest :: others) = OK map_entry' /\
    read_map map_entry' vals' = read_map map_entry vals.
Proof.
  intros Hshape Hslots Hvals. eexists. split.
  - by eapply edit_map_indices_retarget.
  - by eapply read_retargeted.
Qed.

Lemma tie_preserves_reading_witness :
  exists map_entry',
    edit_map_indices
      (PyList [PyFunc F_make_complex; PyList [placeholder 3; placeholder 4]]) [1; 3]
    = OK map_entry' /\
    read_map map_entry' [PyNum 10; PyNum 11; PyNum 12; PyNum 14]
    = read_map (PyList [PyFunc F_make_complex; PyList [placeholder 3; placeholder 4]])
        [PyNum 10; PyNum 11; PyNum 12; PyNum 11; PyNum 14].
Proof.
  apply (tie_preserves_reading 5 1 [3]); [reflexivity|reflexivity|].
  intros i Hi.
  assert (i = 0 \/ i = 1 \/ i = 2 \/ i = 3 \/ i = 4) as Hcases by lia.
  destruct Hcases as [->|[->|[->|[->| ->]]]]; reflexivity.
Defined.

(** ** A tie that completes *)

Lemma filter_all {A} (P : A -> Prop) `{forall x, Decision (P x)} (l : list A) :
  Forall P l -> filter P l = l.
Proof.
  induction 1 as [|x l Hx _ IH]; [done|]. by rewrite filter_cons_True, IH.
Qed.

Section delete_each_facts.
Context {A : Type}.
Implicit Types (l : list A) (others : list nat).

Lemma delete_each_snoc init d l :
  delete_each (rev (init ++ [d])) l = delete_each (rev init) (delete d l).
Proof. by rewrite rev_unit. Qed.

Lemma sorted_snoc init d :
  StronglySorted lt (init ++ [d]) ->
  StronglySorted lt init /\ Forall (fun x => x < d)%nat init.
Proof.
  intros (Hlt & Hinit & _)%StronglySorted_app. split; [done|].
  apply Forall_forall. intros x Hx. apply Hlt; [done|]. apply list_elem_of_singleton. done.
Qed.

Lemma delete_each_length others l :
  StronglySorted lt others ->
  Forall (fun d => d < length l)%nat others ->
  (length (delete_each (rev others) l) + length others = length l)%nat.
Proof.
  revert l. induction others as [|d init IH] using rev_ind; intros l Hsorted Hbound.
  - simpl. lia.
  - apply sorted_snoc in Hsorted as [Hsorted Hbelow].
    apply Forall_app in Hbound as [Hbound [Hd _]%Forall_cons].
    rewrite delete_each_snoc, length_app. simpl.
    assert (length (delete d l) = length l - 1)%nat as Hlen
      by by apply length_delete, lookup_lt_is_Some_2.
    specialize (IH (delete d l) Hsorted). rewrite Hlen in IH.
    assert (Forall (fun d0 => d0 < length l - 1)%nat init) as Hinit.
    { eapply Forall_impl; [exact Hbelow|]. intros x Hx. simpl in Hx. lia. }
    specialize (IH Hinit). lia.
Qed.

(** An item that is not taken out moves down by the number of positions
    taken out below it. *)
Lemma delete_each_lookup others l i :
  StronglySorted lt others ->
  i ∉ others ->
  delete_each (rev others) l !! (i - below others i)%nat = l !! i.
Proof.
  revert l i. induction others as [|d init IH] using rev_ind; intros l i Hsorted Hi.
  - simpl. by rewrite Nat.sub_0_r.
  - apply sorted_snoc in Hsorted as [Hsorted Hbelow].
    rewrite delete_each_snoc. unfold below. rewrite filter_app, length_app.
    apply not_elem_of_app in Hi as [Hinit Hd%not_elem_of_cons].
    destruct Hd as [Hd _]. rewrite Forall_forall in Hbelow.
    destruct (decide (i < d)%nat) as [Hlt|Hge].
    + rewrite filter_cons_False by lia. simpl. rewrite Nat.add_0_r.
      rewrite (IH (delete d l) i Hsorted Hinit). by apply list_lookup_delete_lt.
    + rewrite filter_cons_True by lia. simpl.
      assert (filter (fun d0 => d0 < i)%nat init = init) as Hall.
      { apply filter_all, Forall_forall. intros x Hx.
        specialize (Hbelow x Hx). simpl in Hbelow. lia. }
      assert (filter (fun d0 => d0 < i - 1)%nat init = init) as Hall'.
      { apply filter_all, Forall_forall. intros x Hx.
        specialize (Hbelow x Hx). simpl in Hbelow. lia. }
      rewrite Hall.
      replace (i - (length init + 1))%nat with (i - 1 - below init (i - 1))%nat
        by (unfold below; rewrite Hall'; lia).
      rewrite (IH (delete d l) (i - 1)%nat Hsorted).
      * rewrite list_lookup_delete_ge by lia. f_equal. lia.
      * intros Hin. specialize (Hbelow _ Hin). simpl in Hbelow. lia.
Qed.
End delete_each_facts.

(** On a registry of one name for every slot, the loop over ascending
    positions, run from the highest down, removes them in both lists. *)
Lemma del_slot_loop_run others self :
  aligned self ->
  StronglySorted lt others ->
  Forall (fun d => d < length (_parameters self))%nat others ->
  for_in del_slot (rev others) self
  = (OK tt, mkModel (delete_each (rev others) (_parameters self))
                    (delete_each (rev others) (_parameter_names self))
                    (_maps self)).
Proof.
  revert self. induction others as [|d init IH] using rev_ind;
    intros self Haligned Hsorted Hbound.
  - simpl. by destruct self.
  - apply sorted_snoc in Hsorted as [Hsorted Hbelow].
    apply Forall_app in Hbound as [Hbound [Hd _]%Forall_cons].
    rewrite !delete_each_snoc, rev_unit. cbn [for_in].
    unfold mbind at 1, py_bind, del_slot, mbind, py_bind, get_parameters, lift,
      set_parameters, get_parameter_names, set_parameter_names, delitem.
    cbn [_parameters _parameter_names _maps].
    unfold aligned in Haligned.
    rewrite decide_True by done. rewrite decide_True by (by rewrite <- Haligned).
    rewrite IH; [done| | |].
    + unfold aligned. cbn [_parameters _parameter_names].
      rewrite !length_delete by (apply lookup_lt_is_Some_2; lia). lia.
    + done.
    + cbn [_parameters]. rewrite length_delete by (by apply lookup_lt_is_Some_2).
      eapply Forall_impl; [exact Hbelow|]. intros x Hx. simpl in Hx. lia.
Qed.

(** When every name is present and refers to a prior equal to the first,
    the validation loop collects the position of each name in turn. *)
Lemma add_tie_indices_collects mem self tie first todo indices :
  aligned self ->
  getitem tie 0 = OK first ->
  first ∈ _parameter_names self ->
  (forall par, par ∈ todo ->
     par ∈ _parameter_names self /\
     referenced_value mem self par = referenced_value mem self first) ->
  exists found,
    Forall2 (fun par i => list_index par (_parameter_names self) = Some i) todo found /\
    add_tie_indices mem tie todo indices self = (OK (indices ++ found), self).
Proof.
  intros Haligned Hfirst Hin. revert indices.
  induction todo as [|par todo IH]; intros indices Hall.
  - exists []. split; [constructor|]. by rewrite app_nil_r.
  - destruct (Hall par) as [Hpar Hvalue]; [left|].
    destruct (add_tie_indices_equal mem self tie first Haligned Hfirst Hin
                par todo indices Hpar Hvalue) as (index & Hindex & ->).
    destruct (IH (indices ++ [index])) as (found & Hfound & ->).
    { intros q Hq. apply Hall. by right. }
    exists (index :: found). split; [by constructor|]. by rewrite <- app_assoc.
Qed.

Lemma collected_positions (names : list string) todo found :
  Forall2 (fun par i => list_index par names = Some i) todo found ->
  NoDup todo ->
  NoDup found /\
  Forall (fun i => i < length names)%nat found /\
  (forall i, i ∈ found <-> exists par, par ∈ todo /\ list_index par names = Some i).
Proof.
  induction 1 as [|par i todo found Hpar _ IH]; intros Hdistinct.
  - split; [constructor|]. split; [constructor|]. intros i. split.
    + by intros ?%elem_of_nil.
    + by intros (par & ?%elem_of_nil & _).
  - apply NoDup_cons in Hdistinct as [Hnew Hdistinct].
    destruct (IH Hdistinct) as (Hfound & Hbound & Hiff).
    split; [|split].
    + apply NoDup_cons. split; [|done]. intros (q & Hq & Hqi)%Hiff.
      apply list_index_Some in Hpar, Hqi. congruence.
    + constructor; [|done]. apply list_index_Some in Hpar. by eapply lookup_lt_Some.
    + intros j. rewrite elem_of_cons, Hiff. split.
      * intros [->|(q & Hq & Hqj)].
        -- exists par. split; [left|done].
        -- exists q. split; [by right|done].
      * intros (q & [->|Hq]%elem_of_cons & Hqj).
        -- left. congruence.
        -- right. by exists q.
Qed.

Lemma sorted_distinct (l : list nat) :
  StronglySorted le l -> NoDup l -> StronglySorted lt l.
Proof.
  induction 1 as [|x l _ IH Hle]; intros Hdistinct; [constructor|].
  apply NoDup_cons in Hdistinct as [Hnew Hdistinct].
  constructor; [by apply IH|].
  rewrite Forall_forall in *. intros y Hy. specialize (Hle y Hy).
  assert (x <> y) by (by intros ->). lia.
Qed.

Lemma sorted_room (n x : nat) (l : list nat) :
  StronglySorted lt (x :: l) ->
  Forall (fun i => i < n)%nat (x :: l) ->
  (x + length l < n)%nat.
Proof.
  revert x. induction l as [|y l IH]; intros x Hsorted Hbound.
  - apply Forall_cons in Hbound as [Hx _]. simpl. lia.
  - apply StronglySorted_inv in Hsorted as [Hsorted Hlt].
    apply Forall_cons in Hlt as [Hxy _].
    apply Forall_cons in Hbound as [_ Hbound].
    specialize (IH y Hsorted Hbound). simpl. lia.
Qed.

(** A tie of distinct names that are present and refer to equal priors
    completes: the positions of the names, in ascending order, are
    [lowest :: others]; the slots at [others] leave both lists; the map of
    every key is renumbered. *)
Lemma add_tie_runs mem self tie new_name :
  aligned self ->
  NoDup (_maps self).*1 ->
  Forall (fun kv => slot_map (Z.of_nat (length (_parameters self))) kv.2 = true)
         (_maps self) ->
  tie <> [] ->
  NoDup tie ->
  (forall par, par ∈ tie -> par ∈ _parameter_names self) ->
  (forall p q, p ∈ tie -> q ∈ tie ->
     referenced_value mem self p = referenced_value mem self q) ->
  exists lowest others,
    StronglySorted lt (lowest :: others) /\
    (forall i, i ∈ lowest :: others <->
       exists par, par ∈ tie /\ list_index par (_parameter_names self) = Some i) /\
    (lowest + length others < length (_parameters self))%nat /\
    add_tie mem tie new_name self
    = (OK tt,
       mkModel (delete_each (rev others) (_parameters self))
         (match new_name with
          | Some new_name =>
              <[lowest := new_name]> (delete_each (rev others) (_parameter_names self))
          | None => delete_each (rev others) (_parameter_names self)
          end)
         ((fun kv => (kv.1, retarget (renumbering (Z.of_nat lowest)
                                        (Z.of_nat <$> others)) kv.2))
            <$> _maps self)).
Proof.
  intros Haligned Hkeys Hmaps Hnonempty Hdistinct Hpresent Hequal.
  destruct tie as [|first tie']; [done|]. set (tie := first :: tie') in *.
  assert (getitem tie 0 = OK first) as Hfirst by reflexivity.
  assert (first ∈ tie) as Hfirst_in by left.
  destruct (add_tie_indices_collects mem self tie first tie [] Haligned Hfirst
              (Hpresent _ Hfirst_in)) as (found & Hfound & Hrun).
  { intros par Hpar. split; [by apply Hpresent|by apply Hequal]. }
  destruct (collected_positions _ _ _ Hfound Hdistinct) as (Hnodup & Hbound & Hiff).
  pose proof (merge_sort_Permutation Nat.le found) as Hperm.
  assert (StronglySorted lt (merge_sort Nat.le found)) as Hsorted.
  { apply sorted_distinct; [apply (StronglySorted_merge_sort _)|by rewrite Hperm]. }
  rewrite <- Hperm in Hbound.
  assert (forall i, i ∈ merge_sort Nat.le found <->
            exists par, par ∈ tie /\ list_index par (_parameter_names self) = Some i)
    as Hiff'.
  { intros i. by rewrite Hperm. }
  destruct (merge_sort Nat.le found) as [|lowest others] eqn:Hindices.
  { apply Permutation_nil_l in Hperm. subst found.
    apply Forall2_length in Hfound. discriminate Hfound. }
  unfold aligned in Haligned.
  assert (lowest + length others < length (_parameters self))%nat as Hroom.
  { rewrite Haligned. by apply sorted_room. }
  exists lowest, others. split; [done|]. split; [done|]. split; [done|].
  apply StronglySorted_inv in Hsorted as [Hsorted Hlowest].
  apply Forall_cons in Hbound as [_ Hbound].
  unfold add_tie. unfold mbind at 1, py_bind. rewrite Hrun. cbn [app].
  rewrite Hindices. change (drop 1 (lowest :: others)) with others.
  unfold mbind at 1, py_bind.
  rewrite del_slot_loop_run; [|done|done|by rewrite Haligned].
  pose proof (delete_each_length others (_parameter_names self) Hsorted Hbound)
    as Hlength.
  assert (Forall (fun kv : string * pyobj =>
            (val ← edit_map_indices kv.2 (Z.of_nat <$> lowest :: others); OK (kv.1, val))
            = OK (kv.1, retarget (renumbering (Z.of_nat lowest) (Z.of_nat <$> others))
                          kv.2)) (_maps self)) as Hedit.
  { eapply Forall_impl; [exact Hmaps|]. intros [key map_entry] Hslots.
    cbn [fst snd] in *. rewrite fmap_cons.
    by erewrite edit_map_indices_retarget. }
  apply comprehension_OK in Hedit.
  assert (dict_of ((fun kv : string * pyobj =>
            (kv.1, retarget (renumbering (Z.of_nat lowest) (Z.of_nat <$> others)) kv.2))
            <$> _maps self)
          = (fun kv : string * pyobj =>
            (kv.1, retarget (renumbering (Z.of_nat lowest) (Z.of_nat <$> others)) kv.2))
            <$> _maps self) as Hdict.
  { apply dict_of_NoDup. rewrite <- list_fmap_compose. exact Hkeys. }
  destruct new_name as [new_name|].
  - unfold mbind at 1, py_bind. unfold mbind at 1, py_bind, lift.
    change ((lowest :: others) !! 0%nat) with (Some lowest). cbn [from_some].
    unfold mbind at 1, py_bind, get_parameter_names. cbn [_parameter_names].
    unfold mbind at 1, py_bind, lift, setitem.
    rewrite decide_True by lia. unfold set_parameter_names.
    cbn [_parameters _parameter_names _maps].
    unfold mbind at 1, py_bind, get_maps. cbn [_maps].
    unfold mbind at 1, py_bind, lift. rewrite Hedit.
    unfold set_maps. cbn [_parameters _parameter_names _maps]. by rewrite Hdict.
  - unfold mbind at 1, py_bind. unfold mret at 1, py_ret.
    unfold mbind at 1, py_bind, get_maps. cbn [_maps].
    unfold mbind at 1, py_bind, lift. rewrite Hedit.
    unfold set_maps. cbn [_parameters _parameter_names _maps]. by rewrite Hdict.
Qed.

(** X7.  A tie of distinct names that are present and refer to equal
    priors completes.  The positions of the names, in ascending order, are
    [lowest :: others]: the slots at [others] leave the registry, the slot
    at [lowest] stays and takes the new name if one is given, every other
    slot moves down by the number of removed slots below it, and the map of
    every key is renumbered accordingly. *)
Theorem add_tie_completes mem self tie new_name :
  well_formed self ->
  tieable mem self tie ->
  exists lowest others self',
    add_tie mem tie new_name self = (OK tt, self') /\
    StronglySorted lt (lowest :: others) /\
    (forall i, i ∈ lowest :: others <->
       exists par, par ∈ tie /\ list_index par (_parameter_names self) = Some i) /\
    (length (_parameters self') + length others = length (_parameters self))%nat /\
    (forall i, i ∉ others ->
       _parameters self' !! (i - below others i)%nat = _parameters self !! i) /\
    (forall i, i ∉ others ->
       _parameter_names self' !! (i - below others i)%nat
       = if decide (i = lowest) then from_option Some (_parameter_names self !! i) new_name
         else _parameter_names self !! i) /\
    _maps self'
    = (fun kv => (kv.1, retarget (renumbering (Z.of_nat lowest) (Z.of_nat <$> others))
                          kv.2)) <$> _maps self.
Proof.
  intros (Haligned & Hkeys & Hmaps) (Hnonempty & Hdistinct & Hpresent & Hequal).
  destruct (add_tie_runs mem self tie new_name Haligned Hkeys) as
    (lowest & others & Hsorted & Hiff & Hroom & Hrun); try done.
  { eapply Forall_impl; [exact Hmaps|]. by intros kv [_ Hslots]. }
  exists lowest, others. eexists. split; [exact Hrun|].
  cbn [_parameters _parameter_names _maps].
  pose proof Hsorted as [Hothers Hlowest]%StronglySorted_inv.
  assert (Forall (fun d => d < length (_parameters self))%nat others) as Hbound.
  { apply Forall_forall. intros d Hd.
    destruct (proj1 (Hiff d)) as (par & _ & Hindex); [by right|].
    apply list_index_Some, lookup_lt_Some in Hindex. unfold aligned in Haligned. lia. }
  assert (below others lowest = 0%nat) as Hnone.
  { unfold below. rewrite Forall_forall in Hlowest.
    destruct (filter (fun d => d < lowest)%nat others) as [|d rest] eqn:Hfilter; [done|].
    assert (d ∈ filter (fun d => d < lowest)%nat others) as Hd by (rewrite Hfilter; left).
    apply list_elem_of_filter in Hd as [Hlt Hd]. specialize (Hlowest d Hd). lia. }
  split; [done|]. split; [done|].
  split; [by apply delete_each_length|].
  split; [intros i Hi; by apply delete_each_lookup|].
  split; [|done].
  intros i Hi. destruct new_name as [new_name|]; cbn [from_option].
  - destruct (decide (i = lowest)) as [->|Hne].
    + rewrite Hnone, Nat.sub_0_r.
      apply list_lookup_insert_eq.
      pose proof (delete_each_length others (_parameter_names self) Hothers) as Hlen.
      unfold aligned in Haligned. rewrite Haligned in Hbound. specialize (Hlen Hbound).
      lia.
    + rewrite list_lookup_insert_ne; [by apply delete_each_lookup|].
      intros Heq. apply Hne. unfold below in *.
      destruct (decide (i < lowest)%nat) as [Hlt|Hge].
      * assert (filter (fun d => d < i)%nat others = []) as Hfilter.
        { rewrite Forall_forall in Hlowest.
          destruct (filter (fun d => d < i)%nat others) as [|d rest] eqn:Hfilter; [done|].
          assert (d ∈ filter (fun d => d < i)%nat others) as Hd by (rewrite Hfilter; left).
          apply list_elem_of_filter in Hd as [Hdi Hd]. specialize (Hlowest d Hd). lia. }
        rewrite Hfilter in Heq. simpl in Heq. lia.
      * exfalso.
        pose proof (sorted_room i lowest (filter (fun d => d < i)%nat others)) as Hfit.
        assert (lowest + length (filter (fun d => d < i)%nat others) < i)%nat; [|lia].
        apply Hfit.
        -- constructor.
           ++ clear -Hothers. induction Hothers as [|d l Hl IH Hd]; [constructor|].
              destruct (decide (d < i)%nat).
              ** rewrite filter_cons_True by done. constructor; [done|].
                 apply Forall_forall. intros x [_ Hx]%list_elem_of_filter.
                 rewrite Forall_forall in Hd. by apply Hd.
              ** by rewrite filter_cons_False.
           ++ apply Forall_forall. intros x [_ Hx]%list_elem_of_filter.
              rewrite Forall_forall in Hlowest. by apply Hlowest.
        -- constructor; [lia|].
           apply Forall_forall. by intros x [Hx _]%list_elem_of_filter.
  - rewrite delete_each_lookup by done. by destruct (decide (i = lowest)).
Qed.

Lemma five_model_well_formed : well_formed five_model.
Proof.
  split; [reflexivity|]. split; [by_evaluation|]. repeat constructor.
Qed.

Lemma five_model_tieable tie :
  tie <> [] -> NoDup tie -> tie ⊆ ["a"; "b"; "c"; "d"; "e"] ->
  tieable uniform_heap five_model tie.
Proof.
  intros Hnonempty Hdistinct Hsub. split; [done|]. split; [done|].
  assert (forall par, par ∈ tie ->
            referenced_value uniform_heap five_model par
            = Some (mkPrior None "Uniform" [0; 1] 0)) as Hvalue.
  { intros par Hpar%Hsub.
    repeat (apply elem_of_cons in Hpar as [->|Hpar]; [reflexivity|]).
    by apply elem_of_nil in Hpar. }
  split.
  - intros par Hpar. by apply Hsub.
  - intros p q Hp Hq. by rewrite !Hvalue.
Qed.

Lemma add_tie_completes_witness :
  exists lowest others self',
    add_tie uniform_heap ["d"; "b"] (Some "bd") five_model = (OK tt, self') /\
    StronglySorted lt (lowest :: others) /\
    (forall i, i ∈ lowest :: others <->
       exists par, par ∈ ["d"; "b"] /\
                   list_index par (_parameter_names five_model) = Some i) /\
    (length (_parameters self') + length others
     = length (_parameters five_model))%nat /\
    (forall i, i ∉ others ->
       _parameters self' !! (i - below others i)%nat = _parameters five_model !! i) /\
    (forall i, i ∉ others ->
       _parameter_names self' !! (i - below others i)%nat
       = if decide (i = lowest)
         then from_option Some (_parameter_names five_model !! i) (Some "bd")
         else _parameter_names five_model !! i) /\
    _maps self'
    = (fun kv => (kv.1, retarget (renumbering (Z.of_nat lowest) (Z.of_nat <$> others))
                          kv.2)) <$> _maps five_model.
Proof.
  apply (add_tie_completes uniform_heap five_model ["d"; "b"] (Some "bd")).
  - apply five_model_well_formed.
  - apply five_model_tieable; [done|by_evaluation|].
    intros par Hpar.
    repeat (apply elem_of_cons in Hpar as [->|Hpar]; [by_evaluation|]).
    by apply elem_of_nil in Hpar.
Defined.

(** ** The maps of a Model keep pointing at slots *)

Lemma sorted_NoDup (l : list nat) : StronglySorted lt l -> NoDup l.
Proof.
  induction 1 as [|x l _ IH Hx]; [constructor|].
  apply NoDup_cons. split; [|done].
  rewrite Forall_forall in Hx. intros Hin. specialize (Hx x Hin). lia.
Qed.

(** Distinct numbers of an interval are no more than the interval holds. *)
Lemma interval_room (a k : nat) (l : list nat) :
  NoDup l -> Forall (fun x => a <= x < a + k)%nat l -> (length l <= k)%nat.
Proof.
  intros Hdistinct Hbound.
  replace k with (length (seq a k)) at 1 by apply length_seq.
  apply submseteq_length, NoDup_submseteq; [done|].
  intros x Hx. rewrite Forall_forall in Hbound. apply elem_of_seq. by apply Hbound.
Qed.

Lemma length_filter_split {A} (P : A -> Prop) `{forall x, Decision (P x)} (l : list A) :
  (length (filter P l) + length (filter (fun x => ~ P x) l) = length l)%nat.
Proof.
  induction l as [|x l IH]; [done|]. destruct (decide (P x)).
  - rewrite filter_cons_True, (filter_cons_False (fun x => ~ P x)) by tauto.
    simpl. lia.
  - rewrite filter_cons_False, (filter_cons_True (fun x => ~ P x)) by tauto.
    simpl. lia.
Qed.

Lemma below_le others i : NoDup others -> (below others i <= i)%nat.
Proof.
  intros Hdistinct. apply (interval_room 0).
  - by apply NoDup_filter.
  - apply Forall_forall. intros x [Hx _]%list_elem_of_filter. lia.
Qed.

Lemma below_room n others i :
  NoDup others ->
  Forall (fun d => d < n)%nat others ->
  i ∉ others ->
  (i < n)%nat ->
  (i - below others i + length others < n)%nat.
Proof.
  intros Hdistinct Hbound Hi Hlt.
  pose proof (below_le others i Hdistinct) as Hle.
  pose proof (length_filter_split (fun d => d < i)%nat others) as Hsplit.
  assert (length (filter (fun d => ~ (d < i)%nat) others) <= n - S i)%nat as Habove.
  { apply (interval_room (S i)).
    - by apply NoDup_filter.
    - apply Forall_forall. intros x [Hx Hin]%list_elem_of_filter.
      rewrite Forall_forall in Hbound. specialize (Hbound x Hin).
      assert (x <> i) by (by intros ->). lia. }
  unfold below in *. lia.
Qed.

Lemma below_none lowest others i :
  Forall (lt lowest) others -> (i <= lowest)%nat -> below others i = 0%nat.
Proof.
  intros Hlowest Hle. unfold below.
  destruct (filter (fun d => d < i)%nat others) as [|d rest] eqn:Hfilter; [done|].
  assert (d ∈ filter (fun d => d < i)%nat others) as Hd by (rewrite Hfilter; left).
  apply list_elem_of_filter in Hd as [Hlt Hd].
  rewrite Forall_forall in Hlowest. specialize (Hlowest d Hd). lia.
Qed.

Lemma count_below_nat others i :
  count_below (Z.of_nat <$> others) (Z.of_nat i) = Z.of_nat (below others i).
Proof.
  unfold count_below, below. f_equal.
  induction others as [|d others IH]; [done|]. rewrite fmap_cons.
  destruct (decide (d < i)%nat).
  - rewrite !filter_cons_True by lia. simpl. by rewrite IH.
  - by rewrite !filter_cons_False by lia.
Qed.

(** The renumbering of [edit_map_indices], on positions: a tied slot goes
    to the lowest tied slot, and any other slot moves down by the number of
    removed slots below it. *)
Lemma renumbering_nat lowest others i :
  StronglySorted lt (lowest :: others) ->
  renumbering (Z.of_nat lowest) (Z.of_nat <$> others) (Z.of_nat i)
  = Z.of_nat (if decide (i ∈ others) then lowest else i - below others i).
Proof.
  intros [Hsorted Hlowest]%StronglySorted_inv.
  pose proof (sorted_NoDup _ Hsorted) as Hdistinct.
  assert (Z.of_nat i ∈ Z.of_nat lowest :: (Z.of_nat <$> others)
          <-> i ∈ lowest :: others) as Hin.
  { rewrite <- fmap_cons. split.
    - intros (j & Hj & Hin)%list_elem_of_fmap. by apply Nat2Z.inj in Hj as ->.
    - intros Hin. apply list_elem_of_fmap. by exists i. }
  unfold renumbering.
  destruct (decide (Z.of_nat i ∈ Z.of_nat lowest :: (Z.of_nat <$> others)))
    as [Htied|Hfree].
  - apply Hin, elem_of_cons in Htied as [->|Htied].
    + destruct (decide (lowest ∈ others)); [done|].
      rewrite (below_none lowest) by done. f_equal. lia.
    + by rewrite decide_True.
  - rewrite Hin in Hfree. apply not_elem_of_cons in Hfree as [Hne Hfree].
    rewrite (decide_False (P := i ∈ others)) by done.
    destruct (decide (Z.of_nat i < Z.of_nat lowest)) as [Hlt|Hge].
    + rewrite (below_none lowest) by (done || lia). f_equal. lia.
    + rewrite count_below_nat. pose proof (below_le others i Hdistinct). lia.
Qed.

(** After a tie every renumbered slot is a slot of the shorter registry. *)
Lemma renumbering_range n lowest others i :
  StronglySorted lt (lowest :: others) ->
  Forall (fun d => d < n)%nat (lowest :: others) ->
  0 <= i < Z.of_nat n ->
  0 <= renumbering (Z.of_nat lowest) (Z.of_nat <$> others) i
    < Z.of_nat (n - length others).
Proof.
  intros Hsorted Hbound Hi.
  rewrite <- (Z2Nat.id i) by lia. rewrite renumbering_nat by done.
  pose proof (sorted_room n lowest others Hsorted Hbound) as Hroom.
  pose proof Hsorted as [Hothers _]%StronglySorted_inv.
  apply Forall_cons in Hbound as [_ Hbound].
  destruct (decide (Z.to_nat i ∈ others)) as [Htied|Hfree]; [lia|].
  pose proof (below_room n others (Z.to_nat i) (sorted_NoDup _ Hothers) Hbound Hfree).
  lia.
Qed.

Lemma retarget_slot_map n n' renumbering map_entry :
  (forall i, 0 <= i < n -> 0 <= renumbering i < n') ->
  slot_map n map_entry = true ->
  slot_map n' (retarget renumbering map_entry) = true.
Proof.
  intros Hrange.
  induction map_entry as [| | | s | | items IH | | | | | |] using pyobj_induction;
    try done.
  - cbn [slot_map retarget]. destruct (is_placeholder s) eqn:Hs.
    + destruct (PyString.int (PyString.slice_from 11 s)) as [i|]; [|done].
      intros [Hi _]%bool_decide_eq_true. by apply slot_map_placeholder, Hrange.
    + intros _. cbn [slot_map]. by rewrite Hs.
  - cbn [slot_map retarget]. rewrite !forallb_forall. intros Hall item Hitem.
    apply list_elem_of_In, list_elem_of_fmap in Hitem as (item' & -> & Hitem').
    rewrite Forall_forall in IH. apply IH; [done|]. by apply Hall, list_elem_of_In.
Qed.

Lemma retarget_list_map renumbering map_entry :
  list_map map_entry = true -> list_map (retarget renumbering map_entry) = true.
Proof.
  induction map_entry as [| | | s | | items IH | | | | | |] using pyobj_induction;
    try done.
  - intros _. cbn [retarget]. destruct (is_placeholder s); [|done].
    by destruct (PyString.int (PyString.slice_from 11 s)).
  - cbn [list_map retarget]. rewrite !forallb_forall. intros Hall item Hitem.
    apply list_elem_of_In, list_elem_of_fmap in Hitem as (item' & -> & Hitem').
    rewrite Forall_forall in IH. apply IH; [done|]. by apply Hall, list_elem_of_In.
Qed.

Lemma dict_set_NoDup {K V} `{EqDecision K} (d : list (K * V)) k v :
  NoDup d.*1 -> NoDup (dict_set d k v).*1.
Proof.
  induction d as [|[k0 v0] d IH]; simpl.
  - intros _. apply NoDup_singleton.
  - intros [Hnew Hrest]%NoDup_cons. destruct (decide (k0 = k)) as [->|Hne]; simpl.
    + by apply NoDup_cons.
    + apply NoDup_cons. split; [|by apply IH].
      rewrite dict_set_keys. intros [->|Hin]; done.
Qed.

Lemma dict_set_Forall {K V} `{EqDecision K} (P : K * V -> Prop) (d : list (K * V)) k v :
  Forall P d -> P (k, v) -> Forall P (dict_set d k v).
Proof.
  intros Hd Hkv. induction Hd as [|[k0 v0] d H0 Hd IH]; simpl.
  - by constructor.
  - destruct (decide (k0 = k)); by constructor.
Qed.

Lemma delete_each_sublist {A} (positions : list nat) (l : list A) :
  delete_each positions l `sublist_of` l.
Proof.
  revert l. induction positions as [|d positions IH]; intros l; [done|].
  simpl. etrans; [apply IH|apply sublist_delete].
Qed.

Lemma well_formed_grow self self' :
  extends self self' ->
  Forall (fun kv : string * pyobj =>
            list_map kv.2 = true /\
            slot_map (Z.of_nat (length (_parameters self))) kv.2 = true) (_maps self) ->
  Forall (fun kv : string * pyobj =>
            list_map kv.2 = true /\
            slot_map (Z.of_nat (length (_parameters self'))) kv.2 = true) (_maps self).
Proof.
  intros Hext Hmaps. eapply Forall_impl; [exact Hmaps|].
  intros kv [Hshape Hslots]. split; [done|].
  eapply slot_map_mono; [by apply extends_length|done].
Qed.

(** [Model.__init__] on clean configurations. *)
Lemma Model_init_well_formed mem scatterer_parameters optics_parameters self0 :
  clean scatterer_parameters = true ->
  clean optics_parameters = true ->
  exists self,
    Model_init mem scatterer_parameters optics_parameters self0 = (OK tt, self) /\
    well_formed self /\ NoDup (_parameters self).
Proof.
  intros Hscatterer Hoptics. unfold Model_init.
  unfold mbind at 1, py_bind, set_parameters. cbn [_parameter_names _maps].
  unfold mbind at 1, py_bind, set_parameter_names. cbn [_parameters _maps].
  set (self1 := mkModel [] [] (_maps self0)).
  destruct (convert_registers mem scatterer_parameters "" self1 eq_refl)
    as (M1 & self2 & Hrun1 & Hext1 & Hps1 & Hshape1 & Hslots1).
  destruct (convert_registers mem optics_parameters "" self2 (proj1 Hext1))
    as (M2 & self3 & Hrun2 & Hext2 & Hps2 & Hshape2 & Hslots2).
  unfold mbind at 1, py_bind. rewrite Hrun1.
  unfold mbind at 1, py_bind. rewrite Hrun2.
  eexists. split; [reflexivity|]. split; [split; [|split]|].
  - apply Hext2.
  - by_evaluation.
  - cbn [_maps _parameters].
    change (dict_of [("scatterer", M1); ("optics", M2)])
      with [("scatterer", M1); ("optics", M2)].
    constructor; [|constructor; [|constructor]]; cbn [snd].
    + split; [done|]. eapply slot_map_mono; [by apply extends_length|by apply Hslots1].
    + split; [done|]. by apply Hslots2.
  - cbn [_parameters]. rewrite Hps2, Hps1.
    apply register_all_NoDup, register_all_NoDup. constructor.
Qed.

(** A subclass adds the map of a clean configuration. *)
Lemma Model_add_map_well_formed mem key parameter self :
  well_formed self ->
  NoDup (_parameters self) ->
  clean parameter = true ->
  exists self',
    Model_add_map mem key parameter self = (OK tt, self') /\
    well_formed self' /\ NoDup (_parameters self').
Proof.
  intros (Haligned & Hkeys & Hmaps) Hdistinct Hclean. unfold Model_add_map.
  destruct (convert_registers mem parameter "" self Haligned)
    as (M & self1 & Hrun & Hext & Hps & Hshape & Hslots).
  unfold mbind at 1, py_bind. rewrite Hrun.
  unfold mbind at 1, py_bind, get_maps, set_maps.
  eexists. split; [reflexivity|]. cbn [_parameters _parameter_names _maps].
  destruct Hext as (Haligned1 & Hsame & Hprefix & Hnames).
  split; [split; [|split]|].
  - exact Haligned1.
  - cbn [_maps]. rewrite Hsame. by apply dict_set_NoDup.
  - cbn [_maps _parameters]. rewrite Hsame. apply dict_set_Forall.
    + by apply (well_formed_grow self self1).
    + split; [done|]. by apply Hslots.
  - rewrite Hps. by apply register_all_NoDup.
Qed.

Lemma comprehension_inv {A B} (f : A -> result B) l ys :
  comprehension f l = OK ys -> Forall2 (fun x y => f x = OK y) l ys.
Proof.
  revert ys. induction l as [|x l IH]; intros ys; simpl.
  - intros [= <-]. constructor.
  - destruct (f x) as [y|e] eqn:Hx; [|done]. simpl.
    destruct (comprehension f l) as [ys'|e]; [|done]. simpl.
    intros [= <-]. constructor; [done|by apply IH].
Qed.

(** With no index to tie, [edit_map_indices] raises on the first
    placeholder, and returns a map without placeholders as it is. *)
Lemma edit_map_indices_empty map_entry map_entry' :
  edit_map_indices map_entry [] = OK map_entry' -> map_entry' = map_entry.
Proof.
  revert map_entry'.
  induction map_entry as [| | | s | | items IH | | | | | |] using pyobj_induction;
    intros map_entry'; cbn [edit_map_indices]; try (by intros [= <-]).
  - destruct (is_placeholder s); [|by intros [= <-]].
    destruct (PyString.int (PyString.split_last "_" s)) as [i|]; [|done].
    by cbn.
  - destruct (comprehension (fun item => edit_map_indices item []) items)
      as [items'|e] eqn:Hitems; [|done].
    intros [= <-]. f_equal. apply comprehension_inv in Hitems.
    induction Hitems as [|item item' items items' Hitem _ IHitems]; [done|].
    apply Forall_cons in IH as [IHitem IH]. f_equal; [by apply IHitem|by apply IHitems].
Qed.

(** A tie of no name leaves [self] as it is, whatever it returns. *)
Lemma add_tie_nothing mem new_name self outcome self' :
  NoDup (_maps self).*1 ->
  add_tie mem [] new_name self = (outcome, self') -> self' = self.
Proof.
  intros Hkeys. unfold add_tie.
  unfold mbind at 1, py_bind. cbn [add_tie_indices]. unfold mret at 1, py_ret.
  change (merge_sort Nat.le []) with (@nil nat). cbn [drop rev for_in fmap list_fmap].
  unfold mbind at 1, py_bind. unfold mret at 1, py_ret.
  destruct new_name as [new_name|].
  - unfold mbind at 1, py_bind. unfold mbind at 1, py_bind, lift. cbn.
    by intros [= _ <-].
  - unfold mbind at 1, py_bind. unfold mret at 1, py_ret.
    unfold mbind at 1, py_bind, get_maps.
    unfold mbind at 1, py_bind, lift.
    destruct (comprehension _ (_maps self)) as [maps'|e] eqn:Hmaps;
      [|by intros [= _ <-]].
    unfold set_maps. intros [= _ <-].
    assert (maps' = _maps self) as ->.
    { apply comprehension_inv in Hmaps. clear Hkeys.
      induction Hmaps as [|[key val] kv' maps maps' Hkv _ IH]; [done|].
      f_equal; [|done]. cbn [fst snd] in Hkv.
      destruct (edit_map_indices val []) as [val'|e] eqn:Hval; [|done].
      apply edit_map_indices_empty in Hval as ->. by injection Hkv as <-. }
    rewrite dict_of_NoDup by done. by destruct self.
Qed.

(** The validation loop either raises, leaving [self] as it is, or every
    name is present and refers to a prior equal to the first. *)
Lemma add_tie_validation mem self tie :
  aligned self ->
  (exists e, add_tie_indices mem tie tie [] self = (Raise e, self)) \/
  ((forall par, par ∈ tie -> par ∈ _parameter_names self) /\
   (forall p q, p ∈ tie -> q ∈ tie ->
      referenced_value mem self p = referenced_value mem self q)).
Proof.
  intros Haligned. destruct tie as [|first tie'].
  { right. split; [by intros par ?%elem_of_nil|by intros p q ?%elem_of_nil]. }
  set (tie := first :: tie').
  assert (getitem tie 0 = OK first) as Hfirst by reflexivity.
  destruct (decide (first ∈ _parameter_names self)) as [Hin|Hout].
  - destruct (decide (Forall (fun par => par ∈ _parameter_names self) tie))
      as [Hpresent|Habsent].
    + rewrite Forall_forall in Hpresent.
      destruct (add_tie_indices_present mem self tie first Haligned Hfirst Hin tie []
                  Hpresent) as [[Hequal _]|(par & _ & _ & Hrun)].
      * right. split; [done|]. rewrite Forall_forall in Hequal.
        intros p q Hp Hq. by rewrite (Hequal p Hp), (Hequal q Hq).
      * left. by eexists.
    + apply not_Forall_Exists in Habsent; [|apply _].
      apply Exists_exists in Habsent as (par & Hpar & Hout).
      destruct (first_failure (fun par => par ∈ _parameter_names self) tie par Hpar Hout)
        as (before & y & after & Htie & Hy & Hbefore).
      rewrite Forall_forall in Hbefore. left.
      destruct (add_tie_indices_first_absent mem self tie first Haligned Hfirst Hin
                  before y after [] Hbefore Hy) as [Hrun|(q & _ & _ & Hrun)];
        rewrite <- Htie in Hrun; by eexists.
  - left. eexists. by apply add_tie_indices_absent.
Qed.

(** Whatever [add_tie] returns for distinct names, it leaves a registry
    of one name for every slot, without a prior at two slots, and maps
    whose placeholders stand for slots of that registry. *)
Lemma add_tie_well_formed mem tie new_name self outcome self' :
  well_formed self ->
  NoDup (_parameters self) ->
  NoDup tie ->
  add_tie mem tie new_name self = (outcome, self') ->
  well_formed self' /\ NoDup (_parameters self').
Proof.
  intros Hformed Hpriors Hdistinct Hrun.
  destruct (decide (tie = [])) as [->|Hnonempty].
  { apply add_tie_nothing in Hrun as ->; [done|apply Hformed]. }
  destruct (add_tie_validation mem self tie (proj1 Hformed))
    as [[e Hraise]|[Hpresent Hequal]].
  { rewrite (add_tie_validation_raises _ _ new_name _ _ _ Hraise) in Hrun.
    by injection Hrun as _ <-. }
  destruct Hformed as (Haligned & Hkeys & Hmaps).
  destruct (add_tie_runs mem self tie new_name Haligned Hkeys) as
    (lowest & others & Hsorted & Hiff & Hroom & Hdone); try done.
  { eapply Forall_impl; [exact Hmaps|]. by intros kv [_ Hslots]. }
  rewrite Hdone in Hrun. injection Hrun as _ <-.
  pose proof Hsorted as [Hothers Hlowest]%StronglySorted_inv.
  assert (Forall (fun d => d < length (_parameters self))%nat (lowest :: others))
    as Hbound.
  { apply Forall_forall. intros d (par & _ & Hindex)%Hiff.
    apply list_index_Some, lookup_lt_Some in Hindex. unfold aligned in Haligned. lia. }
  pose proof Hbound as [_ Hbound']%Forall_cons.
  pose proof (delete_each_length others (_parameters self) Hothers Hbound') as Hlen.
  unfold aligned in Haligned.
  assert (length (delete_each (rev others) (_parameter_names self))
          = length (delete_each (rev others) (_parameters self))) as Hnames.
  { rewrite Haligned in Hbound'.
    pose proof (delete_each_length others (_parameter_names self) Hothers Hbound').
    lia. }
  split; [split; [|split]|].
  - unfold aligned. cbn [_parameters _parameter_names].
    destruct new_name; by rewrite ?length_insert.
  - cbn [_maps]. by rewrite <- list_fmap_compose.
  - cbn [_maps _parameters]. apply Forall_fmap.
    eapply Forall_impl; [exact Hmaps|]. intros kv [Hshape Hslots]. cbn [snd].
    split; [by apply retarget_list_map|].
    eapply retarget_slot_map; [|exact Hslots].
    intros i Hi.
    replace (length (delete_each (rev others) (_parameters self)))
      with (length (_parameters self) - length others)%nat by lia.
    by apply renumbering_range.
  - cbn [_parameters]. eapply sublist_NoDup; [exact Hpriors|apply delete_each_sublist].
Qed.

(** X8.  In every Model made of clean configurations, whatever ties of
    distinct names were asked for and whether they were accepted or
    rejected: the registry holds one name for every slot, no prior holds
    two slots, no key has two maps, and every placeholder of every map
    stands for a slot of the registry. *)
Theorem built_models_well_formed mem self :
  well_built mem self -> well_formed self /\ NoDup (_parameters self).
Proof.
  induction 1 as [sp op self0 self Hsp Hop Hrun
                 |key parameter self self' _ [Hformed Hpriors] Hclean Hrun
                 |tie new_name outcome self self' _ [Hformed Hpriors] Hdistinct Hrun].
  - destruct (Model_init_well_formed mem sp op self0 Hsp Hop) as (self1 & Hrun1 & Hgoal).
    rewrite Hrun in Hrun1. by injection Hrun1 as <-.
  - destruct (Model_add_map_well_formed mem key parameter self Hformed Hpriors Hclean)
      as (self1 & Hrun1 & Hgoal).
    rewrite Hrun in Hrun1. by injection Hrun1 as <-.
  - by eapply add_tie_well_formed.
Qed.

Lemma built_models_well_formed_witness :
  exists self,
    add_tie uniform_heap ["d"; "b"] (Some "bd") five_model = (OK tt, self) /\
    well_formed self /\ NoDup (_parameters self).
Proof.
  eexists. split; [vm_compute; reflexivity|].
  apply (built_models_well_formed uniform_heap).
  eapply (built_add_tie uniform_heap ["d"; "b"] (Some "bd") (OK tt) five_model).
  - eapply (built_init uniform_heap five_parameters plain_optics blank);
      [reflexivity|reflexivity|]. vm_compute. reflexivity.
  - by_evaluation.
  - vm_compute. reflexivity.
Defined.

(** ** What a tie means for reading *)

Lemma getitem_nat {A} (l : list A) (i : nat) :
  getitem l (Z.of_nat i) = from_some IndexError (l !! i).
Proof. unfold getitem. rewrite decide_True by lia. by rewrite Nat2Z.id. Qed.

Lemma delete_each_fmap {A B} (f : A -> B) positions (l : list A) :
  f <$> delete_each positions l = delete_each positions (f <$> l).
Proof.
  revert l. induction positions as [|d positions IH]; intros l; [done|].
  simpl. by rewrite IH, list_fmap_delete.
Qed.

(** The shorter vector holds, at the renumbered position of every slot,
    what the tied vector holds at the slot. *)
Lemma tied_vector_lookup {A} lowest others (l : list A) k :
  StronglySorted lt (lowest :: others) ->
  Forall (fun d => d < length l)%nat (lowest :: others) ->
  (k < length l)%nat ->
  delete_each (rev others) l
    !! (if decide (k ∈ others) then lowest else k - below others k)%nat
  = tied_vector lowest others l !! k.
Proof.
  intros [Hothers Hlowest]%StronglySorted_inv [Hlow _]%Forall_cons Hk.
  unfold tied_vector. rewrite list_lookup_imap.
  destruct (lookup_lt_is_Some_2 l k Hk) as [x Hx].
  destruct (lookup_lt_is_Some_2 l lowest Hlow) as [y Hy].
  rewrite Hx. cbn [fmap option_fmap option_map].
  destruct (decide (k ∈ others)) as [Htied|Hfree].
  - rewrite Hy. change (default x (Some y)) with y. rewrite <- Hy.
    rewrite <- (delete_each_lookup others l lowest Hothers).
    + by rewrite (below_none lowest), Nat.sub_0_r.
    + intros Hin. rewrite Forall_forall in Hlowest. specialize (Hlowest _ Hin). lia.
  - rewrite <- Hx. by apply delete_each_lookup.
Qed.

Lemma dict_get_fmap {K V W} `{EqDecision K} (g : V -> W) (d : list (K * V)) k :
  dict_get ((fun kv => (kv.1, g kv.2)) <$> d) k = g <$> dict_get d k.
Proof.
  induction d as [|[k0 v0] d IH]; [done|]. csimpl.
  by destruct (decide (k0 = k)).
Qed.

Lemma dict_get_elem {K V} `{EqDecision K} (d : list (K * V)) k v :
  dict_get d k = Some v -> (k, v) ∈ d.
Proof.
  induction d as [|[k0 v0] d IH]; [done|]. simpl.
  destruct (decide (k0 = k)) as [->|_].
  - intros [= ->]. left.
  - intros Hv. right. by apply IH.
Qed.

(** After a tie that completes, the map of every key reads, against the
    values of the remaining slots, what it read before against the vector
    in which the tied slots held the value of the lowest of them. *)
Lemma add_tie_reads mem self tie new_name :
  well_formed self ->
  tieable mem self tie ->
  exists lowest others self',
    add_tie mem tie new_name self = (OK tt, self') /\
    StronglySorted lt (lowest :: others) /\
    (forall i, i ∈ lowest :: others <->
       exists par, par ∈ tie /\ list_index par (_parameter_names self) = Some i) /\
    _parameters self' = delete_each (rev others) (_parameters self) /\
    forall key map_entry,
      maps_getitem self key = OK map_entry ->
      exists map_entry',
        maps_getitem self' key = OK map_entry' /\
        forall slot : ref -> pyobj,
          read_map map_entry' (slot <$> _parameters self')
          = read_map map_entry
              (tied_vector lowest others (slot <$> _parameters self)).
Proof.
  intros (Haligned & Hkeys & Hmaps) (Hnonempty & Hdistinct & Hpresent & Hequal).
  destruct (add_tie_runs mem self tie new_name Haligned Hkeys) as
    (lowest & others & Hsorted & Hiff & Hroom & Hrun); try done.
  { eapply Forall_impl; [exact Hmaps|]. by intros kv [_ Hslots]. }
  exists lowest, others. eexists. split; [exact Hrun|].
  split; [done|]. split; [done|]. split; [done|].
  intros key map_entry. unfold maps_getitem. cbn [_maps _parameters].
  rewrite dict_get_fmap.
  destruct (dict_get (_maps self) key) as [M|] eqn:Hkey; [|done].
  intros [= ->]. eexists. split; [reflexivity|]. intros slot.
  apply dict_get_elem in Hkey. rewrite Forall_forall in Hmaps.
  destruct (Hmaps _ Hkey) as [Hshape Hslots]. cbn [snd] in *.
  assert (Forall (fun d => d < length (_parameters self))%nat (lowest :: others))
    as Hbound.
  { apply Forall_forall. intros d (par & _ & Hindex)%Hiff.
    apply list_index_Some, lookup_lt_Some in Hindex. unfold aligned in Haligned. lia. }
  eapply read_retargeted; [|done|exact Hslots].
  intros i Hi. rewrite <- (Z2Nat.id i) by lia.
  rewrite renumbering_nat, !getitem_nat by done. f_equal.
  rewrite delete_each_fmap. apply tied_vector_lookup; [done| |].
  - by rewrite length_fmap.
  - rewrite length_fmap. lia.
Qed.

(** X9.  A tie that completes changes what the maps read in one way only:
    the tied slots now share the value of the one that stays.  For every
    key, the new map read against the values of the remaining priors gives
    what the old map gave against the old values with the value of the
    lowest tied slot written over the other tied slots. *)
Theorem tie_shares_one_value mem self tie new_name :
  well_formed self ->
  tieable mem self tie ->
  exists lowest others self',
    add_tie mem tie new_name self = (OK tt, self') /\
    StronglySorted lt (lowest :: others) /\
    (forall i, i ∈ lowest :: others <->
       exists par, par ∈ tie /\ list_index par (_parameter_names self) = Some i) /\
    forall key map_entry,
      maps_getitem self key = OK map_entry ->
      exists map_entry',
        maps_getitem self' key = OK map_entry' /\
        forall slot : ref -> pyobj,
          read_map map_entry' (slot <$> _parameters self')
          = read_map map_entry
              (tied_vector lowest others (slot <$> _parameters self)).
Proof.
  intros Hformed Htie.
  destruct (add_tie_reads mem self tie new_name Hformed Htie)
    as (lowest & others & self' & Hrun & Hsorted & Hiff & _ & Hread).
  by exists lowest, others, self'.
Qed.

Lemma tie_shares_one_value_witness :
  exists lowest others self',
    add_tie uniform_heap ["d"; "b"] None five_model = (OK tt, self') /\
    StronglySorted lt (lowest :: others) /\
    (forall i, i ∈ lowest :: others <->
       exists par, par ∈ ["d"; "b"] /\
                   list_index par (_parameter_names five_model) = Some i) /\
    forall key map_entry,
      maps_getitem five_model key = OK map_entry ->
      exists map_entry',
        maps_getitem self' key = OK map_entry' /\
        forall slot : ref -> pyobj,
          read_map map_entry' (slot <$> _parameters self')
          = read_map map_entry
              (tied_vector lowest others (slot <$> _parameters five_model)).
Proof.
  apply (tie_shares_one_value uniform_heap five_model ["d"; "b"] None).
  - apply five_model_well_formed.
  - apply five_model_tieable; [done|by_evaluation|].
    intros par Hpar.
    repeat (apply elem_of_cons in Hpar as [->|Hpar]; [by_evaluation|]).
    by apply elem_of_nil in Hpar.
Defined.

(** ** The dictionary [parameters] *)

(** X10.  In every Model that [__init__] built, with the maps that
    subclasses added and after any calls of [add_tie] that gave no new
    name, whatever the configurations and the names: the names are
    distinct, one for every slot, and the dictionary [parameters] has one
    entry for every slot, the name at the slot with the prior at the
    slot. *)
Theorem parameters_by_name mem self :
  reachable mem false self ->
  aligned self /\
  NoDup (_parameter_names self) /\
  parameters self = zip (_parameter_names self) (_parameters self) /\
  (forall i name,
     _parameter_names self !! i = Some name ->
     dict_get (parameters self) name = _parameters self !! i).
Proof.
  intros Hreach.
  pose proof (reachable_aligned _ _ _ Hreach) as Haligned.
  pose proof (reachable_names_distinct _ _ Hreach) as Hdistinct.
  split; [done|]. split; [done|]. split; [by apply parameters_distinct|].
  intros i name Hname. rewrite parameters_distinct by done. by apply dict_get_zip.
Qed.

Lemma parameters_by_name_witness :
  aligned five_model /\
  NoDup (_parameter_names five_model) /\
  parameters five_model = zip (_parameter_names five_model) (_parameters five_model) /\
  (forall i name,
     _parameter_names five_model !! i = Some name ->
     dict_get (parameters five_model) name = _parameters five_model !! i).
Proof.
  apply (parameters_by_name uniform_heap five_model).
  apply (reachable_init uniform_heap five_parameters plain_optics blank).
  vm_compute. reflexivity.
Defined.

(** ** Ties of one name *)

Lemma retarget_same n renumbering map_entry :
  (forall i, 0 <= i < n -> renumbering i = i) ->
  slot_map n map_entry = true ->
  retarget renumbering map_entry = map_entry.
Proof.
  intros Hsame.
  induction map_entry as [| | | s | | items IH | | | | | |] using pyobj_induction;
    try done.
  - cbn [slot_map retarget]. destruct (is_placeholder s); [|done].
    destruct (PyString.int (PyString.slice_from 11 s)) as [i|]; [|done].
    intros [Hi ->]%bool_decide_eq_true. by rewrite Hsame.
  - cbn [slot_map retarget]. rewrite forallb_forall. intros Hall. f_equal.
    rewrite <- (list_fmap_id items) at 2. apply list_fmap_ext.
    intros i item Hitem. apply list_elem_of_lookup_2 in Hitem.
    rewrite Forall_forall in IH. apply IH; [done|]. by apply Hall, list_elem_of_In.
Qed.

Lemma renumbering_alone lowest i : renumbering lowest [] i = i.
Proof.
  unfold renumbering, count_below.
  destruct (decide (i ∈ [lowest])) as [->%list_elem_of_singleton|_]; [done|].
  destruct (decide (i < lowest)); [done|]. simpl. lia.
Qed.

(** X11.  A tie of a single name that is present removes no slot and
    leaves every prior and every map as it is: it writes [new_name] over
    the name, or does nothing at all when no new name is given. *)
Theorem single_name_tie_renames mem self name new_name :
  well_formed self ->
  name ∈ _parameter_names self ->
  exists index,
    list_index name (_parameter_names self) = Some index /\
    add_tie mem [name] new_name self
    = (OK tt,
       mkModel (_parameters self)
         (match new_name with
          | Some new_name => <[index := new_name]> (_parameter_names self)
          | None => _parameter_names self
          end)
         (_maps self)).
Proof.
  intros (Haligned & Hkeys & Hmaps) Hin.
  destruct (add_tie_runs mem self [name] new_name Haligned Hkeys) as
    (lowest & others & Hsorted & Hiff & Hroom & Hrun); try done.
  - eapply Forall_impl; [exact Hmaps|]. by intros kv [_ Hslots].
  - apply NoDup_singleton.
  - by intros par ->%list_elem_of_singleton.
  - by intros p q ->%list_elem_of_singleton ->%list_elem_of_singleton.
  - assert (list_index name (_parameter_names self) = Some lowest) as Hindex.
    { destruct (proj1 (Hiff lowest)) as (par & ->%list_elem_of_singleton & Hpar);
        [left|done]. }
    assert (others = []) as ->.
    { destruct others as [|d others]; [done|].
      apply StronglySorted_inv in Hsorted as [_ [Hlt _]%Forall_cons].
      destruct (proj1 (Hiff d)) as (par & ->%list_elem_of_singleton & Hpar);
        [right; left|].
      rewrite Hindex in Hpar. injection Hpar as ->. lia. }
    exists lowest. split; [done|]. rewrite Hrun. f_equal. f_equal.
    rewrite <- (list_fmap_id (_maps self)) at 2. apply list_fmap_ext.
    intros i [key map_entry] Hentry. apply list_elem_of_lookup_2 in Hentry.
    rewrite Forall_forall in Hmaps. destruct (Hmaps _ Hentry) as [_ Hslots].
    cbn [fst snd] in *. unfold id. f_equal.
    eapply retarget_same; [|exact Hslots].
    intros j _. apply renumbering_alone.
Qed.

Lemma single_name_tie_renames_witness :
  exists index,
    list_index "c" (_parameter_names five_model) = Some index /\
    add_tie uniform_heap ["c"] (Some "z") five_model
    = (OK tt,
       mkModel (_parameters five_model)
         (<[index := "z"]> (_parameter_names five_model))
         (_maps five_model)).
Proof.
  apply (single_name_tie_renames uniform_heap five_model "c" (Some "z")).
  - apply five_model_well_formed.
  - by_evaluation.
Defined.

Lemma merge_sort_twice (i : nat) : merge_sort Nat.le [i; i] = [i; i].
Proof.
  pose proof (merge_sort_Permutation Nat.le [i; i]) as Hperm.
  assert (forall x, x ∈ merge_sort Nat.le [i; i] -> x = i) as Hall.
  { intros x Hx. rewrite Hperm in Hx.
    by apply elem_of_cons in Hx as [->| ->%list_elem_of_singleton]. }
  apply Permutation_length in Hperm.
  destruct (merge_sort Nat.le [i; i]) as [|a [|b [|c rest]]]; try done.
  rewrite (Hall a), (Hall b); [done|right; left|left].
Qed.

Lemma renumbering_twice index j :
  renumbering index [index] j = if decide (j <= index) then j else j - 1.
Proof.
  unfold renumbering, count_below.
  destruct (decide (j ∈ [index; index])) as [Hin|Hout].
  - apply elem_of_cons in Hin as [->| ->%list_elem_of_singleton];
      by rewrite decide_True by lia.
  - apply not_elem_of_cons in Hout as [Hne _].
    destruct (decide (j < index)); [by rewrite decide_True by lia|].
    rewrite decide_False by lia. rewrite filter_cons_True by lia. simpl. lia.
Qed.

(** X12.  [add_tie] does not look for a name given twice.  A tie of a
    name with itself passes the checks and removes the slot of the name:
    the prior and its name leave the registry, the later slots move down by
    one, and a placeholder of the removed slot keeps its index, which now
    is the index of the slot that followed, or of no slot if it was the
    last. *)
Theorem tie_with_itself_removes mem self name :
  well_formed self ->
  name ∈ _parameter_names self ->
  exists index,
    list_index name (_parameter_names self) = Some index /\
    add_tie mem [name; name] None self
    = (OK tt,
       mkModel (delete index (_parameters self))
         (delete index (_parameter_names self))
         ((fun kv => (kv.1, retarget (fun j => if decide (j <= Z.of_nat index)
                                               then j else j - 1) kv.2))
            <$> _maps self)) /\
    delete index (_parameters self) !! index = _parameters self !! S index.
Proof.
  intros (Haligned & Hkeys & Hmaps) Hin.
  destruct (list_index_elem _ _ Hin) as [index Hindex].
  exists index. split; [done|]. split; [|by apply list_lookup_delete_ge].
  destruct (add_tie_indices_collects mem self [name; name] name [name; name] []
              Haligned eq_refl Hin) as (found & Hfound & Hrun).
  { by intros par [->| ->%list_elem_of_singleton]%elem_of_cons. }
  assert (found = [index; index]) as ->.
  { apply Forall2_cons_inv_l in Hfound as (i & found' & Hi & Hfound & ->).
    apply Forall2_cons_inv_l in Hfound as (j & found'' & Hj & Hfound & ->).
    apply Forall2_nil_inv_l in Hfound as ->. congruence. }
  assert (index < length (_parameters self))%nat as Hbound.
  { apply list_index_Some, lookup_lt_Some in Hindex. unfold aligned in Haligned. lia. }
  unfold add_tie. unfold mbind at 1, py_bind. rewrite Hrun. cbn [app].
  rewrite merge_sort_twice. change (drop 1 [index; index]) with [index].
  unfold mbind at 1, py_bind.
  rewrite (del_slot_loop_run [index] self Haligned);
    [|repeat constructor|by repeat constructor].
  change (delete_each (rev [index]) (_parameters self))
    with (delete index (_parameters self)).
  change (delete_each (rev [index]) (_parameter_names self))
    with (delete index (_parameter_names self)).
  unfold mbind at 1, py_bind. unfold mret at 1, py_ret.
  unfold mbind at 1, py_bind, get_maps. cbn [_maps].
  unfold mbind at 1, py_bind, lift.
  rewrite (comprehension_OK _
             (fun kv => (kv.1, retarget (fun j => if decide (j <= Z.of_nat index)
                                                  then j else j - 1) kv.2))).
  - unfold set_maps. cbn [_parameters _parameter_names _maps].
    rewrite dict_of_NoDup; [done|]. by rewrite <- list_fmap_compose.
  - eapply Forall_impl; [exact Hmaps|]. intros [key map_entry] [_ Hslots].
    cbn [fst snd] in *. rewrite !fmap_cons.
    erewrite edit_map_indices_retarget by done. cbn. f_equal. f_equal.
    eapply retarget_ext; [exact Hslots|]. intros j _. apply renumbering_twice.
Qed.

Lemma tie_with_itself_removes_witness :
  exists index,
    list_index "e" (_parameter_names five_model) = Some index /\
    add_tie uniform_heap ["e"; "e"] None five_model
    = (OK tt,
       mkModel (delete index (_parameters five_model))
         (delete index (_parameter_names five_model))
         ((fun kv => (kv.1, retarget (fun j => if decide (j <= Z.of_nat index)
                                               then j else j - 1) kv.2))
            <$> _maps five_model)) /\
    delete index (_parameters five_model) !! index = _parameters five_model !! S index.
Proof.
  apply (tie_with_itself_removes uniform_heap five_model "e").
  - apply five_model_well_formed.
  - by_evaluation.
Defined.

(** ** Optics and noise of a Model *)

Lemma agrees_slots slot self : agrees slot self (slot <$> _parameters self).
Proof. intros i r Hi. by rewrite list_lookup_fmap, Hi. Qed.

Lemma substitute_not_None slot c :
  (forall r, scalar_or_prior (slot r) = true) ->
  is_None c = false -> is_None (substitute slot c) = false.
Proof.
  intros Hslot. destruct c as [| | | | | | | | | |real imag|r]; try done.
  - intros _. cbn [substitute]. unfold complex_of.
    by destruct (substitute slot real), (substitute slot imag).
  - intros _. cbn [substitute]. specialize (Hslot r). by destruct (slot r).
Qed.

(** After [__init__], reading the optics map gives the optics that are not
    [None], with the value of every prior. *)
Lemma Model_init_optics mem slot scatterer_parameters
    medium_index illum_wavelen illum_polarization noise_sd self0 :
  (forall r, scalar_or_prior (slot r) = true) ->
  supported medium_index = true ->
  supported illum_wavelen = true ->
  supported illum_polarization = true ->
  supported noise_sd = true ->
  exists self,
    Model_init mem scatterer_parameters
      (optics_parameters_of medium_index illum_wavelen illum_polarization noise_sd)
      self0 = (OK tt, self) /\
    read_group self "optics" (slot <$> _parameters self)
    = Found ((fun kv => (kv.1, substitute slot kv.2))
               <$> filter (fun kv => ¬ is_None kv.2)
                     [(KStr "medium_index", medium_index);
                      (KStr "illum_wavelen", illum_wavelen);
                      (KStr "illum_polarization", illum_polarization);
                      (KStr "noise_sd", noise_sd)]).
Proof.
  intros Hslot Hmi Hwl Hpol Hns. unfold Model_init.
  unfold mbind at 1, py_bind, set_parameters. cbn [_parameter_names _maps].
  unfold mbind at 1, py_bind, set_parameter_names. cbn [_parameters _maps].
  set (self1 := mkModel [] [] (_maps self0)).
  destruct (convert_extends mem scatterer_parameters "" self1 eq_refl)
    as (M1 & self2 & Hrun1 & Hext1).
  change (optics_parameters_of medium_index illum_wavelen illum_polarization noise_sd)
    with (PyDict [(KStr "medium_index", medium_index);
                  (KStr "illum_wavelen", illum_wavelen);
                  (KStr "illum_polarization", illum_polarization);
                  (KStr "noise_sd", noise_sd)]).
  destruct (optional_mapping_reads_back mem slot
              [(KStr "medium_index", medium_index);
               (KStr "illum_wavelen", illum_wavelen);
               (KStr "illum_polarization", illum_polarization);
               (KStr "noise_sd", noise_sd)] "" self2 Hslot (proj1 Hext1))
    as (M2 & self3 & Hrun2 & Hext2 & Hread).
  { by_evaluation. }
  { by repeat constructor. }
  unfold mbind at 1, py_bind. rewrite Hrun1.
  unfold mbind at 1, py_bind. rewrite Hrun2.
  eexists. split; [reflexivity|].
  unfold read_group, maps_getitem, set_maps. cbn [_maps _parameters].
  change (dict_get (dict_of [("scatterer", M1); ("optics", M2)]) "optics")
    with (Some M2).
  cbn [from_some].
  by rewrite (Hread self3 (slot <$> _parameters self3)
                (extends_refl _ (proj1 Hext2)) (agrees_slots slot self3)).
Qed.

Lemma filter_not_None_cons {K} (k : K) (v : pyobj) (items : list (K * pyobj)) :
  filter (fun kv => ¬ is_None kv.2) ((k, v) :: items)
  = if is_None v then filter (fun kv => ¬ is_None kv.2) items
    else (k, v) :: filter (fun kv => ¬ is_None kv.2) items.
Proof.
  destruct (is_None v) eqn:Hv.
  - apply filter_cons_False. cbn [snd]. rewrite Hv. intros Hnot. by apply Hnot.
  - apply filter_cons_True. cbn [snd]. rewrite Hv. intros Hfalse. exact Hfalse.
Qed.

(** What a lookup finds in the optics that were read. *)
Lemma read_optics_get slot (items : list (pykey * pyobj)) k :
  (forall r, scalar_or_prior (slot r) = true) ->
  NoDup items.*1 ->
  not_None (dict_get ((fun kv => (kv.1, substitute slot kv.2))
                        <$> filter (fun kv => ¬ is_None kv.2) items) k)
  = match dict_get items k with
    | Some given => if is_None given then None else Some (substitute slot given)
    | None => None
    end.
Proof.
  intros Hslot. induction items as [|[k0 v0] items IH]; [done|].
  intros [Hnew Hdistinct]%NoDup_cons. rewrite filter_not_None_cons.
  cbn [dict_get]. destruct (is_None v0) eqn:Hv0.
  - rewrite (IH Hdistinct). destruct (decide (k0 = k)) as [->|Hne]; [|done].
    rewrite Hv0. destruct (dict_get items k) as [v|] eqn:Hk; [|done].
    destruct Hnew. apply list_elem_of_fmap. exists (k, v).
    split; [done|by apply dict_get_elem].
  - rewrite fmap_cons. cbn [dict_get fst snd].
    destruct (decide (k0 = k)) as [->|Hne]; [|by apply IH].
    rewrite Hv0. cbn [not_None]. by rewrite substitute_not_None.
Qed.

Lemma find_parameter_given slot (items : list (pykey * pyobj)) sch key given :
  (forall r, scalar_or_prior (slot r) = true) ->
  NoDup items.*1 ->
  dict_get items (KStr key) = Some given ->
  find_parameter ((fun kv => (kv.1, substitute slot kv.2))
                    <$> filter (fun kv => ¬ is_None kv.2) items) sch key
  = optic slot sch key given.
Proof.
  intros Hslot Hdistinct Hgiven. unfold find_parameter, optic.
  rewrite read_optics_get, Hgiven by done. by destruct (is_None given).
Qed.

(** The optics of every Model: the value given to the constructor comes
    before the one of the schema, and the first of the three keys that
    neither has is the one that is reported missing. *)
Lemma find_optics_given mem slot scatterer_parameters
    medium_index illum_wavelen illum_polarization noise_sd self0 sch :
  (forall r, scalar_or_prior (slot r) = true) ->
  supported medium_index = true ->
  supported illum_wavelen = true ->
  supported illum_polarization = true ->
  supported noise_sd = true ->
  exists self,
    Model_init mem scatterer_parameters
      (optics_parameters_of medium_index illum_wavelen illum_polarization noise_sd)
      self0 = (OK tt, self) /\
    _find_optics self (slot <$> _parameters self) sch
    = match optic slot sch "medium_index" medium_index,
            optic slot sch "illum_wavelen" illum_wavelen,
            optic slot sch "illum_polarization" illum_polarization with
      | Found index, Found wavelen, Found polarization =>
          Found [("medium_index", index); ("illum_wavelen", wavelen);
                 ("illum_polarization", polarization)]
      | Fails e, _, _ | Found _, Fails e, _ | Found _, Found _, Fails e => Fails e
      end /\
    _find_noise mem self (slot <$> _parameters self) sch
    = if is_None noise_sd then
        match sch "noise_sd" with
        | None => Fails (NameError "key")
        | Some val =>
            if is_None val then
              if forallb (is_Uniform mem) (_parameters self) then Found (PyNum 1)
              else Fails (MissingParameter "noise_sd for non-uniform priors")
            else Found val
        end
      else Found (substitute slot noise_sd).
Proof.
  intros Hslot Hmi Hwl Hpol Hns.
  destruct (Model_init_optics mem slot scatterer_parameters medium_index illum_wavelen
              illum_polarization noise_sd self0 Hslot Hmi Hwl Hpol Hns)
    as (self & Hrun & Hread).
  exists self. split; [done|].
  assert (NoDup [(KStr "medium_index", medium_index);
                 (KStr "illum_wavelen", illum_wavelen);
                 (KStr "illum_polarization", illum_polarization);
                 (KStr "noise_sd", noise_sd)].*1) as Hdistinct by by_evaluation.
  unfold _find_optics, _find_noise. rewrite Hread. split.
  - change (removelast OPTICS_KEYS)
      with ["medium_index"; "illum_wavelen"; "illum_polarization"].
    cbn [find_each].
    rewrite (find_parameter_given slot _ sch "medium_index" medium_index),
      (find_parameter_given slot _ sch "illum_wavelen" illum_wavelen),
      (find_parameter_given slot _ sch "illum_polarization" illum_polarization)
      by done.
    destruct (optic slot sch "medium_index" medium_index); [|done].
    destruct (optic slot sch "illum_wavelen" illum_wavelen); [|done].
    by destruct (optic slot sch "illum_polarization" illum_polarization).
  - rewrite read_optics_get by done.
    change (dict_get _ (KStr "noise_sd")) with (Some noise_sd).
    cbv beta zeta. destruct (is_None noise_sd) eqn:Ens; rewrite ?Ens.
    + by destruct (sch "noise_sd").
    + by rewrite substitute_not_None.
Qed.

(** X13.  [_find_optics] on the Model that [__init__] built, for the
    values [slot] of its priors and any schema.  Each of the three keys
    gets the value given to the constructor, with the value of every prior
    in it; a key that was not given gets what the schema has, if that is
    not [None]; the first key that neither has is reported by
    [MissingParameter].  The entry [noise_sd] is never part of the
    result. *)
Theorem optics_model_before_schema mem slot scatterer_parameters
    medium_index illum_wavelen illum_polarization noise_sd self0 sch :
  (forall r, scalar_or_prior (slot r) = true) ->
  supported medium_index = true ->
  supported illum_wavelen = true ->
  supported illum_polarization = true ->
  supported noise_sd = true ->
  exists self,
    Model_init mem scatterer_parameters
      (optics_parameters_of medium_index illum_wavelen illum_polarization noise_sd)
      self0 = (OK tt, self) /\
    _find_optics self (slot <$> _parameters self) sch
    = match optic slot sch "medium_index" medium_index,
            optic slot sch "illum_wavelen" illum_wavelen,
            optic slot sch "illum_polarization" illum_polarization with
      | Found index, Found wavelen, Found polarization =>
          Found [("medium_index", index); ("illum_wavelen", wavelen);
                 ("illum_polarization", polarization)]
      | Fails e, _, _ | Found _, Fails e, _ | Found _, Found _, Fails e => Fails e
      end.
Proof.
  intros Hslot Hmi Hwl Hpol Hns.
  destruct (find_optics_given mem slot scatterer_parameters medium_index illum_wavelen
              illum_polarization noise_sd self0 sch Hslot Hmi Hwl Hpol Hns)
    as (self & Hrun & Hoptics & _).
  by exists self.
Qed.

Lemma optics_model_before_schema_witness :
  exists self,
    Model_init bounded_heap sphere_parameters
      (optics_parameters_of (PyPrior 7%N) PyNone (PyTuple [PyNum 1; PyNum 0]) PyNone)
      blank = (OK tt, self) /\
    _find_optics self (guess_of bounded_heap <$> _parameters self)
      (fun key => if String.eqb key "illum_wavelen" then Some (PyNum 660) else None)
    = Found [("medium_index", PyNum 7); ("illum_wavelen", PyNum 660);
             ("illum_polarization", PyList [PyNum 1; PyNum 0])].
Proof.
  apply (optics_model_before_schema bounded_heap (guess_of bounded_heap)
           sphere_parameters (PyPrior 7%N) PyNone (PyTuple [PyNum 1; PyNum 0]) PyNone
           blank
           (fun key => if String.eqb key "illum_wavelen" then Some (PyNum 660)
                       else None)); reflexivity.
Defined.

(** X14.  The properties [medium_index], [illum_wavelen] and
    [illum_polarization] of the Model that [__init__] built.  When the
    three were given, each property is the value given, tuples and arrays
    as lists.  When one of them was not, every one of the three properties
    raises [MissingParameter] for the first key that was not given, also
    the properties of the keys that were. *)
Theorem optics_properties_need_all_three mem scatterer_parameters
    medium_index illum_wavelen illum_polarization noise_sd self0 :
  supported medium_index = true ->
  supported illum_wavelen = true ->
  supported illum_polarization = true ->
  supported noise_sd = true ->
  exists self,
    Model_init mem scatterer_parameters
      (optics_parameters_of medium_index illum_wavelen illum_polarization noise_sd)
      self0 = (OK tt, self) /\
    (is_None medium_index = true ->
     forall key, optics_property key self = Fails (MissingParameter "medium_index")) /\
    (is_None medium_index = false -> is_None illum_wavelen = true ->
     forall key, optics_property key self = Fails (MissingParameter "illum_wavelen")) /\
    (is_None medium_index = false -> is_None illum_wavelen = false ->
     is_None illum_polarization = true ->
     forall key,
       optics_property key self = Fails (MissingParameter "illum_polarization")) /\
    (is_None medium_index = false -> is_None illum_wavelen = false ->
     is_None illum_polarization = false ->
     optics_property "medium_index" self = Found (substitute PyPrior medium_index) /\
     optics_property "illum_wavelen" self = Found (substitute PyPrior illum_wavelen) /\
     optics_property "illum_polarization" self
     = Found (substitute PyPrior illum_polarization)).
Proof.
  intros Hmi Hwl Hpol Hns.
  destruct (find_optics_given mem PyPrior scatterer_parameters medium_index
              illum_wavelen illum_polarization noise_sd self0 schema_None
              (fun _ => eq_refl) Hmi Hwl Hpol Hns)
    as (self & Hrun & Hoptics & _).
  exists self. split; [done|]. unfold optics_property. rewrite Hoptics.
  unfold optic, schema_None. cbn [not_None].
  split; [|split; [|split]].
  - by intros ->.
  - by intros -> ->.
  - by intros -> -> ->.
  - by intros -> -> ->.
Qed.

Lemma optics_properties_need_all_three_witness :
  exists self,
    Model_init bounded_heap sphere_parameters
      (optics_parameters_of (PyNum 1) PyNone (PyTuple [PyNum 1; PyNum 0]) PyNone)
      blank = (OK tt, self) /\
    forall key, optics_property key self = Fails (MissingParameter "illum_wavelen").
Proof.
  destruct (optics_properties_need_all_three bounded_heap sphere_parameters
              (PyNum 1) PyNone (PyTuple [PyNum 1; PyNum 0]) PyNone blank)
    as (self & Hrun & _ & Hmissing & _); [reflexivity..|].
  exists self. split; [exact Hrun|]. apply Hmissing; reflexivity.
Defined.

(** X15.  [_find_noise] on the Model that [__init__] built.  A
    [noise_sd] given to the constructor is returned with the value of every
    prior in it, whatever the schema.  Without one, the attribute
    [noise_sd] of the schema is returned if it is not [None]; if it is
    [None] the result is 1 when every prior of the registry is a [Uniform]
    and [MissingParameter] otherwise; and a schema without that attribute
    makes the function raise [NameError] for the unbound name [key].  The
    property [noise_sd], whose schema is [None], is therefore the value
    given to the constructor, or that [NameError]. *)
Theorem noise_model_schema_or_default mem slot scatterer_parameters
    medium_index illum_wavelen illum_polarization noise_sd self0 sch :
  (forall r, scalar_or_prior (slot r) = true) ->
  supported medium_index = true ->
  supported illum_wavelen = true ->
  supported illum_polarization = true ->
  supported noise_sd = true ->
  exists self,
    Model_init mem scatterer_parameters
      (optics_parameters_of medium_index illum_wavelen illum_polarization noise_sd)
      self0 = (OK tt, self) /\
    _find_noise mem self (slot <$> _parameters self) sch
    = (if is_None noise_sd then
         match sch "noise_sd" with
         | None => Fails (NameError "key")
         | Some val =>
             if is_None val then
               if forallb (is_Uniform mem) (_parameters self) then Found (PyNum 1)
               else Fails (MissingParameter "noise_sd for non-uniform priors")
             else Found val
         end
       else Found (substitute slot noise_sd)) /\
    noise_sd_property mem self
    = (if is_None noise_sd then Fails (NameError "key")
       else Found (substitute PyPrior noise_sd)).
Proof.
  intros Hslot Hmi Hwl Hpol Hns.
  destruct (find_optics_given mem slot scatterer_parameters medium_index illum_wavelen
              illum_polarization noise_sd self0 sch Hslot Hmi Hwl Hpol Hns)
    as (self & Hrun & _ & Hnoise).
  destruct (find_optics_given mem PyPrior scatterer_parameters medium_index
              illum_wavelen illum_polarization noise_sd self0 schema_None
              (fun _ => eq_refl) Hmi Hwl Hpol Hns)
    as (self' & Hrun' & _ & Hproperty).
  rewrite Hrun in Hrun'. injection Hrun' as <-.
  exists self. split; [done|]. split; [done|].
  unfold noise_sd_property. by rewrite Hproperty.
Qed.

Lemma noise_model_schema_or_default_witness :
  exists self,
    Model_init bounded_heap sphere_parameters
      (optics_parameters_of (PyNum 1) (PyNum 1) (PyTuple [PyNum 1; PyNum 0]) PyNone)
      blank = (OK tt, self) /\
    _find_noise bounded_heap self (guess_of bounded_heap <$> _parameters self)
      (fun key => if String.eqb key "noise_sd" then Some PyNone else None)
    = (if forallb (is_Uniform bounded_heap) (_parameters self) then Found (PyNum 1)
       else Fails (MissingParameter "noise_sd for non-uniform priors")) /\
    noise_sd_property bounded_heap self = Fails (NameError "key").
Proof.
  apply (noise_model_schema_or_default bounded_heap (guess_of bounded_heap)
           sphere_parameters (PyNum 1) (PyNum 1) (PyTuple [PyNum 1; PyNum 0]) PyNone
           blank
           (fun key => if String.eqb key "noise_sd" then Some PyNone else None));
    reflexivity.
Defined.

(** ** Parameters given as a dictionary *)

(** X16.  A dictionary of parameters is turned into the vector of its
    values in the order of the names of the registry, whatever the order of
    the dictionary and whatever other keys it has; so
    [scatterer_from_parameters] gives for the dictionary what it gives for
    that vector. *)
Theorem parameters_dictionary_read_by_name self (d : list (pykey * pyobj)) vals :
  length vals = length (_parameter_names self) ->
  (forall i name,
     _parameter_names self !! i = Some name -> dict_get d (KStr name) = vals !! i) ->
  ensure_parameters_are_listlike self (PyDict d) = OK (PyList vals) /\
  scatterer_from_parameters self (PyDict d)
  = scatterer_from_parameters self (PyList vals).
Proof.
  intros Hlength Hvalues.
  assert (ensure_parameters_are_listlike self (PyDict d) = OK (PyList vals)) as Hlist.
  { unfold ensure_parameters_are_listlike.
    rewrite (comprehension_Forall2 _ _ vals); [done|].
    apply Forall2_same_length_lookup. split; [done|].
    intros i name val Hname Hval. by rewrite (Hvalues i name Hname), Hval. }
  split; [done|]. unfold scatterer_from_parameters. by rewrite Hlist.
Qed.

Lemma parameters_dictionary_read_by_name_witness :
  ensure_parameters_are_listlike five_model
    (PyDict [(KStr "e", PyNum 50); (KStr "c", PyNum 30); (KStr "a", PyNum 10);
             (KStr "unused", PyNum 0); (KStr "d", PyNum 40); (KStr "b", PyNum 20)])
  = OK (PyList [PyNum 10; PyNum 20; PyNum 30; PyNum 40; PyNum 50]) /\
  scatterer_from_parameters five_model
    (PyDict [(KStr "e", PyNum 50); (KStr "c", PyNum 30); (KStr "a", PyNum 10);
             (KStr "unused", PyNum 0); (KStr "d", PyNum 40); (KStr "b", PyNum 20)])
  = scatterer_from_parameters five_model
      (PyList [PyNum 10; PyNum 20; PyNum 30; PyNum 40; PyNum 50]).
Proof.
  apply (parameters_dictionary_read_by_name five_model); [reflexivity|].
  intros i name Hname.
  do 5 (destruct i as [|i]; [injection Hname as <-; reflexivity|]).
  discriminate Hname.
Defined.

(** ** The scaling parameter of an [AlphaModel] *)

Lemma dict_get_set {K V} `{EqDecision K} (d : list (K * V)) k v :
  dict_get (dict_set d k v) k = Some v.
Proof.
  induction d as [|[k0 v0] d IH]; simpl.
  - by rewrite decide_True.
  - destruct (decide (k0 = k)) as [->|Hne]; simpl.
    + by rewrite decide_True.
    + by rewrite decide_False.
Qed.

(** X17.  [AlphaModel.__init__] completes, also without a scaling
    parameter.  Reading [alpha] then, as the property [alpha] and [forward]
    do, gives the [alpha] of the constructor with the value of its prior if
    it is one; for [alpha=None] the map has no such entry and the reading
    raises [KeyError]. *)
Theorem alpha_read_back mem slot scatterer_parameters optics_parameters alpha self0 :
  (forall r, scalar_or_prior (slot r) = true) ->
  supported alpha = true ->
  exists self,
    AlphaModel_init mem scatterer_parameters optics_parameters alpha self0
    = (OK tt, self) /\
    read_alpha self (slot <$> _parameters self)
    = if is_None alpha then Fails (Raised (KeyError "alpha"))
      else Found (substitute slot alpha).
Proof.
  intros Hslot Halpha. unfold AlphaModel_init.
  destruct (Model_init mem scatterer_parameters optics_parameters self0)
    as [outcome self1] eqn:Hinit.
  destruct (Model_init_registry _ _ _ _ _ _ Hinit) as (-> & Haligned & _).
  unfold mbind at 1, py_bind. rewrite Hinit. unfold Model_add_map.
  destruct (optional_mapping_reads_back mem slot [(KStr "alpha", alpha)] "" self1
              Hslot Haligned) as (M & self2 & Hrun & Hext & Hread).
  { by_evaluation. }
  { by repeat constructor. }
  unfold mbind at 1, py_bind. rewrite Hrun.
  unfold mbind at 1, py_bind, get_maps, set_maps.
  eexists. split; [reflexivity|].
  unfold read_alpha, read_group, maps_getitem. cbn [_maps _parameters].
  rewrite dict_get_set. cbn [from_some].
  rewrite (Hread self2 (slot <$> _parameters self2)
             (extends_refl _ (proj1 Hext)) (agrees_slots slot self2)).
  rewrite filter_not_None_cons, filter_nil.
  by destruct (is_None alpha).
Qed.

Lemma alpha_read_back_witness :
  exists self,
    AlphaModel_init bounded_heap sphere_parameters plain_optics (PyPrior 9%N) blank
    = (OK tt, self) /\
    read_alpha self (guess_of bounded_heap <$> _parameters self) = Found (PyNum 9).
Proof.
  apply (alpha_read_back bounded_heap (guess_of bounded_heap) sphere_parameters
           plain_optics (PyPrior 9%N) blank); reflexivity.
Defined.

(** ** The scatterer after a tie *)

Lemma list_index_NoDup `{EqDecision A} (l : list A) i x :
  NoDup l -> l !! i = Some x -> list_index x l = Some i.
Proof.
  intros Hdistinct Hi.
  destruct (list_index_elem x l) as [j Hj]; [by eapply list_elem_of_lookup_2|].
  pose proof (list_index_Some _ _ _ Hj) as Hj'.
  by rewrite (NoDup_lookup l i j x Hdistinct Hi Hj').
Qed.

Lemma supported_clean c : supported c = true -> clean c = true.
Proof.
  induction c as [| | | s | |items IH|items IH|items IH|items IH|dim items IH
                 |real imag _ _|r] using pyobj_induction; try done.
  - cbn [supported clean]. rewrite !forallb_forall. intros Hall item Hitem.
    rewrite Forall_forall in IH. apply IH; [by apply list_elem_of_In|by apply Hall].
  - cbn [supported clean]. rewrite !forallb_forall. intros Hall item Hitem.
    rewrite Forall_forall in IH. apply IH; [by apply list_elem_of_In|by apply Hall].
  - cbn [supported clean]. rewrite !forallb_forall. intros Hall item Hitem.
    rewrite Forall_forall in IH. apply IH; [by apply list_elem_of_In|by apply Hall].
  - cbn [supported clean]. intros [_ Hall]%andb_true_iff. revert Hall.
    rewrite !forallb_forall. intros Hall kv Hkv.
    pose proof (Hall kv Hkv) as Hboth.
    apply andb_true_iff in Hboth as [[Hkey _]%andb_true_iff Hvalue].
    rewrite Hkey. rewrite Forall_forall in IH.
    by apply (IH kv); [apply list_elem_of_In|].
  - cbn [supported clean]. intros [[Hdim _]%andb_true_iff Hall]%andb_true_iff.
    rewrite Hdim. cbn [andb]. revert Hall.
    rewrite !forallb_forall. intros Hall kv Hkv.
    pose proof (Hall kv Hkv) as Hboth.
    apply andb_true_iff in Hboth as [Hkey Hvalue].
    rewrite Hkey. rewrite Forall_forall in IH.
    by apply (IH kv); [apply list_elem_of_In|].
  - cbn [supported clean]. intros [Hreal Himag]%andb_true_iff.
    by destruct real, imag.
Qed.

(** The tied vector holds, at every slot, the value of the prior that
    stands for the prior of the slot. *)
Lemma agrees_tied slot self lowest others :
  NoDup (_parameters self) ->
  agrees (fun r => slot (tied_to (_parameters self) lowest others r)) self
    (tied_vector lowest others (slot <$> _parameters self)).
Proof.
  intros Hdistinct i r Hi. unfold tied_vector, tied_to.
  rewrite list_lookup_imap, !list_lookup_fmap, Hi.
  rewrite (list_index_NoDup _ i r Hdistinct Hi). cbn.
  destruct (decide (i ∈ others)); [|done].
  by destruct (_parameters self !! lowest).
Qed.

(** X18.  After [Model.__init__] on a supported scatterer configuration,
    a tie that is accepted changes the scatterer in one way: read with the
    values of the remaining priors, the configuration comes back with, in
    place of every prior whose slot was removed, the value of the tied
    prior that stayed, and with every other prior replaced by its own
    value. *)
Theorem tied_scatterer mem slot scatterer_parameters optics_parameters self0 self
    tie new_name :
  (forall r, scalar_or_prior (slot r) = true) ->
  supported scatterer_parameters = true ->
  clean optics_parameters = true ->
  Model_init mem scatterer_parameters optics_parameters self0 = (OK tt, self) ->
  tieable mem self tie ->
  exists lowest others self',
    add_tie mem tie new_name self = (OK tt, self') /\
    StronglySorted lt (lowest :: others) /\
    (forall i, i ∈ lowest :: others <->
       exists par, par ∈ tie /\ list_index par (_parameter_names self) = Some i) /\
    _parameters self' = delete_each (rev others) (_parameters self) /\
    scatterer_from_parameters self' (PyList (slot <$> _parameters self'))
    = OK (substitute (fun r => slot (tied_to (_parameters self) lowest others r))
            scatterer_parameters).
Proof.
  intros Hslot Hsupported Hclean Hinit Htie.
  destruct (Model_init_well_formed mem scatterer_parameters optics_parameters self0
              (supported_clean _ Hsupported) Hclean) as (self1 & Hinit1 & Hformed & Hpriors).
  rewrite Hinit in Hinit1. injection Hinit1 as <-.
  destruct (add_tie_reads mem self tie new_name Hformed Htie)
    as (lowest & others & self' & Hrun & Hsorted & Hiff & Hparameters & Hread).
  exists lowest, others, self'. split; [done|]. split; [done|]. split; [done|].
  split; [done|].
  destruct (Model_init_builds mem
              (fun r => slot (tied_to (_parameters self) lowest others r))
              scatterer_parameters optics_parameters self0 (fun r => Hslot _) Hsupported)
    as (self1 & M1 & M2 & Hinit1 & Hmaps & _ & Hback & _).
  rewrite Hinit in Hinit1. injection Hinit1 as <-.
  destruct (Hread "scatterer" M1) as (M1' & Hkey & Hsame).
  { unfold maps_getitem. by rewrite Hmaps. }
  unfold scatterer_from_parameters. rewrite Hkey.
  change (read_map M1' (slot <$> _parameters self')
          = OK (substitute (fun r => slot (tied_to (_parameters self) lowest others r))
                  scatterer_parameters)).
  rewrite Hsame. by apply Hback, agrees_tied.
Qed.

Lemma tied_scatterer_witness :
  exists lowest others self',
    add_tie uniform_heap ["d"; "b"] (Some "bd") five_model = (OK tt, self') /\
    StronglySorted lt (lowest :: others) /\
    (forall i, i ∈ lowest :: others <->
       exists par, par ∈ ["d"; "b"] /\
                   list_index par (_parameter_names five_model) = Some i) /\
    _parameters self' = delete_each (rev others) (_parameters five_model) /\
    scatterer_from_parameters self'
      (PyList ((fun r => PyNum (Z.of_N r)) <$> _parameters self'))
    = OK (substitute (fun r => PyNum (Z.of_N (tied_to (_parameters five_model) lowest
                                                 others r)))
            five_parameters).
Proof.
  apply (tied_scatterer uniform_heap (fun r => PyNum (Z.of_N r)) five_parameters
           plain_optics blank five_model ["d"; "b"] (Some "bd")).
  - reflexivity.
  - reflexivity.
  - reflexivity.
  - vm_compute. reflexivity.
  - apply five_model_tieable; [done|by_evaluation|].
    intros par Hpar.
    repeat (apply elem_of_cons in Hpar as [->|Hpar]; [by_evaluation|]).
    by apply elem_of_nil in Hpar.
Defined.

(** ** The names of the priors of a configuration *)

Lemma for_in_app {A} (body : A -> py unit) l1 l2 self :
  for_in body (l1 ++ l2) self
  = match for_in body l1 self with
    | (OK _, self') => for_in body l2 self'
    | (Raise e, self') => (Raise e, self')
    end.
Proof.
  revert self. induction l1 as [|x l1 IH]; intros self; [done|].
  cbn [app for_in]. unfold mbind, py_bind.
  destruct (body x self) as [[[]|e] self1]; [apply IH|done].
Qed.

Lemma iterate_mapping_registry mem {A} (value : A -> pyobj)
    (namer : nat -> A -> string) (pairs : list A) :
  Forall (fun pair =>
            forall name self,
              (void (_convert_to_map mem (value pair) name self).1,
               (_convert_to_map mem (value pair) name self).2)
              = for_in (register mem) (named_priors (value pair) name) self) pairs ->
  forall i self,
    (void (for_each_from (fun i pair => _convert_to_map mem (value pair) (namer i pair))
             i pairs self).1,
     (for_each_from (fun i pair => _convert_to_map mem (value pair) (namer i pair))
        i pairs self).2)
    = for_in (register mem)
        (concat_from (fun i pair => named_priors (value pair) (namer i pair)) i pairs)
        self.
Proof.
  induction 1 as [|pair pairs Hpair _ IH]; intros i self; [done|].
  cbn [for_each_from concat_from]. rewrite for_in_app, <- Hpair.
  unfold mbind at 1 3, py_bind.
  destruct (_convert_to_map mem (value pair) (namer i pair) self) as [[M|e] self1];
    [|done].
  cbn [void fst snd]. rewrite <- IH.
  unfold mbind at 1 2, py_bind.
  by destruct (for_each_from _ (S i) pairs self1) as [[Ms|e] self2].
Qed.

(** Map building touches the registry through [_check_for_ties] only,
    which it calls for the priors of the configuration in turn, each with
    its path as the suggested name. *)
Lemma convert_registry mem c name self :
  (void (_convert_to_map mem c name self).1, (_convert_to_map mem c name self).2)
  = for_in (register mem) (named_priors c name) self.
Proof.
  revert name self.
  induction c as [| | | s | |items IH|items IH|items IH|items IH|dim items IH
                 |real imag IHreal IHimag|r] using pyobj_induction;
    intros name self; try done.
  - destruct (convert_sequence mem items name) as (-> & _ & _).
    cbn [named_priors]. rewrite <- (iterate_mapping_registry mem id _ items IH).
    unfold mbind, py_bind. by destruct (for_each_from _ 0 items self) as [[Ms|e] self'].
  - destruct (convert_sequence mem items name) as (Hlist & -> & _). rewrite Hlist.
    cbn [named_priors]. rewrite <- (iterate_mapping_registry mem id _ items IH).
    unfold mbind, py_bind. by destruct (for_each_from _ 0 items self) as [[Ms|e] self'].
  - destruct (convert_sequence mem items name) as (Hlist & _ & ->). rewrite Hlist.
    cbn [named_priors]. rewrite <- (iterate_mapping_registry mem id _ items IH).
    unfold mbind, py_bind. by destruct (for_each_from _ 0 items self) as [[Ms|e] self'].
  - rewrite convert_dictionary. cbn [named_priors].
    rewrite <- (iterate_mapping_registry mem snd
                  (fun _ (kv : pykey * pyobj) =>
                     (if decide (0 < String.length name)%nat then name +:+ "." else "")
                     +:+ key_str kv.1) items IH).
    unfold mbind, py_bind. by destruct (for_each_from _ 0 items self) as [[Ms|e] self'].
  - rewrite convert_xarray. cbn [named_priors].
    rewrite <- (iterate_mapping_registry mem snd
                  (fun _ (kv : pykey * pyobj) => (name +:+ ".") +:+ key_str kv.1)
                  items IH).
    unfold mbind, py_bind. by destruct (for_each_from _ 0 items self) as [[Ms|e] self'].
  - rewrite convert_complex. cbn [named_priors].
    rewrite <- (app_nil_r (named_priors imag _)).
    change (named_priors real ((name +:+ ".") +:+ "real")
            ++ named_priors imag ((name +:+ ".") +:+ "imag") ++ [])
      with (concat_from (fun _ (kv : string * pyobj) =>
                           named_priors kv.2 ((name +:+ ".") +:+ kv.1))
              0 [("real", real); ("imag", imag)]).
    rewrite <- (iterate_mapping_registry mem snd
                  (fun _ (kv : string * pyobj) => (name +:+ ".") +:+ kv.1)
                  [("real", real); ("imag", imag)]); [|by repeat constructor].
    unfold mbind, py_bind. by destruct (for_each_from _ 0 _ self) as [[Ms|e] self'].
  - cbn [_convert_to_map named_priors for_in]. unfold register. cbn [fst snd].
    unfold mbind, py_bind.
    by destruct (_check_for_ties mem r name self) as [[index|e] self'].
Qed.

(** Priors that are new to the registry, under names that are new to it,
    are appended in turn under those names. *)
Lemma register_fresh mem found self :
  NoDup found.*2 ->
  (forall r, r ∈ found.*2 -> r ∉ _parameters self) ->
  NoDup (candidate_name mem <$> found) ->
  (forall name, name ∈ candidate_name mem <$> found -> name ∉ _parameter_names self) ->
  for_in (register mem) found self
  = (OK tt, mkModel (_parameters self ++ found.*2)
              (_parameter_names self ++ (candidate_name mem <$> found))
              (_maps self)).
Proof.
  revert self. induction found as [|[name r] found IH]; intros self.
  - intros _ _ _ _. cbn. rewrite !app_nil_r. by destruct self.
  - rewrite !fmap_cons. cbn [fst snd].
    intros [Hr Hrs]%NoDup_cons Hnew [Hname Hnames]%NoDup_cons Hfree.
    cbn [for_in]. unfold mbind at 1, py_bind, register at 1. cbn [fst snd].
    unfold mbind at 1, py_bind.
    rewrite check_for_ties_new by (apply Hnew; left).
    unfold first_candidate.
    change (default name (prior_name (mem r))) with (candidate_name mem (name, r)).
    rewrite decide_False by (apply Hfree; left).
    cbn [rename_loop]. rewrite decide_False by (apply Hfree; left).
    unfold mret at 1, py_ret. rewrite IH; cbn [_parameters _parameter_names _maps].
    + by rewrite <- !app_assoc.
    + done.
    + intros r' Hr' [Hin| ->%list_elem_of_singleton]%elem_of_app; [|done].
      revert Hin. apply Hnew. by right.
    + done.
    + intros name' Hname' [Hin| ->%list_elem_of_singleton]%elem_of_app; [|done].
      revert Hin. apply Hfree. by right.
Qed.

(** X19.  Map building changes the registry in one way only: by calling
    [_check_for_ties] once for every prior of the configuration, in the
    order of the configuration, with the path to the prior as the
    suggested name: the keys and positions that lead to it, joined by
    dots.  It raises when one of those calls does, and then leaves the
    registry as that call left it. *)
Theorem registry_through_check_for_ties mem c name self :
  (_convert_to_map mem c name self).2
  = (for_in (register mem) (named_priors c name) self).2 /\
  void (_convert_to_map mem c name self).1
  = (for_in (register mem) (named_priors c name) self).1.
Proof.
  pose proof (convert_registry mem c name self) as Hrun.
  destruct (for_in (register mem) (named_priors c name) self) as [outcome self'].
  injection Hrun as Houtcome Hself. by split.
Qed.

(** X20.  When the priors of a configuration are distinct and new to the
    registry, and their names, for a prior without a name its path, are
    distinct and new to the registry, map building appends the priors in
    the order of the configuration, each under that name, and nothing is
    renamed. *)
Theorem names_are_dotted_paths mem c name self :
  NoDup (named_priors c name).*2 ->
  (forall r, r ∈ (named_priors c name).*2 -> r ∉ _parameters self) ->
  NoDup (candidate_name mem <$> named_priors c name) ->
  (forall n, n ∈ candidate_name mem <$> named_priors c name ->
     n ∉ _parameter_names self) ->
  exists M,
    _convert_to_map mem c name self
    = (OK M, mkModel (_parameters self ++ (named_priors c name).*2)
               (_parameter_names self ++ (candidate_name mem <$> named_priors c name))
               (_maps self)).
Proof.
  intros Hpriors Hnew Hnames Hfree.
  pose proof (convert_registry mem c name self) as Hrun.
  rewrite (register_fresh mem _ self Hpriors Hnew Hnames Hfree) in Hrun.
  destruct (_convert_to_map mem c name self) as [[M|e] self']; [|done].
  injection Hrun as <-. by exists M.
Qed.

Lemma names_are_dotted_paths_witness :
  exists M,
    _convert_to_map uniform_heap
      (PyDict [(KStr "r", PyPrior 1%N);
               (KStr "n", PyComplexPrior (PyPrior 2%N) (PyNum 0));
               (KStr "center", PyList [PyPrior 3%N; PyNum 0; PyPrior 4%N])]) "" blank
    = (OK M, mkModel [1; 2; 3; 4]%N ["r"; "n.real"; "center.0"; "center.2"] []).
Proof.
  apply (names_are_dotted_paths uniform_heap
           (PyDict [(KStr "r", PyPrior 1%N);
                    (KStr "n", PyComplexPrior (PyPrior 2%N) (PyNum 0));
                    (KStr "center", PyList [PyPrior 3%N; PyNum 0; PyPrior 4%N])])
           "" blank).
  - by_evaluation.
  - by intros r _ Hr%elem_of_nil.
  - by_evaluation.
  - by intros n _ Hn%elem_of_nil.
Defined.

(** ** Ties that are rejected *)

(** X21.  [add_tie] on distinct names does all or nothing: when it
    raises, for a name that is not present, for unequal priors or for an
    empty list of names, the Model is as it was before the call: its
    priors, its names and its maps. *)
Theorem add_tie_all_or_nothing mem tie new_name self outcome self' :
  well_formed self ->
  NoDup tie ->
  add_tie mem tie new_name self = (outcome, self') ->
  outcome = OK tt \/ self' = self.
Proof.
  intros Hformed Hdistinct Hrun.
  destruct (decide (tie = [])) as [->|Hnonempty].
  { right. eapply add_tie_nothing; [apply Hformed|done]. }
  destruct (add_tie_validation mem self tie (proj1 Hformed))
    as [[e Hraise]|[Hpresent Hequal]].
  - right. rewrite (add_tie_validation_raises _ _ new_name _ _ _ Hraise) in Hrun.
    by injection Hrun as _ <-.
  - left. destruct Hformed as (Haligned & Hkeys & Hmaps).
    destruct (add_tie_runs mem self tie new_name Haligned Hkeys) as
      (lowest & others & _ & _ & _ & Hdone); try done.
    + eapply Forall_impl; [exact Hmaps|]. by intros kv [_ Hslots].
    + rewrite Hdone in Hrun. by injection Hrun as <- _.
Qed.

Lemma add_tie_all_or_nothing_witness :
  exists outcome self',
    add_tie uniform_heap ["a"; "z"] (Some "az") five_model = (outcome, self') /\
    (outcome = OK tt \/ self' = five_model).
Proof.
  eexists _, _. split; [vm_compute; reflexivity|].
  apply (add_tie_all_or_nothing uniform_heap ["a"; "z"] (Some "az") five_model).
  - apply five_model_well_formed.
  - by_evaluation.
  - vm_compute. reflexivity.
Defined.

(** X22.  Without distinct names [add_tie] does not do all or nothing.
    A tie of a name with itself under a new name removes the slot of the
    name and then writes the new name at the index of that slot: over the
    name of the slot that followed, or, when the slot was the last, nowhere:
    the call raises [IndexError] with the slot removed and the maps not yet
    renumbered. *)
Theorem tie_with_itself_renames_next mem self name new_name :
  well_formed self ->
  name ∈ _parameter_names self ->
  exists index,
    list_index name (_parameter_names self) = Some index /\
    add_tie mem [name; name] (Some new_name) self
    = if decide (S index < length (_parameter_names self))%nat then
        (OK tt,
         mkModel (delete index (_parameters self))
           (<[index := new_name]> (delete index (_parameter_names self)))
           ((fun kv => (kv.1, retarget (fun j => if decide (j <= Z.of_nat index)
                                                 then j else j - 1) kv.2))
              <$> _maps self))
      else
        (Raise IndexError,
         mkModel (delete index (_parameters self))
           (delete index (_parameter_names self)) (_maps self)).
Proof.
  intros (Haligned & Hkeys & Hmaps) Hin.
  destruct (list_index_elem _ _ Hin) as [index Hindex].
  exists index. split; [done|].
  destruct (add_tie_indices_collects mem self [name; name] name [name; name] []
              Haligned eq_refl Hin) as (found & Hfound & Hrun).
  { by intros par [->| ->%list_elem_of_singleton]%elem_of_cons. }
  assert (found = [index; index]) as ->.
  { apply Forall2_cons_inv_l in Hfound as (i & found' & Hi & Hfound & ->).
    apply Forall2_cons_inv_l in Hfound as (j & found'' & Hj & Hfound & ->).
    apply Forall2_nil_inv_l in Hfound as ->. congruence. }
  assert (index < length (_parameter_names self))%nat as Hbound.
  { by apply list_index_Some, lookup_lt_Some in Hindex. }
  unfold add_tie. unfold mbind at 1, py_bind. rewrite Hrun. cbn [app].
  rewrite merge_sort_twice. change (drop 1 [index; index]) with [index].
  unfold mbind at 1, py_bind.
  rewrite (del_slot_loop_run [index] self Haligned);
    [|repeat constructor|repeat constructor; unfold aligned in Haligned; lia].
  change (delete_each (rev [index]) (_parameters self))
    with (delete index (_parameters self)).
  change (delete_each (rev [index]) (_parameter_names self))
    with (delete index (_parameter_names self)).
  unfold mbind at 1, py_bind. unfold mbind at 1, py_bind, lift.
  change ([index; index] !! 0%nat) with (Some index). cbn [from_some].
  unfold mbind at 1, py_bind, get_parameter_names. cbn [_parameter_names].
  unfold mbind at 1, py_bind, lift, setitem.
  rewrite length_delete by by apply lookup_lt_is_Some_2.
  destruct (decide (S index < length (_parameter_names self))%nat) as [Hnext|Hlast].
  - rewrite decide_True by lia. unfold set_parameter_names.
    cbn [_parameters _parameter_names _maps].
    unfold mbind at 1, py_bind, get_maps. cbn [_maps].
    unfold mbind at 1, py_bind, lift.
    rewrite (comprehension_OK _
               (fun kv => (kv.1, retarget (fun j => if decide (j <= Z.of_nat index)
                                                    then j else j - 1) kv.2))).
    + unfold set_maps. cbn [_parameters _parameter_names _maps].
      rewrite dict_of_NoDup; [done|]. by rewrite <- list_fmap_compose.
    + eapply Forall_impl; [exact Hmaps|]. intros [key map_entry] [_ Hslots].
      cbn [fst snd] in *. rewrite !fmap_cons.
      erewrite edit_map_indices_retarget by done. cbn. f_equal. f_equal.
      eapply retarget_ext; [exact Hslots|]. intros j _. apply renumbering_twice.
  - by rewrite decide_False by lia.
Qed.

Lemma tie_with_itself_renames_next_witness :
  exists index,
    list_index "e" (_parameter_names five_model) = Some index /\
    add_tie uniform_heap ["e"; "e"] (Some "z") five_model
    = if decide (S index < length (_parameter_names five_model))%nat then
        (OK tt,
         mkModel (delete index (_parameters five_model))
           (<[index := "z"]> (delete index (_parameter_names five_model)))
           ((fun kv => (kv.1, retarget (fun j => if decide (j <= Z.of_nat index)
                                                 then j else j - 1) kv.2))
              <$> _maps five_model))
      else
        (Raise IndexError,
         mkModel (delete index (_parameters five_model))
           (delete index (_parameter_names five_model)) (_maps five_model)).
Proof.
  apply (tie_with_itself_renames_next uniform_heap five_model "e" "z").
  - apply five_model_well_formed.
  - by_evaluation.
Defined.
